(** * The Brotli encoder core (enc/encode.cc): a shallow embedding

    The functions of [enc/encode.cc] are rendered as Rocq functions over
    [Z], lists (for [std::vector] and small fixed arrays) and total
    byte memories (for raw [uint8_t*] buffers).  State that the C++
    code mutates through pointers is passed explicitly and returned.

    Code that lives in other files of the encoder (the entropy-code
    builder, the hasher, the block splitter, the clusterer, the static
    prefix tables, ...) is taken as a record of collaborators, so that
    every statement below holds for any implementation of them. *)

From stdpp Require Import base numbers list.
From Stdlib Require Import ZArith Lia Permutation Sorted.

Local Open Scope Z_scope.

(** ** Constants of the file *)

Definition kWindowBits : Z := 22.
Definition kDecoderRingBufferWriteAheadSlack : Z := 16.
Definition kMaxBackwardDistance : Z :=
  (1 ≪ kWindowBits) - kDecoderRingBufferWriteAheadSlack.
Definition kMetaBlockSizeBits : Z := 21.
Definition kRingBufferBits : Z := 23.
Definition kRingBufferMask : Z := (1 ≪ kRingBufferBits) - 1.

(** Modelled from the spec: the sizes of the alphabets and contexts that
    the headers [entropy_encode.h], [prefix.h] and [context.h] declare
    (19 code-length symbols, 704 command prefixes, 26 block-length
    prefixes, 16 distance short codes, 6 literal and 2 distance context
    bits). *)
Definition kCodeLengthCodes : Z := 19.
Definition kNumCommandPrefixes : Z := 704.
Definition kNumBlockLenPrefixes : Z := 26.
Definition kNumDistanceShortCodes : Z := 16.
Definition kLiteralContextBits : Z := 6.
Definition kDistanceContextBits : Z := 2.

(** [size_t] is a 64-bit unsigned integer; its arithmetic wraps. *)
Definition size_t (x : Z) : Z := x mod 2 ^ 64.

(** ** Vectors, arrays and raw memory *)

(** [v[i]] on a vector or a fixed array.  C++ leaves an access outside
    the array undefined; the model reads the default element there. *)
Definition vget {A} `{Inhabited A} (v : list A) (i : Z) : A :=
  if i <? 0 then inhabitant else v !!! Z.to_nat i.

(** [v[i] = x].  Outside the array the model leaves [v] as it is. *)
Definition vset {A} (v : list A) (i : Z) (x : A) : list A :=
  if i <? 0 then v else <[Z.to_nat i := x]> v.

(** [v.resize(n, x)]: truncate, or pad with copies of [x]. *)
Definition resize {A} (v : list A) (n : Z) (x : A) : list A :=
  take (Z.to_nat n) (v ++ replicate (Z.to_nat n - length v)%nat x).

(** A raw byte buffer reached through a pointer: the byte at each offset. *)
Definition mem : Type := Z -> Z.

Definition mem_set (m : mem) (i v : Z) : mem :=
  fun j => if j =? i then v else m j.

(** [p + off] for a pointer [p]. *)
Definition mem_offset (m : mem) (off : Z) : mem := fun j => m (off + j).

(** [memcpy(&dst[off], src, n)]. *)
Definition memcpy_at (dst : mem) (off : Z) (src : mem) (n : Z) : mem :=
  fun j => if (off <=? j) && (j <? off + n) then src (j - off) else dst j.

(** [for (int i = lo; i < hi; ++i) body] for a loop without [break]. *)
Definition for_range {S} (lo hi : Z) (body : Z -> S -> S) (s : S) : S :=
  fold_left (fun s i => body i s) (seqZ lo (hi - lo)) s.

(** ** The bit sink (write_bits.h) *)

(** The output cursor [*storage_ix] (in bits) and the buffer [storage]. *)
Record BitSink := mkBitSink { storage_ix : Z; storage : mem }.

Definition put_bit (m : mem) (pos : Z) (b : bool) : mem :=
  let byte := pos ≫ 3 in
  let bit := Z.land pos 7 in
  mem_set m byte (if b then Z.setbit (m byte) bit else Z.clearbit (m byte) bit).

(** Modelled from the spec: [WriteBits] of [write_bits.h], which is not in
    this file.  It appends the low [n_bits] bits of [bits], least
    significant bit first, little-endian within each byte, and advances
    the bit cursor by [n_bits]. *)
Definition WriteBits (n_bits bits : Z) (s : BitSink) : BitSink :=
  {| storage_ix := storage_ix s + n_bits;
     storage := for_range 0 n_bits
                  (fun i m => put_bit m (storage_ix s + i) (Z.testbit bits i))
                  (storage s) |}.

(** A sequence of [WriteBits] calls, each given as [(n_bits, bits)]. *)
Definition emit (ws : list (Z * Z)) (s : BitSink) : BitSink :=
  fold_left (fun s w => WriteBits w.1 w.2 s) ws s.

(** ** Integer logarithms (fast_log.h) *)

(** Modelled from the spec: [Log2Floor n] is the floor of the binary
    logarithm of [n]; [fast_log.h] is not in this file.  At 0 the
    library function returns -1. *)
Definition Log2Floor (n : Z) : Z := if n <=? 0 then -1 else Z.log2 n.

(** Modelled from the spec: [Log2Ceiling n] is the ceiling of the binary
    logarithm of [n] (for [n >= 1]). *)
Definition Log2Ceiling (n : Z) : Z := Z.log2_up n.

(** ** Data model *)

(** Modelled from the spec: [EntropyCode<kSize>] of [entropy_encode.h]:
    the bit length and the codeword of each symbol, the number of
    symbols in use and the first four of them. *)
Record EntropyCode := mkEntropyCode {
  depth_ : list Z;
  bits_ : list Z;
  count_ : Z;
  symbols_ : list Z
}.

#[global] Instance EntropyCode_inhabited : Inhabited EntropyCode :=
  populate (mkEntropyCode [] [] 0 []).

(** Modelled from the spec: [Histogram<kSize>] of [histogram.h], the
    counts by symbol and their total (the cached floating-point cost of
    the C++ struct is left out). *)
Record Histogram := mkHistogram {
  data_ : list Z;
  total_count_ : Z
}.

#[global] Instance Histogram_inhabited : Inhabited Histogram :=
  populate (mkHistogram [] 0).

Definition Histogram_new (kSize : Z) : Histogram :=
  mkHistogram (replicate (Z.to_nat kSize) 0) 0.

Definition Histogram_Add (val : Z) (h : Histogram) : Histogram :=
  mkHistogram (vset (data_ h) val (vget (data_ h) val + 1)) (total_count_ h + 1).

Definition Histogram_Remove (val : Z) (h : Histogram) : Histogram :=
  mkHistogram (vset (data_ h) val (vget (data_ h) val - 1)) (total_count_ h - 1).

(** Modelled from the spec: [Command] of [command.h]. *)
Record Command := mkCommand {
  insert_length_ : Z;
  copy_length_ : Z;
  copy_length_code_ : Z;
  copy_distance_ : Z;
  distance_code_ : Z;
  distance_prefix_ : Z;
  command_prefix_ : Z;
  distance_extra_bits_ : Z;
  distance_extra_bits_value_ : Z
}.

#[global] Instance Command_inhabited : Inhabited Command :=
  populate (mkCommand 0 0 0 0 0 0 0 0 0).

(** Modelled from the spec: [BlockSplit] of [block_splitter.h]. *)
Record BlockSplit := mkBlockSplit {
  num_types_ : Z;
  types_ : list Z;
  type_codes_ : list Z;
  lengths_ : list Z
}.

(** Modelled from the spec: [BlockSplitIterator] of [block_splitter.h],
    a cursor over a block split. *)
Record BlockSplitIterator := mkBlockSplitIterator {
  split_ : BlockSplit;
  idx_ : Z;
  type_ : Z;
  length_ : Z
}.

(** ** Meta-block length and entropy-coded symbols *)

(** The [while (num_bits > 0)] loop of [EncodeMetaBlockLength]; it runs
    at most [num_bits] times. *)
Fixpoint EncodeMetaBlockLength_nibbles (fuel : nat) (meta_block_size num_bits : Z)
    (s : BitSink) : Z * Z * BitSink :=
  match fuel with
  | O => (meta_block_size, num_bits, s)
  | S fuel' =>
      if 0 <? num_bits then
        EncodeMetaBlockLength_nibbles fuel'
          (meta_block_size ≫ 4) (num_bits - 4)
          (WriteBits 4 (Z.land meta_block_size 15) s)
      else (meta_block_size, num_bits, s)
  end.

Definition EncodeMetaBlockLength (meta_block_size : Z) (s : BitSink) : BitSink :=
  let s := WriteBits 1 0 s in
  let num_bits := Log2Floor meta_block_size + 1 in
  let s := WriteBits 3 ((num_bits + 3) ≫ 2) s in
  let '(meta_block_size, num_bits, s) :=
    EncodeMetaBlockLength_nibbles (Z.to_nat num_bits) meta_block_size num_bits s in
  if 0 <? num_bits then WriteBits num_bits meta_block_size s else s.

Definition EntropyEncode (val : Z) (code : EntropyCode) (s : BitSink) : BitSink :=
  if count_ code <=? 1 then s
  else WriteBits (vget (depth_ code) val) (vget (bits_ code) val) s.

(** ** Collaborators

    Everything the file calls that is defined elsewhere in the encoder.
    Functions that write through output pointers return what they write. *)
Class Collaborators := {
  (* hash.h, ringbuffer.h, literal_cost.h, backward_references.h *)
  Hasher : Type;
  RingBuffer : Type;
  LiteralCosts : Type;
  Hasher_new : Hasher;
  RingBuffer_new : Z -> Z -> RingBuffer;
  RingBuffer_Write : mem -> Z -> RingBuffer -> RingBuffer;
  RingBuffer_start : RingBuffer -> mem;
  LiteralCosts_new : Z -> LiteralCosts;
  EstimateBitCostsForLiterals : Z -> Z -> Z -> mem -> LiteralCosts -> LiteralCosts;
  CreateBackwardReferences :
    Z -> Z -> mem -> LiteralCosts -> Z -> Z -> Hasher -> list Command ->
    Hasher * list Command;
  (* block_splitter.h, histogram.h, cluster.h *)
  SplitBlock :
    list Command -> mem -> BlockSplit -> BlockSplit -> BlockSplit ->
    BlockSplit * BlockSplit * BlockSplit;
  BlockSplitIterator_new : BlockSplit -> BlockSplitIterator;
  BuildHistograms :
    list Command -> BlockSplit -> BlockSplit -> BlockSplit -> mem -> Z -> Z ->
    list Z -> list Histogram -> list Histogram -> list Histogram ->
    list Histogram * list Histogram * list Histogram;
  ClusterHistograms :
    list Histogram -> Z -> Z -> Z -> list Histogram -> list Z ->
    list Histogram * list Z;
  (* entropy_encode.h, bit_cost.h *)
  BuildEntropyCode : Histogram -> Z -> Z -> EntropyCode;
  WriteHuffmanTree : list Z -> Z -> list Z * list Z * Z;
  HuffmanTreeBitCost : Histogram -> EntropyCode -> Z;
  PopulationCost : Histogram -> Z;
  (* prefix.h *)
  CommandPrefix : Z -> Z -> Z;
  InsertLengthExtraBits : Z -> Z;
  InsertLengthOffset : Z -> Z;
  CopyLengthExtraBits : Z -> Z;
  CopyLengthOffset : Z -> Z;
  PrefixEncodeCopyDistance : Z -> Z -> Z -> Z * Z * Z;
  BlockLengthPrefix : Z -> Z;
  BlockLengthExtraBits : Z -> Z;
  BlockLengthOffset : Z -> Z;
  (* context.h *)
  kNumDistancePrefixes : Z;
  (* context.h *)
  Context_ : Z -> Z -> Z -> Z;
  CONTEXT_SIGNED : Z
}.

(** ** Huffman-code serialization *)

Definition kStorageOrder : list Z :=
  [1; 2; 3; 4; 0; 17; 18; 5; 6; 16; 7; 8; 9; 10; 11; 12; 13; 14; 15].

(** "Throw away trailing zeros": the loop that lowers [codes_to_store]. *)
Fixpoint codes_to_store_loop (fuel : nat) (code_length_bitdepth : list Z)
    (codes_to_store : Z) : Z :=
  match fuel with
  | O => codes_to_store
  | S fuel' =>
      if 4 <? codes_to_store then
        if negb (vget code_length_bitdepth
                   (vget kStorageOrder (codes_to_store - 1)) =? 0)
        then codes_to_store
        else codes_to_store_loop fuel' code_length_bitdepth (codes_to_store - 1)
      else codes_to_store
  end.

Definition StoreHuffmanTreeOfHuffmanTreeToBitMask
    (code_length_bitdepth : list Z) (s : BitSink) : BitSink :=
  let codes_to_store :=
    codes_to_store_loop (Z.to_nat kCodeLengthCodes) code_length_bitdepth
      kCodeLengthCodes in
  let s := WriteBits 4 (codes_to_store - 4) s in
  let skip_two_first :=
    Z.b2z ((vget code_length_bitdepth (vget kStorageOrder 0) =? 0) &&
           (vget code_length_bitdepth (vget kStorageOrder 1) =? 0)) in
  let s := WriteBits 1 skip_two_first s in
  for_range (skip_two_first * 2) codes_to_store
    (fun i s =>
       let len := [2; 4; 3; 2; 2; 4] in
       let bits := [0; 7; 3; 1; 2; 15] in
       let v := vget code_length_bitdepth (vget kStorageOrder i) in
       WriteBits (vget len v) (vget bits v) s)
    s.

Definition StoreHuffmanTreeToBitMask (huffman_tree huffman_tree_extra_bits : list Z)
    (huffman_tree_size : Z) (entropy : EntropyCode) (s : BitSink) : BitSink :=
  for_range 0 huffman_tree_size
    (fun i s =>
       let ix := vget huffman_tree i in
       let extra_bits := vget huffman_tree_extra_bits i in
       let s := EntropyEncode ix entropy s in
       if ix =? 16 then WriteBits 2 extra_bits s
       else if ix =? 17 then WriteBits 3 extra_bits s
       else if ix =? 18 then WriteBits 7 extra_bits s
       else s)
    s.

(** [while (max_bits_counter) { max_bits_counter >>= 1; ++max_bits; }] *)
Fixpoint max_bits_loop (fuel : nat) (max_bits_counter max_bits : Z) : Z :=
  match fuel with
  | O => max_bits
  | S fuel' =>
      if max_bits_counter =? 0 then max_bits
      else max_bits_loop fuel' (max_bits_counter ≫ 1) (max_bits + 1)
  end.

Definition max_bits_of (alphabet_size : Z) : Z :=
  max_bits_loop (Z.to_nat alphabet_size) (alphabet_size - 1) 0.

(** The "quadratic sort" of the at most four symbols of a simple code. *)
Definition sort_symbols (depth : list Z) (count : Z) (symbols : list Z) : list Z :=
  for_range 0 count
    (fun k symbols =>
       for_range (k + 1) count
         (fun j symbols =>
            if vget depth (vget symbols j) <? vget depth (vget symbols k) then
              let t := vget symbols k in
              let symbols := vset symbols k (vget symbols j) in
              vset symbols j t
            else symbols)
         symbols)
    symbols.

(** The loop that walks [last_code] down from the last code-length token
    and removes every token that is 0 or at least 17 from the trimmed
    histogram.  The model stops at the start of the token array. *)
Fixpoint trim_tail (fuel : nat) (huffman_tree : list Z) (last_code : Z)
    (trimmed_histogram : Histogram) : Histogram :=
  match fuel with
  | O => trimmed_histogram
  | S fuel' =>
      let c := vget huffman_tree last_code in
      if (c =? 0) || (17 <=? c) then
        trim_tail fuel' huffman_tree (last_code - 1)
          (Histogram_Remove c trimmed_histogram)
      else trimmed_histogram
  end.

(** [nbitpairs] as both places of [StoreHuffmanCode] compute it. *)
Definition nbitpairs_of (size : Z) : Z :=
  let nbits := Log2Ceiling (size - 1) in
  if nbits =? 0 then 1 else (nbits + 1) `quot` 2.

Section Encoder.
Context `{Collaborators}.

(** The histogram of the code-length tokens of [StoreHuffmanCode]. *)
Definition tokens_histogram (huffman_tree : list Z) (huffman_tree_size : Z)
    : Histogram :=
  for_range 0 huffman_tree_size
    (fun i h => Histogram_Add (vget huffman_tree i) h)
    (Histogram_new kCodeLengthCodes).

(** [trimmed_histogram]: the histogram of the tokens without the trailing
    tokens that are 0, 17 or 18. *)
Definition trimmed_tokens_histogram (huffman_tree : list Z)
    (huffman_tree_size : Z) : Histogram :=
  trim_tail (Z.to_nat huffman_tree_size) huffman_tree (huffman_tree_size - 1)
    (tokens_histogram huffman_tree huffman_tree_size).

(** The part of [StoreHuffmanCode] between the two flag bits: it decides
    whether the trailing tokens are dropped, and returns [write_length]
    with the values of [huffman_tree_size] and [huffman_tree_entropy]
    that the rest of the function uses. *)
Definition choose_trim (huffman_tree : list Z) (huffman_tree_size : Z)
    : bool * Z * EntropyCode :=
  let huffman_tree_histogram := tokens_histogram huffman_tree huffman_tree_size in
  let huffman_tree_entropy :=
    BuildEntropyCode huffman_tree_histogram 5 kCodeLengthCodes in
  let trimmed_histogram :=
    trimmed_tokens_histogram huffman_tree huffman_tree_size in
  let trimmed_size := total_count_ trimmed_histogram in
  if (1 <? trimmed_size) && (trimmed_size <? huffman_tree_size) then
    let trimmed_entropy := BuildEntropyCode trimmed_histogram 5 kCodeLengthCodes in
    let huffman_bit_cost :=
      HuffmanTreeBitCost huffman_tree_histogram huffman_tree_entropy in
    let trimmed_bit_cost := HuffmanTreeBitCost trimmed_histogram trimmed_entropy in
    let nbitpairs := nbitpairs_of trimmed_size in
    if trimmed_bit_cost + 3 + 2 * nbitpairs <? huffman_bit_cost then
      (true, trimmed_size, trimmed_entropy)
    else (false, huffman_tree_size, huffman_tree_entropy)
  else (false, huffman_tree_size, huffman_tree_entropy).

Definition StoreHuffmanCode (code : EntropyCode) (alphabet_size : Z)
    (s : BitSink) : BitSink :=
  let depth := depth_ code in
  let max_bits := max_bits_of alphabet_size in
  if count_ code =? 0 then WriteBits (3 + max_bits) 1 s
  else if count_ code <=? 4 then
    (* [int symbols[4]], modelled as zeroed before it is filled *)
    let symbols :=
      for_range 0 (count_ code)
        (fun k symbols => vset symbols k (vget (symbols_ code) k))
        [0; 0; 0; 0] in
    let symbols := sort_symbols depth (count_ code) symbols in
    let s := WriteBits 1 1 s in
    let s := WriteBits 2 (count_ code - 1) s in
    let s :=
      for_range 0 (count_ code)
        (fun i s => WriteBits max_bits (vget symbols i) s) s in
    if count_ code =? 4 then
      if (vget depth (vget symbols 0) =? 2) &&
         (vget depth (vget symbols 1) =? 2) &&
         (vget depth (vget symbols 2) =? 2) &&
         (vget depth (vget symbols 3) =? 2)
      then WriteBits 1 0 s
      else WriteBits 1 1 s
    else s
  else
    let s := WriteBits 1 0 s in
    let '(huffman_tree, huffman_tree_extra_bits, huffman_tree_size) :=
      WriteHuffmanTree depth alphabet_size in
    let '(write_length, huffman_tree_size, huffman_tree_entropy) :=
      choose_trim huffman_tree huffman_tree_size in
    let s :=
      StoreHuffmanTreeOfHuffmanTreeToBitMask (depth_ huffman_tree_entropy) s in
    let s := WriteBits 1 (Z.b2z write_length) s in
    let s :=
      if write_length then
        let nbitpairs := nbitpairs_of huffman_tree_size in
        let s := WriteBits 3 (nbitpairs - 1) s in
        WriteBits (nbitpairs * 2) (huffman_tree_size - 2) s
      else s in
    StoreHuffmanTreeToBitMask huffman_tree huffman_tree_extra_bits
      huffman_tree_size huffman_tree_entropy s.

Definition StoreHuffmanCodes (codes : list EntropyCode) (alphabet_size : Z)
    (s : BitSink) : BitSink :=
  for_range 0 (Z.of_nat (length codes))
    (fun i s => StoreHuffmanCode (vget codes i) alphabet_size s) s.

(** ** Command assembly *)

Definition EncodeCommand (cmd : Command) (entropy : EntropyCode) (s : BitSink)
    : BitSink :=
  let code := command_prefix_ cmd in
  let s := EntropyEncode code entropy s in
  let code := if 128 <=? code then code - 128 else code in
  let insert_extra_bits := InsertLengthExtraBits code in
  let insert_extra_bits_val := insert_length_ cmd - InsertLengthOffset code in
  let copy_extra_bits := CopyLengthExtraBits code in
  let copy_extra_bits_val := copy_length_code_ cmd - CopyLengthOffset code in
  let s :=
    if 0 <? insert_extra_bits
    then WriteBits insert_extra_bits insert_extra_bits_val s else s in
  if 0 <? copy_extra_bits
  then WriteBits copy_extra_bits copy_extra_bits_val s else s.

Definition EncodeCopyDistance (cmd : Command) (entropy : EntropyCode) (s : BitSink)
    : BitSink :=
  let code := distance_prefix_ cmd in
  let extra_bits := distance_extra_bits_ cmd in
  let extra_bits_val := distance_extra_bits_value_ cmd in
  let s := EntropyEncode code entropy s in
  if 0 <? extra_bits then WriteBits extra_bits extra_bits_val s else s.

Definition kIndexOffset : list Z :=
  [3; 2; 1; 0; 3; 3; 3; 3; 3; 3; 2; 2; 2; 2; 2; 2].
Definition kValueOffset : list Z :=
  [0; 0; 0; 0; -1; 1; -2; 2; -3; 3; -1; 1; -2; 2; -3; 3].

(** The [for (int k = 0; k < 16; ++k)] loop of [ComputeDistanceShortCodes],
    with its [continue] and its [break]; it returns [dist_code]. *)
Fixpoint short_code_loop (fuel : nat) (k cur_dist : Z) (dist_ringbuffer : list Z)
    (ringbuffer_idx dist_code : Z) : Z :=
  match fuel with
  | O => dist_code
  | S fuel' =>
      if k <? 16 then
        if (cur_dist <? 11) && (((2 <=? k) && (k <? 4)) || (6 <=? k)) then
          short_code_loop fuel' (k + 1) cur_dist dist_ringbuffer ringbuffer_idx
            dist_code
        else
          let comp :=
            vget dist_ringbuffer
              (Z.land (size_t (ringbuffer_idx + vget kIndexOffset k)) 3)
            + vget kValueOffset k in
          if cur_dist =? comp then k + 1
          else short_code_loop fuel' (k + 1) cur_dist dist_ringbuffer
                 ringbuffer_idx dist_code
      else dist_code
  end.

Definition set_distance_code (cmd : Command) (dist_code : Z) : Command :=
  mkCommand (insert_length_ cmd) (copy_length_ cmd) (copy_length_code_ cmd)
    (copy_distance_ cmd) dist_code (distance_prefix_ cmd) (command_prefix_ cmd)
    (distance_extra_bits_ cmd) (distance_extra_bits_value_ cmd).

(** The loop over the commands visits them in order and rewrites each in
    place; the recursion follows the vector.  The result is the command
    vector, the distance ring and its index as the function leaves them. *)
Fixpoint ComputeDistanceShortCodes (cmds : list Command) (dist_ringbuffer : list Z)
    (ringbuffer_idx : Z) : list Command * list Z * Z :=
  match cmds with
  | [] => ([], dist_ringbuffer, ringbuffer_idx)
  | cmd :: rest =>
      let cur_dist := copy_distance_ cmd in
      if cur_dist =? 0 then (cmds, dist_ringbuffer, ringbuffer_idx)
      else
        let dist_code :=
          short_code_loop 16 0 cur_dist dist_ringbuffer ringbuffer_idx
            (cur_dist + 16) in
        let '(dist_ringbuffer, ringbuffer_idx) :=
          if 1 <? dist_code then
            (vset dist_ringbuffer (Z.land ringbuffer_idx 3) cur_dist,
             size_t (ringbuffer_idx + 1))
          else (dist_ringbuffer, ringbuffer_idx) in
        let '(rest, dist_ringbuffer, ringbuffer_idx) :=
          ComputeDistanceShortCodes rest dist_ringbuffer ringbuffer_idx in
        (set_distance_code cmd dist_code :: rest, dist_ringbuffer, ringbuffer_idx)
  end.

Definition ComputeCommandPrefixes (cmds : list Command)
    (num_direct_distance_codes distance_postfix_bits : Z) : list Command :=
  map
    (fun cmd =>
       let command_prefix :=
         CommandPrefix (insert_length_ cmd) (copy_length_code_ cmd) in
       let '(distance_prefix, distance_extra_bits, distance_extra_bits_value) :=
         if 0 <? copy_length_code_ cmd then
           PrefixEncodeCopyDistance (distance_code_ cmd)
             num_direct_distance_codes distance_postfix_bits
         else (distance_prefix_ cmd, distance_extra_bits_ cmd,
               distance_extra_bits_value_ cmd) in
       let '(command_prefix, distance_prefix) :=
         if (command_prefix <? 128) && (distance_prefix =? 0)
         then (command_prefix, 65535)
         else (command_prefix + 128, distance_prefix) in
       mkCommand (insert_length_ cmd) (copy_length_ cmd) (copy_length_code_ cmd)
         (copy_distance_ cmd) (distance_code_ cmd) distance_prefix command_prefix
         distance_extra_bits distance_extra_bits_value)
    cmds.

(** ** Context-map serialization: move-to-front and zero run lengths *)

Fixpoint IndexOf_from (v : list Z) (i value : Z) : Z :=
  match v with
  | [] => -1
  | x :: v' => if x =? value then i else IndexOf_from v' (i + 1) value
  end.

Definition IndexOf (v : list Z) (value : Z) : Z := IndexOf_from v 0 value.

(** [for (int i = index; i > 0; --i) v[i] = v[i - 1];] *)
Fixpoint MoveToFront_shift (fuel : nat) (v : list Z) (i : Z) : list Z :=
  match fuel with
  | O => v
  | S fuel' =>
      if 0 <? i then MoveToFront_shift fuel' (vset v i (vget v (i - 1))) (i - 1)
      else v
  end.

Definition MoveToFront (v : list Z) (index : Z) : list Z :=
  let value := vget v index in
  let v := MoveToFront_shift (Z.to_nat index) v index in
  vset v 0 value.

(** [*max_element(v.begin(), v.end())] of a non-empty vector. *)
Definition max_element (v : list Z) : Z :=
  match v with
  | [] => 0
  | x :: v' => fold_left Z.max v' x
  end.

Definition MoveToFrontTransform (v : list Z) : list Z :=
  match v with
  | [] => v
  | _ :: _ =>
      let size := max_element v + 1 in
      let mtf :=
        for_range 0 size (fun i mtf => vset mtf i i)
          (replicate (Z.to_nat size) 0) in
      let result := replicate (length v) 0 in
      snd (for_range 0 (Z.of_nat (length v))
             (fun i '(mtf, result) =>
                let index := IndexOf mtf (vget v i) in
                (MoveToFront mtf index, vset result i index))
             (mtf, result))
  end.

(** [for (; i < v_in.size() && v_in[i] != 0; ++i) ;] *)
Fixpoint skip_nonzero (fuel : nat) (v_in : list Z) (i : Z) : Z :=
  match fuel with
  | O => i
  | S fuel' =>
      if (i <? Z.of_nat (length v_in)) && negb (vget v_in i =? 0)
      then skip_nonzero fuel' v_in (i + 1)
      else i
  end.

(** [for (; k < v_in.size() && v_in[k] == 0; ++k) ++reps;] *)
Fixpoint count_zero (fuel : nat) (v_in : list Z) (k reps : Z) : Z * Z :=
  match fuel with
  | O => (k, reps)
  | S fuel' =>
      if (k <? Z.of_nat (length v_in)) && (vget v_in k =? 0)
      then count_zero fuel' v_in (k + 1) (reps + 1)
      else (k, reps)
  end.

(** The first loop of [RunLengthCodeZeros]: the longest run of zeros. *)
Fixpoint max_reps_loop (fuel : nat) (v_in : list Z) (i max_reps : Z) : Z :=
  match fuel with
  | O => max_reps
  | S fuel' =>
      if i <? Z.of_nat (length v_in) then
        let i := skip_nonzero (length v_in) v_in i in
        let '(i, reps) := count_zero (length v_in) v_in i 0 in
        max_reps_loop fuel' v_in i (Z.max reps max_reps)
      else max_reps
  end.

(** [while (reps) { ... }]: the tokens of one run of [reps] zeros. *)
Fixpoint code_run (fuel : nat) (reps max_run_length_prefix : Z)
    (v_out extra_bits : list Z) : list Z * list Z :=
  match fuel with
  | O => (v_out, extra_bits)
  | S fuel' =>
      if reps =? 0 then (v_out, extra_bits)
      else if reps <? (2 ≪ max_run_length_prefix) then
        let run_length_prefix := Log2Floor reps in
        (v_out ++ [run_length_prefix],
         extra_bits ++ [reps - (1 ≪ run_length_prefix)])
      else
        code_run fuel' (reps - ((2 ≪ max_run_length_prefix) - 1))
          max_run_length_prefix
          (v_out ++ [max_run_length_prefix])
          (extra_bits ++ [(1 ≪ max_run_length_prefix) - 1])
  end.

(** The second loop of [RunLengthCodeZeros]. *)
Fixpoint code_zeros_loop (fuel : nat) (v_in : list Z) (i max_run_length_prefix : Z)
    (v_out extra_bits : list Z) : list Z * list Z :=
  match fuel with
  | O => (v_out, extra_bits)
  | S fuel' =>
      if i <? Z.of_nat (length v_in) then
        if negb (vget v_in i =? 0) then
          code_zeros_loop fuel' v_in (i + 1) max_run_length_prefix
            (v_out ++ [vget v_in i + max_run_length_prefix])
            (extra_bits ++ [0])
        else
          let reps := snd (count_zero (length v_in) v_in (i + 1) 1) in
          let i := i + reps in
          let '(v_out, extra_bits) :=
            code_run (Z.to_nat reps) reps max_run_length_prefix v_out extra_bits in
          code_zeros_loop fuel' v_in i max_run_length_prefix v_out extra_bits
      else (v_out, extra_bits)
  end.

(** Returns the updated [*max_run_length_prefix], [*v_out] and
    [*extra_bits]. *)
Definition RunLengthCodeZeros (v_in : list Z) (max_run_length_prefix : Z)
    (v_out extra_bits : list Z) : Z * list Z * list Z :=
  let max_reps := max_reps_loop (length v_in) v_in 0 0 in
  let max_prefix := if 0 <? max_reps then Log2Floor max_reps else 0 in
  let max_run_length_prefix := Z.min max_prefix max_run_length_prefix in
  let '(v_out, extra_bits) :=
    code_zeros_loop (length v_in) v_in 0 max_run_length_prefix v_out extra_bits in
  (max_run_length_prefix, v_out, extra_bits).

Definition histogram_of (kSize : Z) (symbols : list Z) : Histogram :=
  for_range 0 (Z.of_nat (length symbols))
    (fun i h => Histogram_Add (vget symbols i) h) (Histogram_new kSize).

(** The candidates [max_prefix = 0 .. 16] of [BestMaxZeroRunLengthPrefix]. *)
Fixpoint best_prefix_loop (fuel : nat) (v : list Z)
    (max_prefix min_cost best_max_prefix : Z) : Z :=
  match fuel with
  | O => best_max_prefix
  | S fuel' =>
      if max_prefix <=? 16 then
        let '(max_run_length_prefix, rle_symbols, extra_bits) :=
          RunLengthCodeZeros v max_prefix [] [] in
        if max_run_length_prefix <? max_prefix then best_max_prefix
        else
          let histogram := histogram_of 256 rle_symbols in
          let bit_cost := PopulationCost histogram in
          let bit_cost := if 0 <? max_prefix then bit_cost + 4 else bit_cost in
          let bit_cost :=
            for_range 1 (max_prefix + 1)
              (fun i bit_cost => bit_cost + vget (data_ histogram) i * i)
              bit_cost in
          if bit_cost <? min_cost
          then best_prefix_loop fuel' v (max_prefix + 1) bit_cost max_prefix
          else best_prefix_loop fuel' v (max_prefix + 1) min_cost best_max_prefix
      else best_max_prefix
  end.

Definition BestMaxZeroRunLengthPrefix (v : list Z) : Z :=
  best_prefix_loop 17 v 0 (2 ^ 31 - 1) 0.

Definition EncodeContextMap (context_map : list Z) (num_clusters : Z)
    (s : BitSink) : BitSink :=
  let s := WriteBits 8 (num_clusters - 1) s in
  if num_clusters =? 1 then s
  else
    let transformed_symbols := MoveToFrontTransform context_map in
    let max_run_length_prefix := BestMaxZeroRunLengthPrefix transformed_symbols in
    let '(max_run_length_prefix, rle_symbols, extra_bits) :=
      RunLengthCodeZeros transformed_symbols max_run_length_prefix [] [] in
    let symbol_histogram := histogram_of 256 rle_symbols in
    let symbol_code :=
      BuildEntropyCode symbol_histogram 15 (num_clusters + max_run_length_prefix) in
    let use_rle := 0 <? max_run_length_prefix in
    let s := WriteBits 1 (Z.b2z use_rle) s in
    let s := if use_rle then WriteBits 4 (max_run_length_prefix - 1) s else s in
    let s :=
      StoreHuffmanCode symbol_code (num_clusters + max_run_length_prefix) s in
    let s :=
      for_range 0 (Z.of_nat (length rle_symbols))
        (fun i s =>
           let s := EntropyEncode (vget rle_symbols i) symbol_code s in
           if (0 <? vget rle_symbols i) &&
              (vget rle_symbols i <=? max_run_length_prefix)
           then WriteBits (vget rle_symbols i) (vget extra_bits i) s
           else s)
        s in
    WriteBits 1 1 s.


(** ** Block-split serialization *)

Definition BuildEntropyCodes (histograms : list Histogram) (alphabet_size : Z)
    (entropy_codes : list EntropyCode) : list EntropyCode :=
  let entropy_codes :=
    resize entropy_codes (Z.of_nat (length histograms)) inhabitant in
  for_range 0 (Z.of_nat (length histograms))
    (fun i entropy_codes =>
       vset entropy_codes i (BuildEntropyCode (vget histograms i) 15 alphabet_size))
    entropy_codes.

Record BlockSplitCode := mkBlockSplitCode {
  block_type_code : EntropyCode;
  block_len_code : EntropyCode
}.

Definition EncodeBlockLength (entropy : EntropyCode) (length' : Z) (s : BitSink)
    : BitSink :=
  let len_code := BlockLengthPrefix length' in
  let extra_bits := BlockLengthExtraBits len_code in
  let extra_bits_value := length' - BlockLengthOffset len_code in
  let s := EntropyEncode len_code entropy s in
  if 0 <? extra_bits then WriteBits extra_bits extra_bits_value s else s.

Definition ComputeBlockTypeShortCodes (split : BlockSplit) : BlockSplit :=
  if num_types_ split <=? 1 then
    mkBlockSplit 1 (types_ split) (type_codes_ split) (lengths_ split)
  else
    let '(_, _, type_codes) :=
      for_range 0 (Z.of_nat (length (types_ split)))
        (fun i '(ringbuffer, index, type_codes) =>
           let type := vget (types_ split) i in
           let type_code :=
             if type =? vget ringbuffer (Z.land index 1) then 0
             else if type =? vget ringbuffer (Z.land (size_t (index - 1)) 1) + 1
             then 1
             else type + 2 in
           (vset ringbuffer (Z.land index 1) type, size_t (index + 1),
            type_codes ++ [type_code]))
        ([0; 1], 0, type_codes_ split) in
    mkBlockSplit (num_types_ split) (types_ split) type_codes (lengths_ split).

Definition BuildAndEncodeBlockSplitCode (split : BlockSplit) (code : BlockSplitCode)
    (s : BitSink) : BlockSplitCode * BitSink :=
  if num_types_ split <=? 1 then (code, WriteBits 1 0 s)
  else
    let s := WriteBits 1 1 s in
    let type_histo := histogram_of 256 (type_codes_ split) in
    let block_type_code := BuildEntropyCode type_histo 15 (num_types_ split + 2) in
    let length_histo :=
      for_range 0 (Z.of_nat (length (lengths_ split)))
        (fun i h => Histogram_Add (BlockLengthPrefix (vget (lengths_ split) i)) h)
        (Histogram_new kNumBlockLenPrefixes) in
    let block_len_code := BuildEntropyCode length_histo 15 kNumBlockLenPrefixes in
    let s := WriteBits 8 (num_types_ split - 1) s in
    let s := StoreHuffmanCode block_type_code (num_types_ split + 2) s in
    let s := StoreHuffmanCode block_len_code kNumBlockLenPrefixes s in
    let s := EncodeBlockLength block_len_code (vget (lengths_ split) 0) s in
    (mkBlockSplitCode block_type_code block_len_code, s).

Definition MoveAndEncode (code : BlockSplitCode) (it : BlockSplitIterator)
    (s : BitSink) : BlockSplitIterator * BitSink :=
  let '(it, s) :=
    if length_ it =? 0 then
      let idx := idx_ it + 1 in
      let type := vget (types_ (split_ it)) idx in
      let length' := vget (lengths_ (split_ it)) idx in
      let type_code := vget (type_codes_ (split_ it)) idx mod 256 in
      let s := EntropyEncode type_code (block_type_code code) s in
      let s := EncodeBlockLength (block_len_code code) length' s in
      (mkBlockSplitIterator (split_ it) idx type length', s)
    else (it, s) in
  (mkBlockSplitIterator (split_ it) (idx_ it) (type_ it) (length_ it - 1), s).

(** ** Meta-blocks *)

Record EncodingParams := mkEncodingParams {
  num_direct_distance_codes : Z;
  distance_postfix_bits : Z;
  literal_context_mode : Z
}.

Record MetaBlock := mkMetaBlock {
  cmds : list Command;
  params : EncodingParams;
  literal_split : BlockSplit;
  command_split : BlockSplit;
  distance_split : BlockSplit;
  literal_context_modes : list Z;
  literal_context_map : list Z;
  distance_context_map : list Z;
  literal_histograms : list Histogram;
  command_histograms : list Histogram;
  distance_histograms : list Histogram
}.

Definition MetaBlock_new : MetaBlock :=
  mkMetaBlock [] (mkEncodingParams 0 0 0)
    (mkBlockSplit 0 [] [] []) (mkBlockSplit 0 [] [] []) (mkBlockSplit 0 [] [] [])
    [] [] [] [] [] [].

Definition BuildMetaBlock (params' : EncodingParams) (cmds' : list Command)
    (ringbuffer : mem) (pos mask : Z) (mb : MetaBlock) : MetaBlock :=
  let mb_cmds :=
    ComputeCommandPrefixes cmds' (num_direct_distance_codes params')
      (distance_postfix_bits params') in
  let '(mb_literal_split, mb_command_split, mb_distance_split) :=
    SplitBlock mb_cmds (mem_offset ringbuffer (Z.land pos mask))
      (literal_split mb) (command_split mb) (distance_split mb) in
  let mb_literal_split := ComputeBlockTypeShortCodes mb_literal_split in
  let mb_command_split := ComputeBlockTypeShortCodes mb_command_split in
  let mb_distance_split := ComputeBlockTypeShortCodes mb_distance_split in
  let mb_literal_context_modes :=
    resize (literal_context_modes mb) (num_types_ mb_literal_split)
      (literal_context_mode params') in
  let num_literal_contexts :=
    num_types_ mb_literal_split ≪ kLiteralContextBits in
  let num_distance_contexts :=
    num_types_ mb_distance_split ≪ kDistanceContextBits in
  let literal_histograms' :=
    replicate (Z.to_nat num_literal_contexts) (Histogram_new 256) in
  let mb_command_histograms :=
    resize (command_histograms mb) (num_types_ mb_command_split)
      (Histogram_new kNumCommandPrefixes) in
  let distance_histograms' :=
    replicate (Z.to_nat num_distance_contexts)
      (Histogram_new kNumDistancePrefixes) in
  let '(literal_histograms', mb_command_histograms, distance_histograms') :=
    BuildHistograms mb_cmds mb_literal_split mb_command_split mb_distance_split
      ringbuffer pos mask mb_literal_context_modes
      literal_histograms' mb_command_histograms distance_histograms' in
  let kMaxNumberOfHistograms := 240 in
  let '(mb_literal_histograms, mb_literal_context_map) :=
    ClusterHistograms literal_histograms' (1 ≪ kLiteralContextBits)
      (num_types_ mb_literal_split) kMaxNumberOfHistograms
      literal_histograms' (literal_context_map mb) in
  let '(mb_distance_histograms, mb_distance_context_map) :=
    ClusterHistograms distance_histograms' (1 ≪ kDistanceContextBits)
      (num_types_ mb_distance_split) kMaxNumberOfHistograms
      distance_histograms' (distance_context_map mb) in
  mkMetaBlock mb_cmds params' mb_literal_split mb_command_split
    mb_distance_split mb_literal_context_modes mb_literal_context_map
    mb_distance_context_map mb_literal_histograms mb_command_histograms
    mb_distance_histograms.

Definition MetaBlockLength (cmds' : list Command) : Z :=
  for_range 0 (Z.of_nat (length cmds'))
    (fun i length' =>
       let cmd := vget cmds' i in
       size_t (length' + (insert_length_ cmd + copy_length_ cmd)))
    0.

(** The state that the body loop of [StoreMetaBlock] threads through the
    commands: the position, the three block-split cursors and the sink. *)
Record BodyState := mkBodyState {
  body_pos : Z;
  body_literal_it : BlockSplitIterator;
  body_command_it : BlockSplitIterator;
  body_distance_it : BlockSplitIterator;
  body_sink : BitSink
}.

(** One pass of [for (int j = 0; j < cmd.insert_length_; ++j)]. *)
Definition StoreMetaBlock_literal (mb : MetaBlock) (ringbuffer : mem) (mask : Z)
    (literal_split_code : BlockSplitCode) (literal_codes : list EntropyCode)
    (st : BodyState) : BodyState :=
  let '(literal_it, s) :=
    MoveAndEncode literal_split_code (body_literal_it st) (body_sink st) in
  let pos := body_pos st in
  let prev_byte :=
    if 0 <? pos then ringbuffer (Z.land (size_t (pos - 1)) mask) else 0 in
  let prev_byte2 :=
    if 1 <? pos then ringbuffer (Z.land (size_t (pos - 2)) mask) else 0 in
  let context :=
    (type_ literal_it ≪ kLiteralContextBits) +
    Context_ prev_byte prev_byte2
      (vget (literal_context_modes mb) (type_ literal_it)) in
  let histogram_idx := vget (literal_context_map mb) context in
  let s :=
    EntropyEncode (ringbuffer (Z.land pos mask))
      (vget literal_codes histogram_idx) s in
  mkBodyState (size_t (pos + 1)) literal_it (body_command_it st)
    (body_distance_it st) s.

(** One pass of [for (int i = 0; i < mb.cmds.size(); ++i)]. *)
Definition StoreMetaBlock_command (mb : MetaBlock) (ringbuffer : mem)
    (mask end_pos : Z)
    (literal_split_code command_split_code distance_split_code : BlockSplitCode)
    (literal_codes command_codes distance_codes : list EntropyCode)
    (i : Z) (st : BodyState) : BodyState :=
  let cmd := vget (cmds mb) i in
  let '(command_it, s) :=
    MoveAndEncode command_split_code (body_command_it st) (body_sink st) in
  let s := EncodeCommand cmd (vget command_codes (type_ command_it)) s in
  let st :=
    mkBodyState (body_pos st) (body_literal_it st) command_it
      (body_distance_it st) s in
  let st :=
    for_range 0 (insert_length_ cmd)
      (fun _ st =>
         StoreMetaBlock_literal mb ringbuffer mask literal_split_code
           literal_codes st)
      st in
  let st :=
    if (body_pos st <? end_pos) && negb (distance_prefix_ cmd =? 65535) then
      let '(distance_it, s) :=
        MoveAndEncode distance_split_code (body_distance_it st) (body_sink st) in
      let context :=
        (type_ distance_it ≪ 2) +
        (if 4 <? copy_length_code_ cmd then 3 else copy_length_code_ cmd - 2) in
      let histogram_index := vget (distance_context_map mb) context in
      let s := EncodeCopyDistance cmd (vget distance_codes histogram_index) s in
      mkBodyState (body_pos st) (body_literal_it st) (body_command_it st)
        distance_it s
    else st in
  mkBodyState (size_t (body_pos st + copy_length_ cmd)) (body_literal_it st)
    (body_command_it st) (body_distance_it st) (body_sink st).

(** Returns the updated [*pos] and the sink. *)
Definition StoreMetaBlock (mb : MetaBlock) (ringbuffer : mem) (mask pos : Z)
    (s : BitSink) : Z * BitSink :=
  let length' := MetaBlockLength (cmds mb) in
  let end_pos := size_t (pos + length') in
  let s := EncodeMetaBlockLength (size_t (length' - 1)) s in
  let uninitialized := mkBlockSplitCode inhabitant inhabitant in
  let '(literal_split_code, s) :=
    BuildAndEncodeBlockSplitCode (literal_split mb) uninitialized s in
  let '(command_split_code, s) :=
    BuildAndEncodeBlockSplitCode (command_split mb) uninitialized s in
  let '(distance_split_code, s) :=
    BuildAndEncodeBlockSplitCode (distance_split mb) uninitialized s in
  let s := WriteBits 2 (distance_postfix_bits (params mb)) s in
  let s :=
    WriteBits 4
      (num_direct_distance_codes (params mb) ≫ distance_postfix_bits (params mb))
      s in
  let num_distance_codes :=
    kNumDistanceShortCodes + num_direct_distance_codes (params mb) +
    (48 ≪ distance_postfix_bits (params mb)) in
  let s :=
    for_range 0 (num_types_ (literal_split mb))
      (fun i s => WriteBits 2 (vget (literal_context_modes mb) i) s) s in
  let s :=
    EncodeContextMap (literal_context_map mb)
      (Z.of_nat (length (literal_histograms mb))) s in
  let s :=
    EncodeContextMap (distance_context_map mb)
      (Z.of_nat (length (distance_histograms mb))) s in
  let literal_codes := BuildEntropyCodes (literal_histograms mb) 256 [] in
  let command_codes :=
    BuildEntropyCodes (command_histograms mb) kNumCommandPrefixes [] in
  let distance_codes :=
    BuildEntropyCodes (distance_histograms mb) num_distance_codes [] in
  let s := StoreHuffmanCodes literal_codes 256 s in
  let s := StoreHuffmanCodes command_codes kNumCommandPrefixes s in
  let s := StoreHuffmanCodes distance_codes num_distance_codes s in
  let st :=
    mkBodyState pos
      (BlockSplitIterator_new (literal_split mb))
      (BlockSplitIterator_new (command_split mb))
      (BlockSplitIterator_new (distance_split mb)) s in
  let st :=
    for_range 0 (Z.of_nat (length (cmds mb)))
      (StoreMetaBlock_command mb ringbuffer mask end_pos
         literal_split_code command_split_code distance_split_code
         literal_codes command_codes distance_codes)
      st in
  (body_pos st, body_sink st).

(** ** The compressor and the stream driver *)

Record BrotliCompressor := mkBrotliCompressor {
  window_bits_ : Z;
  hasher_ : Hasher;
  dist_ringbuffer_ : list Z;
  dist_ringbuffer_idx_ : Z;
  input_pos_ : Z;
  ringbuffer_ : RingBuffer;
  literal_cost_ : LiteralCosts;
  storage_ix_ : Z;
  storage_ : mem
}.

(** The constructor.  The fresh output buffer is modelled as zeroed. *)
Definition BrotliCompressor_new : BrotliCompressor :=
  mkBrotliCompressor kWindowBits Hasher_new [4; 11; 15; 16] 0 0
    (RingBuffer_new kRingBufferBits kMetaBlockSizeBits)
    (LiteralCosts_new (1 ≪ kRingBufferBits))
    0 (mem_set (fun _ => 0) 0 0).

Definition with_storage (c : BrotliCompressor) (s : BitSink) : BrotliCompressor :=
  mkBrotliCompressor (window_bits_ c) (hasher_ c) (dist_ringbuffer_ c)
    (dist_ringbuffer_idx_ c) (input_pos_ c) (ringbuffer_ c) (literal_cost_ c)
    (storage_ix s) (storage s).

Definition sink_of (c : BrotliCompressor) : BitSink :=
  mkBitSink (storage_ix_ c) (storage_ c).

Definition WriteStreamHeader (c : BrotliCompressor) : BrotliCompressor :=
  let s := WriteBits 3 0 (sink_of c) in
  let s :=
    if window_bits_ c =? 16 then WriteBits 1 0 s
    else WriteBits 3 (window_bits_ c - 17) (WriteBits 1 1 s) in
  with_storage c s.

(** Returns the compressor, [*encoded_size] and the output buffer, which is
    addressed from [encoded_offset] on. *)
Definition WriteMetaBlock (input_size : Z) (input_buffer : mem)
    (encoded_buffer : mem) (encoded_offset : Z) (c : BrotliCompressor)
    : BrotliCompressor * Z * mem :=
  let ringbuffer := RingBuffer_Write input_buffer input_size (ringbuffer_ c) in
  let literal_cost :=
    EstimateBitCostsForLiterals (input_pos_ c) input_size kRingBufferMask
      (RingBuffer_start ringbuffer) (literal_cost_ c) in
  let '(hasher, commands) :=
    CreateBackwardReferences input_size (input_pos_ c)
      (RingBuffer_start ringbuffer) literal_cost kRingBufferMask
      kMaxBackwardDistance (hasher_ c) [] in
  let '(commands, dist_ringbuffer, dist_ringbuffer_idx) :=
    ComputeDistanceShortCodes commands (dist_ringbuffer_ c)
      (dist_ringbuffer_idx_ c) in
  let params := mkEncodingParams 12 1 CONTEXT_SIGNED in
  let mb :=
    BuildMetaBlock params commands (RingBuffer_start ringbuffer) (input_pos_ c)
      kRingBufferMask MetaBlock_new in
  let '(input_pos, s) :=
    StoreMetaBlock mb (RingBuffer_start ringbuffer) kRingBufferMask
      (input_pos_ c) (sink_of c) in
  let output_size := storage_ix s ≫ 3 in
  let encoded_buffer :=
    memcpy_at encoded_buffer encoded_offset (storage s) output_size in
  let storage_ix' := storage_ix s - (output_size ≪ 3) in
  let storage' :=
    mem_set (storage s) (storage_ix' ≫ 3) (storage s output_size) in
  (mkBrotliCompressor (window_bits_ c) hasher dist_ringbuffer
     dist_ringbuffer_idx input_pos ringbuffer literal_cost storage_ix' storage',
   output_size, encoded_buffer).

Definition FinishStream (encoded_buffer : mem) (encoded_offset : Z)
    (c : BrotliCompressor) : BrotliCompressor * Z * mem :=
  let s := WriteBits 1 1 (sink_of c) in
  let encoded_size := (storage_ix s + 7) ≫ 3 in
  (with_storage c s, encoded_size,
   memcpy_at encoded_buffer encoded_offset (storage s) encoded_size).

(** What [BrotliCompressBuffer] leaves behind: its return value,
    [*encoded_size], the output buffer, and the compressor it built, if it
    built one. *)
Record CompressResult := mkCompressResult {
  result_value : Z;
  result_encoded_size : Z;
  result_encoded_buffer : mem;
  result_compressor : option BrotliCompressor
}.

(** [while (input_buffer < input_end)]; [input_buffer] is the offset of
    the read pointer from the start of the input.  Every pass consumes at
    least one byte. *)
Fixpoint compress_blocks (fuel : nat) (input : mem) (input_buffer input_end : Z)
    (max_output_size encoded_size : Z) (encoded_buffer : mem)
    (c : BrotliCompressor) : BrotliCompressor * Z * Z * mem :=
  match fuel with
  | O => (c, max_output_size, encoded_size, encoded_buffer)
  | S fuel' =>
      if input_buffer <? input_end then
        let max_block_size := 1 ≪ kMetaBlockSizeBits in
        let block_size :=
          if max_block_size >=? input_end - input_buffer
          then input_end - input_buffer else max_block_size in
        let '(c, output_size, encoded_buffer) :=
          WriteMetaBlock block_size (mem_offset input input_buffer)
            encoded_buffer encoded_size c in
        compress_blocks fuel' input (input_buffer + block_size) input_end
          (size_t (max_output_size - output_size))
          (size_t (encoded_size + output_size)) encoded_buffer c
      else (c, max_output_size, encoded_size, encoded_buffer)
  end.

Definition BrotliCompressBuffer (input_size : Z) (input_buffer : mem)
    (encoded_size : Z) (encoded_buffer : mem) : CompressResult :=
  if input_size =? 0 then
    let encoded_buffer := mem_set encoded_buffer 0 1 in
    let encoded_buffer := mem_set encoded_buffer 1 0 in
    mkCompressResult 1 2 encoded_buffer None
  else
    let compressor := WriteStreamHeader BrotliCompressor_new in
    let max_output_size := encoded_size in
    let '(compressor, max_output_size, encoded_size, encoded_buffer) :=
      compress_blocks (Z.to_nat input_size) input_buffer 0 input_size
        max_output_size 0 encoded_buffer compressor in
    let '(compressor, output_size, encoded_buffer) :=
      FinishStream encoded_buffer encoded_size compressor in
    mkCompressResult 1 (size_t (encoded_size + output_size)) encoded_buffer
      (Some compressor).

End Encoder.


(** ** The size field *)

(** [do { len_bytes.push_back(len & 0xff); len >>= 8; } while (len > 0);]
    A [size_t] has eight bytes, so the loop runs at most eight times. *)
Fixpoint EncodeSize_bytes (fuel : nat) (len : Z) (len_bytes : list Z) : list Z :=
  match fuel with
  | O => len_bytes
  | S fuel' =>
      let len_bytes := len_bytes ++ [Z.land len 255] in
      let len := len ≫ 8 in
      if 0 <? len then EncodeSize_bytes fuel' len len_bytes else len_bytes
  end.

Definition EncodeSize (len : Z) (s : BitSink) : BitSink :=
  let len_bytes := EncodeSize_bytes 8 len [] in
  let s := WriteBits 3 (Z.of_nat (length len_bytes)) s in
  for_range 0 (Z.of_nat (length len_bytes))
    (fun i s => WriteBits 8 (vget len_bytes i) s) s.

(** * Reference definitions used by the statements *)

Definition empty_sink : BitSink := mkBitSink 0 (fun _ => 0).

(** Ceiling of [a / b] for positive [b]. *)
Definition ceil_div (a b : Z) : Z := (a + b - 1) / b.

(** [n] nibbles of [L], least significant first, as [WriteBits] calls. *)
Fixpoint nibbles_of (n : nat) (L : Z) : list (Z * Z) :=
  match n with
  | O => []
  | S n' => (4, Z.land L 15) :: nibbles_of n' (L ≫ 4)
  end.

(** The number of nibbles that hold the [floor(log2 L) + 1] bits of [L]. *)
Definition nibble_count (L : Z) : Z := ceil_div (Z.log2 L + 1) 4.

(** The meta-block length field with a short final group: when the
    nibbles hold more bits than [L] has, the last group carries only the
    residual [(floor(log2 L) + 1) mod 4] bits. *)
Definition length_field_with_residual (L : Z) : list (Z * Z) :=
  let num_bits := Z.log2 L + 1 in
  let n := nibble_count L in
  [(1, 0); (3, n)] ++
  (if num_bits <? 4 * n then
     nibbles_of (Z.to_nat (n - 1)) L ++
     [(num_bits mod 4, L ≫ (4 * (n - 1)))]
   else nibbles_of (Z.to_nat n) L).

(** The number of zeros at the head, and at the tail, of a list. *)
Fixpoint leading_zeros (l : list Z) : nat :=
  match l with
  | [] => O
  | x :: l' => if x =? 0 then S (leading_zeros l') else O
  end.

Definition trailing_zeros (l : list Z) : nat := leading_zeros (rev l).

(** The fixed code of a code-length depth, as [(n_bits, bits)]. *)
Definition depth_code (d : Z) : Z * Z :=
  if d =? 0 then (2, 0)          (* 0b00 *)
  else if d =? 1 then (4, 7)     (* 0b0111 *)
  else if d =? 2 then (3, 3)     (* 0b011 *)
  else if d =? 3 then (2, 1)     (* 0b01 *)
  else if d =? 4 then (2, 2)     (* 0b10 *)
  else if d =? 5 then (4, 15)    (* 0b1111 *)
  else (0, 0).

(** ** Distance short codes, as the text describes them *)

(** Candidate [k]: an entry of the distance ring plus a small offset. *)
Definition candidate (ring : list Z) (head k : Z) : Z :=
  vget ring (Z.land (head + vget kIndexOffset k) 3) + vget kValueOffset k.

(** The candidates that are passed over for short distances. *)
Definition skipped (dist k : Z) : bool :=
  (dist <? 11) && ((k =? 2) || (k =? 3) || (6 <=? k)).

(** Candidate [k] is tried for [dist] and equals it. *)
Definition matches (ring : list Z) (head dist k : Z) : Prop :=
  0 <= k < 16 /\ skipped dist k = false /\ candidate ring head k = dist.

(** [code] is [k + 1] for the smallest matching candidate [k], and
    [dist + 16] when no candidate matches. *)
Definition short_code_of (ring : list Z) (head dist code : Z) : Prop :=
  (exists k, matches ring head dist k /\
             (forall j, matches ring head dist j -> k <= j) /\
             code = k + 1) \/
  ((forall k, ~ matches ring head dist k) /\ code = dist + 16).

(** [cmd'] is [cmd] with [code] as its distance code: the field
    [distance_code_] holds [code], and the other eight fields are those
    of [cmd]. *)
Definition coded_as (cmd cmd' : Command) (code : Z) : Prop :=
  distance_code_ cmd' = code /\
  insert_length_ cmd' = insert_length_ cmd /\
  copy_length_ cmd' = copy_length_ cmd /\
  copy_length_code_ cmd' = copy_length_code_ cmd /\
  copy_distance_ cmd' = copy_distance_ cmd /\
  distance_prefix_ cmd' = distance_prefix_ cmd /\
  command_prefix_ cmd' = command_prefix_ cmd /\
  distance_extra_bits_ cmd' = distance_extra_bits_ cmd /\
  distance_extra_bits_value_ cmd' = distance_extra_bits_value_ cmd.

(** [short_codes cmds ring head cmds' ring' head']: the pass over [cmds]
    that starts with the distance ring [ring] and its index [head] leaves
    [cmds'], [ring'] and [head'].  It ends at the first command without a
    copy distance; a command before that comes out with its short code
    in [distance_code_], and a code above 1 puts the distance into the
    ring at [head & 3] and advances [head] by one (a [size_t]). *)
Inductive short_codes :
    list Command -> list Z -> Z -> list Command -> list Z -> Z -> Prop :=
| short_codes_nil ring head :
    short_codes [] ring head [] ring head
| short_codes_stop cmd rest ring head :
    copy_distance_ cmd = 0 ->
    short_codes (cmd :: rest) ring head (cmd :: rest) ring head
| short_codes_keep cmd cmd' rest ring head code rest' ring' head' :
    copy_distance_ cmd <> 0 ->
    short_code_of ring head (copy_distance_ cmd) code ->
    code <= 1 ->
    coded_as cmd cmd' code ->
    short_codes rest ring head rest' ring' head' ->
    short_codes (cmd :: rest) ring head (cmd' :: rest') ring' head'
| short_codes_absorb cmd cmd' rest ring head code rest' ring' head' :
    copy_distance_ cmd <> 0 ->
    short_code_of ring head (copy_distance_ cmd) code ->
    1 < code ->
    coded_as cmd cmd' code ->
    short_codes rest
      (vset ring (Z.land head 3) (copy_distance_ cmd)) (size_t (head + 1))
      rest' ring' head' ->
    short_codes (cmd :: rest) ring head (cmd' :: rest') ring' head'.

(** ** Simple Huffman codes, as the text describes them *)

(** [sort_symbols] with the comparison of two symbols taken as a
    parameter; [sort_symbols depth] is the instance that compares depths. *)
Definition sort_symbols_by (lt : Z -> Z -> bool) (count : Z) (symbols : list Z)
    : list Z :=
  for_range 0 count
    (fun k symbols =>
       for_range (k + 1) count
         (fun j symbols =>
            if lt (vget symbols j) (vget symbols k) then
              vset (vset symbols k (vget symbols j)) j (vget symbols k)
            else symbols)
         symbols)
    symbols.

(** A stable sort by ascending depth: every symbol goes behind the
    symbols of at most its depth that came before it. *)
Fixpoint insert_by_depth (depth : list Z) (x : Z) (l : list Z) : list Z :=
  match l with
  | [] => [x]
  | y :: l' =>
      if vget depth x <? vget depth y then x :: l
      else y :: insert_by_depth depth x l'
  end.

Definition stable_sort_by_depth (depth : list Z) (l : list Z) : list Z :=
  fold_left (fun sorted x => insert_by_depth depth x sorted) l [].

(** The bits of a simple code over an alphabet of [A] symbols, given the
    order in which its symbols are written. *)
Definition simple_code_bits (code : EntropyCode) (A : Z) (symbols : list Z)
    : list (Z * Z) :=
  [(1, 1); (2, count_ code - 1)] ++
  ((fun x => (Z.log2_up A, x)) <$> symbols) ++
  (if count_ code =? 4 then
     [(1, if forallb (fun x => vget (depth_ code) x =? 2) symbols then 0 else 1)]
   else []).

(** The simple code with ties between equal depths kept in the order of
    [symbols_]. *)
Definition simple_code_bits_stable (code : EntropyCode) (A : Z) : list (Z * Z) :=
  simple_code_bits code A
    (stable_sort_by_depth (depth_ code)
       (take (Z.to_nat (count_ code)) (symbols_ code))).

(** ** The optional length of the code-length sequence *)

(** The flag bit 1 and the length field for [size] tokens. *)
Definition length_field (nbitpairs size : Z) : list (Z * Z) :=
  [(1, 1); (3, nbitpairs - 1); (nbitpairs * 2, size - 2)].

(** [max(1, ceil((ceil(log2(size - 1)) + 1) / 2))]. *)
Definition nbitpairs_plus_one (size : Z) : Z :=
  Z.max 1 (ceil_div (Log2Ceiling (size - 1) + 1) 2).

(** [max(1, ceil(ceil(log2(size - 1)) / 2))]. *)
Definition nbitpairs_ceil (size : Z) : Z :=
  Z.max 1 (ceil_div (Log2Ceiling (size - 1)) 2).

(** What [StoreHuffmanCode] writes for a code of more than four symbols
    when the trim is chosen by the cost test alone and the length field
    is sized by [nbitpairs]. *)
Definition store_complex_code `{Collaborators} (nbitpairs : Z -> Z)
    (code : EntropyCode) (alphabet_size : Z) (s : BitSink) : BitSink :=
  let '(huffman_tree, huffman_tree_extra_bits, huffman_tree_size) :=
    WriteHuffmanTree (depth_ code) alphabet_size in
  let untrimmed := tokens_histogram huffman_tree huffman_tree_size in
  let untrimmed_code := BuildEntropyCode untrimmed 5 kCodeLengthCodes in
  let trimmed := trimmed_tokens_histogram huffman_tree huffman_tree_size in
  let trimmed_size := total_count_ trimmed in
  let trimmed_code := BuildEntropyCode trimmed 5 kCodeLengthCodes in
  if HuffmanTreeBitCost trimmed trimmed_code + 3 + 2 * nbitpairs trimmed_size
     <? HuffmanTreeBitCost untrimmed untrimmed_code
  then
    StoreHuffmanTreeToBitMask huffman_tree huffman_tree_extra_bits
      trimmed_size trimmed_code
      (emit (length_field (nbitpairs trimmed_size) trimmed_size)
         (StoreHuffmanTreeOfHuffmanTreeToBitMask (depth_ trimmed_code)
            (WriteBits 1 0 s)))
  else
    StoreHuffmanTreeToBitMask huffman_tree huffman_tree_extra_bits
      huffman_tree_size untrimmed_code
      (emit [(1, 0)]
         (StoreHuffmanTreeOfHuffmanTreeToBitMask (depth_ untrimmed_code)
            (WriteBits 1 0 s))).

(** ** The length of a meta-block *)

(** The sum over all commands of [insert_length + copy_length]. *)
Definition total_length (cmds : list Command) : Z :=
  foldr (fun cmd n => insert_length_ cmd + copy_length_ cmd + n) 0 cmds.

(** ** The inverses of the context-map transforms *)

(** Modelled from the spec: the decoder's inverse of the zero-run-length
    coding, which is not in this file.  A token [p <= max_run_length_prefix]
    stands for a run of [2^p + extra] zeros, where [extra] is the value of
    its [p] extra bits; a larger token stands for the value
    [token - max_run_length_prefix]. *)
Fixpoint InverseRunLengthCodeZeros (max_run_length_prefix : Z)
    (symbols extra_bits : list Z) : list Z :=
  match symbols, extra_bits with
  | symbol :: symbols', extra :: extra_bits' =>
      (if symbol <=? max_run_length_prefix
       then replicate (Z.to_nat ((1 ≪ symbol) + extra)) 0
       else [symbol - max_run_length_prefix])
      ++ InverseRunLengthCodeZeros max_run_length_prefix symbols' extra_bits'
  | _, _ => []
  end.

(** Modelled from the spec: the decoder's inverse move-to-front
    transform, which is not in this file.  Every input is an index into
    the move-to-front list; the entry there is the output, and it moves
    to the front. *)
Fixpoint inverse_move_to_front (mtf : list Z) (v : list Z) : list Z :=
  match v with
  | [] => []
  | index :: v' =>
      vget mtf index :: inverse_move_to_front (MoveToFront mtf index) v'
  end.

(** The list starts as [0, 1, ..., size - 1]. *)
Definition InverseMoveToFrontTransform (size : Z) (v : list Z) : list Z :=
  inverse_move_to_front (seqZ 0 size) v.

(** The move-to-front transform as a recursion over its input. *)
Fixpoint move_to_front_indices (mtf : list Z) (v : list Z) : list Z :=
  match v with
  | [] => []
  | x :: v' =>
      IndexOf mtf x :: move_to_front_indices (MoveToFront mtf (IndexOf mtf x)) v'
  end.

(** * An instance of the collaborators

    A small executable stand-in for the rest of the encoder, used to run
    the functions above on concrete inputs. *)

Definition example_collaborators : Collaborators := {|
  Hasher := unit;
  RingBuffer := Z * mem;
  LiteralCosts := unit;
  Hasher_new := tt;
  RingBuffer_new := fun _ _ => (0, fun _ => 0);
  RingBuffer_Write := fun input n rb =>
    (rb.1 + n, memcpy_at rb.2 rb.1 input n);
  RingBuffer_start := fun rb => rb.2;
  LiteralCosts_new := fun _ => tt;
  EstimateBitCostsForLiterals := fun _ _ _ _ c => c;
  CreateBackwardReferences := fun n _ _ _ _ _ h cmds =>
    (h, cmds ++ [mkCommand n 0 0 0 0 0 0 0 0]);
  SplitBlock := fun cmds _ _ _ _ =>
    (mkBlockSplit 1 [0] [] [Z.of_nat (length cmds)],
     mkBlockSplit 1 [0] [] [Z.of_nat (length cmds)],
     mkBlockSplit 1 [0] [] [Z.of_nat (length cmds)]);
  BlockSplitIterator_new := fun split =>
    mkBlockSplitIterator split 0 0 (vget (lengths_ split) 0);
  BuildHistograms := fun _ _ _ _ _ _ _ _ l c d => (l, c, d);
  ClusterHistograms := fun _ _ _ _ out _ => (take 1 out, replicate 64 0);
  BuildEntropyCode := fun _ _ n =>
    mkEntropyCode (replicate (Z.to_nat n) 0) (replicate (Z.to_nat n) 0) 0
      [0; 0; 0; 0];
  (* the tokens of the depths 2, 2, 2, 3, 3 followed by a run of zeros *)
  WriteHuffmanTree := fun _ _ => ([2; 2; 2; 3; 3; 17], [0; 0; 0; 0; 0; 0], 6);
  HuffmanTreeBitCost := fun h _ => 8 * total_count_ h;
  PopulationCost := fun h => total_count_ h;
  CommandPrefix := fun _ _ => 0;
  InsertLengthExtraBits := fun _ => 0;
  InsertLengthOffset := fun _ => 0;
  CopyLengthExtraBits := fun _ => 0;
  CopyLengthOffset := fun _ => 0;
  PrefixEncodeCopyDistance := fun _ _ _ => (0, 0, 0);
  BlockLengthPrefix := fun _ => 0;
  BlockLengthExtraBits := fun _ => 0;
  BlockLengthOffset := fun _ => 0;
  kNumDistancePrefixes := 520;
  Context_ := fun _ _ _ => 0;
  CONTEXT_SIGNED := 3
|}.

(** Code-length depths, by symbol: symbols 3, 4, 8 and 18 have depth 2. *)
Definition example_depths : list Z :=
  [0; 0; 0; 2; 2; 0; 0; 0; 2; 0; 0; 0; 0; 0; 0; 0; 0; 0; 2].

(** A command that copies from [distance] back. *)
Definition copy_from (distance : Z) : Command :=
  mkCommand 0 4 4 distance 0 0 0 0 0.

(** A code of three symbols: symbol 2 has depth 1, symbols 0 and 1 have
    depth 2. *)
Definition example_simple_code : EntropyCode :=
  mkEntropyCode [2; 2; 1] [1; 3; 0] 3 [0; 1; 2; 0].

(** A code of five symbols over an alphabet of eight. *)
Definition example_complex_code : EntropyCode :=
  mkEntropyCode [2; 2; 2; 3; 3; 0; 0; 0] [0; 2; 1; 3; 7; 0; 0; 0] 5 [0; 1; 2; 3].

(** A meta-block of two commands (2 literals and a copy of 3 bytes, then
    1 literal and a copy of 4 bytes) with one block type per stream. *)
Definition example_meta_block : MetaBlock :=
  mkMetaBlock
    [mkCommand 2 3 3 5 21 0 0 0 0; mkCommand 1 4 4 5 1 0 0 0 0]
    (mkEncodingParams 12 1 3)
    (mkBlockSplit 1 [0] [] [3]) (mkBlockSplit 1 [0] [] [2])
    (mkBlockSplit 1 [0] [] [2])
    [3] (replicate 64 0) (replicate 4 0)
    [Histogram_new 256] [Histogram_new 704] [Histogram_new 520].


(** * Readers and measures used by the statements *)

(** The number that a list of bytes holds, least significant byte first. *)
Definition bytes_value (bytes : list Z) : Z :=
  foldr (fun b n => b + 256 * n) 0 bytes.

(** The number that a list of 4-bit groups holds, least significant
    group first; each group is given as [(n_bits, bits)]. *)
Definition nibbles_value (nibbles : list (Z * Z)) : Z :=
  foldr (fun w n => w.2 + 16 * n) 0 nibbles.


(** A code without symbols and a code with the single symbol 0, over an
    alphabet of four symbols. *)
Definition example_empty_code : EntropyCode :=
  {| depth_ := [0; 0; 0; 0]; bits_ := [0; 0; 0; 0];
     count_ := 0; symbols_ := [0; 0; 0; 0] |}.

Definition example_single_code : EntropyCode :=
  {| depth_ := [0; 0; 0; 0]; bits_ := [0; 0; 0; 0];
     count_ := 1; symbols_ := [0; 0; 0; 0] |}.


(** ** Reading distance short codes back *)

(** The distance that a distance code stands for, given the ring of the
    last distances: codes 1..16 name a candidate, a larger code is the
    distance plus 16. *)
Definition distance_of_code (ring : list Z) (head code : Z) : Z :=
  if code <=? 16 then candidate ring head (code - 1) else code - 16.

(** A reader of a sequence of distance codes.  It keeps the ring as the
    writer does: a code above 1 puts its distance into the ring. *)
Fixpoint InverseDistanceShortCodes (codes : list Z) (ring : list Z) (head : Z)
    : list Z * list Z * Z :=
  match codes with
  | [] => ([], ring, head)
  | code :: rest =>
      let dist := distance_of_code ring head code in
      let '(ring, head) :=
        if 1 <? code
        then (vset ring (Z.land head 3) dist, size_t (head + 1))
        else (ring, head) in
      let '(dists, ring, head) := InverseDistanceShortCodes rest ring head in
      (dist :: dists, ring, head)
  end.

(** Three commands with the copy distances 16, 15 and 20. *)
Definition example_copies : list Command :=
  [mkCommand 0 4 4 16 0 0 0 0 0;
   mkCommand 0 4 4 15 0 0 0 0 0;
   mkCommand 0 4 4 20 0 0 0 0 0].


(** ** Well-formed run-length tokens *)

(** A token of the zero-run-length coding with its extra bits: either a
    run token [symbol <= max_run_length_prefix], whose extra value fits
    into [symbol] bits, or a shifted value, which has no extra bits. *)
Definition rle_token (max_run_length_prefix symbol extra : Z) : Prop :=
  (0 <= symbol <= max_run_length_prefix /\ 0 <= extra < 2 ^ symbol) \/
  (max_run_length_prefix < symbol /\ extra = 0).


(** ** Reading block-type codes back *)

(** The block type that a type code stands for, given the last two block
    types: code 0 is the type before the last one, code 1 is the last
    type plus one, and a larger code is the type plus 2. *)
Definition block_type_of_code (second_last last code : Z) : Z :=
  if code =? 0 then second_last
  else if code =? 1 then last + 1
  else code - 2.

Fixpoint InverseBlockTypeCodes (codes : list Z) (second_last last : Z) : list Z :=
  match codes with
  | [] => []
  | code :: rest =>
      let type := block_type_of_code second_last last code in
      type :: InverseBlockTypeCodes rest last type
  end.

(** The loop body of [ComputeBlockTypeShortCodes] for one block type. *)
Definition block_type_step (type : Z) (st : list Z * Z * list Z)
    : list Z * Z * list Z :=
  let '(ringbuffer, index, type_codes) := st in
  let type_code :=
    if type =? vget ringbuffer (Z.land index 1) then 0
    else if type =? vget ringbuffer (Z.land (size_t (index - 1)) 1) + 1
    then 1
    else type + 2 in
  (vset ringbuffer (Z.land index 1) type, size_t (index + 1),
   type_codes ++ [type_code]).

(** A block split with three block types over five blocks. *)
Definition example_block_split : BlockSplit :=
  mkBlockSplit 3 [0; 1; 0; 2; 1] [] [4; 3; 5; 2; 6].


(** ** The size of a serialized Huffman tree *)

(** The bits that one token of a serialized Huffman tree takes: its code
    word (nothing when the code has at most one symbol) and the extra
    bits of the repeat tokens 16, 17 and 18. *)
Definition token_bits (entropy : EntropyCode) (ix : Z) : Z :=
  (if count_ entropy <=? 1 then 0 else vget (depth_ entropy) ix) +
  (if ix =? 16 then 2 else if ix =? 17 then 3 else if ix =? 18 then 7 else 0).

(** A block-split cursor inside a block of three. *)
Definition example_iterator : BlockSplitIterator :=
  mkBlockSplitIterator example_block_split 0 0 3.


(** ** Reading the stream header back *)

(** The window size that the first byte of a stream announces: bit 3
    tells whether three more bits follow, which hold the size minus 17. *)
Definition read_window_bits (byte : Z) : Z :=
  if Z.testbit byte 3 then 17 + Z.land (byte ≫ 4) 7 else 16.


(** ** The blocks of an input *)

(** The sizes of the blocks that an input of [input_size] bytes is cut
    into: [2^21] bytes each, and what is left over in a shorter last
    one. *)
Definition block_sizes (input_size : Z) : list Z :=
  replicate (Z.to_nat (input_size / 2 ^ 21)) (2 ^ 21) ++
  (if input_size mod 2 ^ 21 =? 0 then [] else [input_size mod 2 ^ 21]).

(** One [WriteMetaBlock] call per block: each reads its block of the
    input and writes behind the output of the one before.  The result is
    the compressor, the size of the output so far and the output
    buffer. *)
Fixpoint write_blocks `{Collaborators} (sizes : list Z) (input : mem)
    (input_buffer encoded_size : Z) (encoded_buffer : mem)
    (c : BrotliCompressor) : BrotliCompressor * Z * mem :=
  match sizes with
  | [] => (c, encoded_size, encoded_buffer)
  | block_size :: rest =>
      let '(c, output_size, encoded_buffer) :=
        WriteMetaBlock block_size (mem_offset input input_buffer)
          encoded_buffer encoded_size c in
      write_blocks rest input (input_buffer + block_size)
        (size_t (encoded_size + output_size)) encoded_buffer c
  end.

(** * Properties *)

#[local] Arguments WriteBits : simpl never.

Lemma emit_app (ws1 ws2 : list (Z * Z)) (s : BitSink) :
  emit (ws1 ++ ws2) s = emit ws2 (emit ws1 s).
Proof. unfold emit. apply fold_left_app. Qed.

Lemma emit_cons (n v : Z) (ws : list (Z * Z)) (s : BitSink) :
  emit ((n, v) :: ws) s = emit ws (WriteBits n v s).
Proof. reflexivity. Qed.

Lemma for_range_done {S} (lo hi : Z) (body : Z -> S -> S) (s : S) :
  hi <= lo -> for_range lo hi body s = s.
Proof.
  intros Hle. unfold for_range, seqZ.
  replace (Z.to_nat (hi - lo)) with 0%nat by lia. reflexivity.
Qed.

Lemma for_range_step {S} (lo hi : Z) (body : Z -> S -> S) (s : S) :
  lo < hi -> for_range lo hi body s = for_range (lo + 1) hi body (body lo s).
Proof.
  intros Hlt. unfold for_range.
  rewrite (seqZ_cons lo (hi - lo)) by lia. simpl.
  replace (Z.succ lo) with (lo + 1) by lia.
  replace (Z.pred (hi - lo)) with (hi - (lo + 1)) by lia. reflexivity.
Qed.

Lemma for_range_last {S} (lo hi : Z) (body : Z -> S -> S) (s : S) :
  lo <= hi -> for_range lo (hi + 1) body s = body hi (for_range lo hi body s).
Proof.
  intros Hle. unfold for_range.
  replace (hi + 1 - lo) with ((hi - lo) + 1) by lia.
  rewrite seqZ_app by lia. rewrite fold_left_app.
  rewrite (seqZ_cons _ 1), seqZ_nil by lia. simpl.
  replace (lo + (hi - lo)) with hi by lia. reflexivity.
Qed.

(** ** The empty input *)

(** C2: for [input_size = 0], [BrotliCompressBuffer] stores the bytes 1
    and 0 at offsets 0 and 1 of the output buffer and nothing else, sets
    [*encoded_size] to 2 and returns 1, and no compressor is built (so no
    stream header is written either). *)
Theorem BrotliCompressBuffer_empty_input `{Collaborators}
    (input_buffer : mem) (encoded_size : Z) (encoded_buffer : mem) :
  let r := BrotliCompressBuffer 0 input_buffer encoded_size encoded_buffer in
  result_value r = 1 /\
  result_encoded_size r = 2 /\
  result_encoded_buffer r 0 = 1 /\
  result_encoded_buffer r 1 = 0 /\
  (forall j, result_encoded_buffer r j =
             if j =? 0 then 1 else if j =? 1 then 0 else encoded_buffer j) /\
  result_compressor r = None.
Proof.
  cbn. repeat split.
  intros j. unfold mem_set.
  destruct (j =? 1) eqn:E1, (j =? 0) eqn:E0; try reflexivity; lia.
Qed.

(** ** Entropy-coded symbols *)

(** C10: when the entropy code has at most one symbol, [EntropyEncode]
    writes nothing: the bit cursor and the buffer stay as they were. *)
Theorem EntropyEncode_single_symbol (val : Z) (code : EntropyCode) (s : BitSink) :
  count_ code <= 1 -> EntropyEncode val code s = s.
Proof.
  intros Hc. unfold EntropyEncode.
  destruct (Z.leb_spec (count_ code) 1); [reflexivity | lia].
Qed.

Lemma EntropyEncode_single_symbol_witness :
  count_ (mkEntropyCode [0; 0] [0; 0] 1 [1; 0; 0; 0]) <= 1 /\
  EntropyEncode 1 (mkEntropyCode [0; 0] [0; 0] 1 [1; 0; 0; 0]) empty_sink
  = empty_sink.
Proof.
  split; [simpl; lia |].
  apply (EntropyEncode_single_symbol 1
           (mkEntropyCode [0; 0] [0; 0] 1 [1; 0; 0; 0]) empty_sink).
  simpl; lia.
Defined.

(** ** The meta-block length field *)

Lemma EncodeMetaBlockLength_nibbles_spec (fuel : nat) :
  forall (size num_bits : Z) (s : BitSink),
    num_bits <= Z.of_nat fuel ->
    EncodeMetaBlockLength_nibbles fuel size num_bits s =
    (size ≫ (4 * Z.of_nat (Z.to_nat (ceil_div num_bits 4))),
     num_bits - 4 * Z.of_nat (Z.to_nat (ceil_div num_bits 4)),
     emit (nibbles_of (Z.to_nat (ceil_div num_bits 4)) size) s).
Proof.
  unfold ceil_div.
  induction fuel as [|fuel IH]; intros size num_bits s Hfuel.
  - simpl. assert (Hk : (num_bits + 4 - 1) / 4 <= 0)
      by (apply Z.lt_succ_r, Z.div_lt_upper_bound; lia).
    replace (Z.to_nat ((num_bits + 4 - 1) / 4)) with 0%nat by lia.
    simpl. rewrite Z.shiftr_0_r. do 2 f_equal. lia.
  - cbn [EncodeMetaBlockLength_nibbles].
    destruct (Z.ltb_spec 0 num_bits) as [Hpos|Hneg].
    + rewrite IH by lia.
      assert (Hdiv : (num_bits + 4 - 1) / 4 = (num_bits - 4 + 4 - 1) / 4 + 1).
      { replace (num_bits + 4 - 1) with ((num_bits - 4 + 4 - 1) + 1 * 4) by lia.
        rewrite Z.div_add by lia. reflexivity. }
      assert (Hnn : 0 <= (num_bits - 4 + 4 - 1) / 4)
        by (apply Z.div_pos; lia).
      rewrite Hdiv.
      replace (Z.to_nat ((num_bits - 4 + 4 - 1) / 4 + 1))
        with (S (Z.to_nat ((num_bits - 4 + 4 - 1) / 4))) by lia.
      cbn [nibbles_of]. rewrite emit_cons.
      rewrite Z.shiftr_shiftr by lia.
      f_equal. f_equal; [f_equal |]; lia.
    + assert (Hk : (num_bits + 4 - 1) / 4 <= 0)
        by (apply Z.lt_succ_r, Z.div_lt_upper_bound; lia).
      replace (Z.to_nat ((num_bits + 4 - 1) / 4)) with 0%nat by lia.
      simpl. rewrite Z.shiftr_0_r. do 2 f_equal. lia.
Qed.

(** C7, as the code has it: for [L >= 1], [EncodeMetaBlockLength L]
    writes one 0 bit, then the nibble count
    [ceil((floor(log2 L) + 1) / 4)] in 3 bits, then [L] in exactly that
    many full 4-bit nibbles, least significant first.  The last group is
    a full nibble too: no shorter residual group is ever written. *)
Theorem EncodeMetaBlockLength_full_nibbles (L : Z) (s : BitSink) :
  1 <= L ->
  EncodeMetaBlockLength L s =
  emit ([(1, 0); (3, nibble_count L)] ++
        nibbles_of (Z.to_nat (nibble_count L)) L) s.
Proof.
  intros HL. unfold EncodeMetaBlockLength, Log2Floor, nibble_count.
  destruct (Z.leb_spec L 0) as [|_]; [lia |].
  pose proof (Z.log2_nonneg L) as Hlog.
  rewrite EncodeMetaBlockLength_nibbles_spec by lia.
  assert (Hshift : (Z.log2 L + 1 + 3) ≫ 2 = ceil_div (Z.log2 L + 1) 4).
  { rewrite Z.shiftr_div_pow2 by lia. unfold ceil_div. f_equal. lia. }
  rewrite Hshift.
  assert (Hrest :
    Z.log2 L + 1 - 4 * Z.of_nat (Z.to_nat (ceil_div (Z.log2 L + 1) 4)) <= 0).
  { unfold ceil_div.
    assert (0 <= (Z.log2 L + 1 + 4 - 1) / 4) by (apply Z.div_pos; lia).
    rewrite Z2Nat.id by lia.
    pose proof (Z.mul_succ_div_gt (Z.log2 L + 1 + 4 - 1) 4). lia. }
  destruct (Z.ltb_spec 0
    (Z.log2 L + 1 - 4 * Z.of_nat (Z.to_nat (ceil_div (Z.log2 L + 1) 4))));
    [lia |].
  rewrite emit_app. reflexivity.
Qed.

Lemma EncodeMetaBlockLength_full_nibbles_witness :
  1 <= 300 /\
  EncodeMetaBlockLength 300 empty_sink =
  emit [(1, 0); (3, 3); (4, 12); (4, 2); (4, 1)] empty_sink.
Proof.
  split; [lia |].
  apply (EncodeMetaBlockLength_full_nibbles 300 empty_sink). lia.
Defined.

(** C7 as stated fails: for [L = 1], one bit suffices, so the statement
    has the single group cut down to one residual bit (5 bits in all);
    the code writes the whole nibble (8 bits in all). *)
Lemma EncodeMetaBlockLength_residual_counterexample :
  length_field_with_residual 1 = [(1, 0); (3, 1); (1, 1)] /\
  storage_ix (emit (length_field_with_residual 1) empty_sink) = 5 /\
  storage_ix (EncodeMetaBlockLength 1 empty_sink) = 8 /\
  EncodeMetaBlockLength 1 empty_sink <>
  emit (length_field_with_residual 1) empty_sink.
Proof.
  split; [reflexivity |]. split; [reflexivity |]. split; [reflexivity |].
  intros E. apply (f_equal storage_ix) in E. vm_compute in E. discriminate.
Qed.

(** ** Index loops over vectors *)

Lemma lookup_vget {A} `{Inhabited A} (l : list A) (i : Z) :
  0 <= i < Z.of_nat (length l) -> l !! Z.to_nat i = Some (vget l i).
Proof.
  intros Hi. unfold vget.
  destruct (Z.ltb_spec i 0); [lia |].
  apply list_lookup_lookup_total_lt. lia.
Qed.

Lemma vget_of_nat {A} `{Inhabited A} (l : list A) (n : nat) :
  vget l (Z.of_nat n) = l !!! n.
Proof.
  unfold vget. destruct (Z.ltb_spec (Z.of_nat n) 0); [lia |].
  rewrite Nat2Z.id. reflexivity.
Qed.

Lemma map_vget_seqZ {A} `{Inhabited A} (l : list A) (lo hi : Z) :
  0 <= lo <= hi -> hi <= Z.of_nat (length l) ->
  vget l <$> seqZ lo (hi - lo) = drop (Z.to_nat lo) (take (Z.to_nat hi) l).
Proof.
  intros Hlo Hhi. apply list_eq. intros i.
  rewrite list_lookup_fmap, lookup_drop.
  destruct (Z.lt_ge_cases (Z.of_nat i) (hi - lo)) as [Hi|Hi].
  - rewrite lookup_seqZ_lt by lia. simpl.
    rewrite lookup_take_lt by lia.
    rewrite <- lookup_vget by lia. f_equal. lia.
  - rewrite lookup_seqZ_ge by lia. simpl.
    rewrite lookup_take_ge by lia. reflexivity.
Qed.

Lemma map_vget_all {A} `{Inhabited A} (l : list A) :
  vget l <$> seqZ 0 (Z.of_nat (length l)) = l.
Proof.
  replace (Z.of_nat (length l)) with (Z.of_nat (length l) - 0) by lia.
  rewrite map_vget_seqZ by lia.
  rewrite Nat2Z.id, firstn_all. reflexivity.
Qed.

(** A loop whose body only reads [v[i]] is a fold over the slice it visits. *)
Lemma for_range_fold {A S} `{Inhabited A} (l : list A) (lo hi : Z)
    (f : A -> S -> S) (s : S) :
  0 <= lo <= hi -> hi <= Z.of_nat (length l) ->
  for_range lo hi (fun i s => f (vget l i) s) s =
  fold_left (fun s x => f x s) (drop (Z.to_nat lo) (take (Z.to_nat hi) l)) s.
Proof.
  intros Hlo Hhi. rewrite <- map_vget_seqZ by assumption.
  unfold for_range. generalize (seqZ lo (hi - lo)). intros idxs. revert s.
  induction idxs as [|i idxs IH]; intros s; simpl; [reflexivity | apply IH].
Qed.

Lemma for_range_fold_all {A S} `{Inhabited A} (l : list A)
    (f : A -> S -> S) (s : S) :
  for_range 0 (Z.of_nat (length l)) (fun i s => f (vget l i) s) s =
  fold_left (fun s x => f x s) l s.
Proof.
  rewrite for_range_fold by lia. rewrite Nat2Z.id, firstn_all. reflexivity.
Qed.

Lemma fold_left_emit {A} (l : list A) (n v : A -> Z) (s : BitSink) :
  fold_left (fun s x => WriteBits (n x) (v x) s) l s =
  emit ((fun x => (n x, v x)) <$> l) s.
Proof.
  revert s. induction l as [|x l IH]; intros s; simpl; [reflexivity |].
  rewrite IH. reflexivity.
Qed.

(** ** The code lengths of the code-length code *)

Lemma leading_zeros_snoc_rev (l : list Z) (x : Z) :
  leading_zeros (rev (l ++ [x])) =
  if x =? 0 then S (leading_zeros (rev l)) else O.
Proof. rewrite rev_app_distr. reflexivity. Qed.

Lemma codes_to_store_loop_spec (depth : list Z) (fuel : nat) :
  forall codes_to_store : Z,
    4 <= codes_to_store <= 19 ->
    (Z.to_nat codes_to_store <= fuel)%nat ->
    codes_to_store_loop fuel depth codes_to_store =
    Z.max 4 (codes_to_store -
             Z.of_nat (trailing_zeros
                         (take (Z.to_nat codes_to_store)
                            (vget depth <$> kStorageOrder)))).
Proof.
  unfold trailing_zeros.
  induction fuel as [|fuel IH]; intros cts Hcts Hfuel; [lia |].
  cbn [codes_to_store_loop].
  destruct (Z.ltb_spec 4 cts) as [Hgt|Hle]; [| lia].
  assert (Hlook : (vget depth <$> kStorageOrder) !! Z.to_nat (cts - 1)
                  = Some (vget depth (vget kStorageOrder (cts - 1)))).
  { rewrite list_lookup_fmap, lookup_vget by (simpl; lia). reflexivity. }
  replace (Z.to_nat cts) with (S (Z.to_nat (cts - 1))) by lia.
  rewrite (take_S_r _ _ _ Hlook), leading_zeros_snoc_rev.
  destruct (vget depth (vget kStorageOrder (cts - 1)) =? 0); simpl negb; cbv iota.
  - rewrite IH by lia. lia.
  - lia.
Qed.

Lemma depth_code_table (v : Z) :
  0 <= v <= 5 ->
  (vget [2; 4; 3; 2; 2; 4] v, vget [0; 7; 3; 1; 2; 15] v) = depth_code v.
Proof.
  intros Hv.
  assert (Hcases : v = 0 \/ v = 1 \/ v = 2 \/ v = 3 \/ v = 4 \/ v = 5) by lia.
  destruct Hcases as [->|[->|[->|[->|[->| ->]]]]]; reflexivity.
Qed.

(** C5: [StoreHuffmanTreeOfHuffmanTreeToBitMask] writes, for depths of
    at most 5 taken in the order [kStorageOrder]: 4 bits holding
    [codes_to_store - 4], where [codes_to_store] is 19 less the number of
    trailing zero depths but at least 4; one bit that is 1 exactly when
    the depths of symbols 1 and 2 (the first two entries) are both zero;
    then, for every entry below [codes_to_store], leaving out the first
    two when that bit is 1, the fixed code of its depth. *)
Theorem StoreHuffmanTreeOfHuffmanTreeToBitMask_spec (depth : list Z) (s : BitSink) :
  (forall sym, In sym kStorageOrder -> 0 <= vget depth sym <= 5) ->
  let codes_to_store :=
    Z.max 4 (19 - Z.of_nat (trailing_zeros (vget depth <$> kStorageOrder))) in
  let skip_two_first := (vget depth 1 =? 0) && (vget depth 2 =? 0) in
  StoreHuffmanTreeOfHuffmanTreeToBitMask depth s =
  emit ([(4, codes_to_store - 4); (1, Z.b2z skip_two_first)] ++
        ((fun sym => depth_code (vget depth sym)) <$>
           drop (if skip_two_first then 2 else 0)
             (take (Z.to_nat codes_to_store) kStorageOrder)))
    s.
Proof.
  intros Hdepth codes_to_store skip_two_first.
  unfold StoreHuffmanTreeOfHuffmanTreeToBitMask.
  rewrite codes_to_store_loop_spec by (unfold kCodeLengthCodes; lia).
  change (Z.to_nat kCodeLengthCodes) with (length (vget depth <$> kStorageOrder)).
  rewrite firstn_all.
  change kCodeLengthCodes with 19. fold codes_to_store.
  change (vget kStorageOrder 0) with 1. change (vget kStorageOrder 1) with 2.
  fold skip_two_first.
  assert (Hcts : 4 <= codes_to_store <= 19) by (unfold codes_to_store; lia).
  rewrite emit_app. cbn [emit fold_left fst snd].
  set (s' := WriteBits 1 _ _).
  rewrite (for_range_fold kStorageOrder (Z.b2z skip_two_first * 2) codes_to_store
             (fun sym s =>
                WriteBits (vget [2; 4; 3; 2; 2; 4] (vget depth sym))
                  (vget [0; 7; 3; 1; 2; 15] (vget depth sym)) s))
    by (destruct skip_two_first; simpl; lia).
  replace (Z.to_nat (Z.b2z skip_two_first * 2))
    with (if skip_two_first then 2%nat else 0%nat)
    by (destruct skip_two_first; reflexivity).
  rewrite (fold_left_emit _
             (fun sym => vget [2; 4; 3; 2; 2; 4] (vget depth sym))
             (fun sym => vget [0; 7; 3; 1; 2; 15] (vget depth sym))).
  f_equal. apply list_fmap_ext. intros i sym Hsym. simpl.
  apply depth_code_table, Hdepth.
  rewrite lookup_drop in Hsym. apply lookup_take_Some in Hsym as [Hsym _].
  apply list_elem_of_In. eapply list_elem_of_lookup_2, Hsym.
Qed.

Lemma StoreHuffmanTreeOfHuffmanTreeToBitMask_spec_witness :
  (forall sym, In sym kStorageOrder -> 0 <= vget example_depths sym <= 5) /\
  StoreHuffmanTreeOfHuffmanTreeToBitMask example_depths empty_sink =
  emit [(4, 8); (1, 1); (3, 3); (3, 3); (2, 0); (2, 0); (3, 3);
        (2, 0); (2, 0); (2, 0); (2, 0); (3, 3)]
    empty_sink.
Proof.
  assert (Hdepth :
    forall sym, In sym kStorageOrder -> 0 <= vget example_depths sym <= 5).
  { intros sym Hin. simpl in Hin.
    repeat (destruct Hin as [<-|Hin]; [vm_compute; split; discriminate |]).
    destruct Hin. }
  split; [exact Hdepth |].
  exact (StoreHuffmanTreeOfHuffmanTreeToBitMask_spec example_depths empty_sink
           Hdepth).
Defined.

(** ** Distance short codes *)

Lemma land_size_t_3 (x : Z) : Z.land (size_t x) 3 = Z.land x 3.
Proof.
  unfold size_t. change 3 with (Z.ones 2).
  rewrite !Z.land_ones by lia.
  apply Z.mod_mod_divide. exists (2 ^ 62). reflexivity.
Qed.

Lemma skip_test_skipped (dist k : Z) :
  (dist <? 11) && (((2 <=? k) && (k <? 4)) || (6 <=? k)) = skipped dist k.
Proof.
  unfold skipped. f_equal.
  destruct (Z.leb_spec 6 k); [rewrite !orb_true_r; reflexivity |].
  rewrite !orb_false_r.
  destruct (Z.leb_spec 2 k), (Z.ltb_spec k 4), (Z.eqb_spec k 2), (Z.eqb_spec k 3);
    simpl; try reflexivity; lia.
Qed.

Lemma short_code_loop_spec (ring : list Z) (head dist : Z) (fuel : nat) :
  forall k : Z,
    0 <= k <= 16 ->
    Z.of_nat fuel = 16 - k ->
    (forall j, j < k -> ~ matches ring head dist j) ->
    short_code_of ring head dist
      (short_code_loop fuel k dist ring head (dist + 16)).
Proof.
  induction fuel as [|fuel IH]; intros k Hk Hfuel Hbelow.
  - right. split; [| reflexivity].
    intros j Hj. apply (Hbelow j); [| exact Hj]. destruct Hj. lia.
  - cbn [short_code_loop].
    destruct (Z.ltb_spec k 16) as [Hlt|]; [| lia].
    rewrite skip_test_skipped, land_size_t_3.
    fold (candidate ring head k).
    destruct (skipped dist k) eqn:Hskip.
    + apply IH; [lia | lia |].
      intros j Hj Hm. destruct (Z.eq_dec j k) as [->|Hne].
      * destruct Hm as (_ & Hns & _). congruence.
      * apply (Hbelow j); [lia | exact Hm].
    + destruct (Z.eqb_spec dist (candidate ring head k)) as [Heq|Hne].
      * left. exists k. split; [| split]; [| | reflexivity].
        -- split; [lia |]. split; [exact Hskip | congruence].
        -- intros j Hj. destruct (Z.lt_ge_cases j k) as [Hjk|]; [| lia].
           destruct (Hbelow j Hjk Hj).
      * apply IH; [lia | lia |].
        intros j Hj Hm. destruct (Z.eq_dec j k) as [->|Hnek].
        -- destruct Hm as (_ & _ & Hc). congruence.
        -- apply (Hbelow j); [lia | exact Hm].
Qed.

(** C3: [ComputeDistanceShortCodes] goes through the commands in order
    and stops before the first one whose [copy_distance] is 0.  Each
    command before that comes out with [distance_code_ = k + 1] for the
    smallest candidate [k] in [0, 16) with
    [ring[(head + index_offset[k]) & 3] + value_offset[k] = dist], where the
    candidates 2, 3 and 6..15 are passed over when [dist < 11], and with
    [distance_code_ = dist + 16] when there is none; its other fields are
    kept.  When that code is above 1 the ring takes [dist] at [head & 3]
    and [head] moves on by one. *)
Theorem ComputeDistanceShortCodes_spec (cmds : list Command) :
  forall (ring : list Z) (head : Z),
    short_codes cmds ring head
      (ComputeDistanceShortCodes cmds ring head).1.1
      (ComputeDistanceShortCodes cmds ring head).1.2
      (ComputeDistanceShortCodes cmds ring head).2.
Proof.
  induction cmds as [|cmd rest IH]; intros ring head.
  - apply short_codes_nil.
  - cbn [ComputeDistanceShortCodes].
    destruct (Z.eqb_spec (copy_distance_ cmd) 0) as [Hzero|Hdist].
    + apply short_codes_stop, Hzero.
    + pose proof (short_code_loop_spec ring head (copy_distance_ cmd) 16 0
                    ltac:(lia) ltac:(reflexivity)) as Hcode.
      specialize (Hcode ltac:(intros j Hj [Hr _]; lia)).
      set (code := short_code_loop 16 0 _ _ _ _) in *.
      destruct (Z.ltb_spec 1 code) as [Hgt|Hle].
      * specialize (IH (vset ring (Z.land head 3) (copy_distance_ cmd))
                      (size_t (head + 1))).
        destruct (ComputeDistanceShortCodes rest _ _) as [[rest' ring'] head'].
        apply (short_codes_absorb cmd _ rest ring head code); try assumption.
        repeat split.
      * specialize (IH ring head).
        destruct (ComputeDistanceShortCodes rest _ _) as [[rest' ring'] head'].
        apply (short_codes_keep cmd _ rest ring head code); try assumption.
        repeat split.
Qed.

(** With the initial ring [4, 11, 15, 16]: distance 16 is candidate 0,
    distance 15 is candidate 1 and enters the ring, distance 20 matches
    nothing, and the pass ends at the command without a distance. *)
Example ComputeDistanceShortCodes_example :
  ComputeDistanceShortCodes
    [copy_from 16; copy_from 15; copy_from 20; copy_from 0; copy_from 7]
    [4; 11; 15; 16] 0
  = ([mkCommand 0 4 4 16 1 0 0 0 0; mkCommand 0 4 4 15 2 0 0 0 0;
      mkCommand 0 4 4 20 36 0 0 0 0; copy_from 0; copy_from 7],
     [15; 20; 15; 16], 2).
Proof. reflexivity. Qed.

(** ** Simple Huffman codes *)

Lemma max_bits_loop_spec (fuel : nat) :
  forall counter max_bits : Z,
    0 <= counter <= Z.of_nat fuel ->
    max_bits_loop fuel counter max_bits =
    max_bits + (if counter =? 0 then 0 else Z.log2 counter + 1).
Proof.
  induction fuel as [|fuel IH]; intros counter max_bits Hc.
  - simpl. replace counter with 0 by lia. simpl. lia.
  - cbn [max_bits_loop].
    destruct (Z.eqb_spec counter 0) as [->|Hne]; [lia |].
    assert (Hhalf : 0 <= counter ≫ 1 <= Z.of_nat fuel).
    { rewrite Z.shiftr_div_pow2 by lia. change (2 ^ 1) with 2.
      split; [apply Z.div_pos; lia |].
      apply Z.lt_succ_r, Z.div_lt_upper_bound; lia. }
    rewrite IH by exact Hhalf.
    destruct (Z.eqb_spec (counter ≫ 1) 0) as [Hz|Hnz].
    + assert (counter = 1).
      { rewrite Z.shiftr_div_pow2 in Hz by lia. change (2 ^ 1) with 2 in Hz.
        pose proof (Z.div_mod counter 2 ltac:(lia)).
        pose proof (Z.mod_pos_bound counter 2 ltac:(lia)). lia. }
      subst counter. change (Z.log2 1) with 0. lia.
    + rewrite Z.log2_shiftr by lia.
      assert (1 <= Z.log2 counter).
      { apply Z.log2_le_pow2; [lia |]. change (2 ^ 1) with 2.
        rewrite Z.shiftr_div_pow2 in Hnz by lia. change (2 ^ 1) with 2 in Hnz.
        destruct (Z.lt_ge_cases counter 2) as [Hlt|]; [| assumption].
        rewrite Z.div_small in Hnz by lia. contradiction. }
      lia.
Qed.

Lemma max_bits_of_log2_up (alphabet_size : Z) :
  1 <= alphabet_size -> max_bits_of alphabet_size = Z.log2_up alphabet_size.
Proof.
  intros HA. unfold max_bits_of. rewrite max_bits_loop_spec by lia.
  destruct (Z.eqb_spec (alphabet_size - 1) 0) as [Hone|Hmore].
  - replace alphabet_size with 1 by lia. reflexivity.
  - rewrite Z.log2_up_eqn by lia.
    replace (Z.pred alphabet_size) with (alphabet_size - 1) by lia. lia.
Qed.

Lemma Permutation_at1 {A} (x y : A) (l l2 : list A) :
  Permutation l (y :: l2) -> Permutation (x :: l) (y :: x :: l2).
Proof. intros Hp. exact (Permutation_cons_app [y] l2 x Hp). Qed.

Lemma Permutation_at2 {A} (x y z : A) (l l2 : list A) :
  Permutation l (y :: z :: l2) -> Permutation (x :: l) (y :: z :: x :: l2).
Proof. intros Hp. exact (Permutation_cons_app [y; z] l2 x Hp). Qed.

Lemma Permutation_at3 {A} (x y z w : A) (l l2 : list A) :
  Permutation l (y :: z :: w :: l2) ->
  Permutation (x :: l) (y :: z :: w :: x :: l2).
Proof. intros Hp. exact (Permutation_cons_app [y; z; w] l2 x Hp). Qed.

Ltac perm_step :=
  first [ apply Permutation_refl
        | apply perm_skip
        | apply Permutation_at1
        | apply Permutation_at2
        | apply Permutation_at3 ].

(** Runs the sort on an array of named symbols, splitting on every
    comparison it meets, and checks each outcome. *)
Ltac sort_cases lt Hlt :=
  let E := fresh "E" in
  remember (sort_symbols_by lt _ _) as out eqn:E; vm_compute in E;
  repeat (match type of E with
          | context [if lt ?x ?y then _ else _] =>
              is_var x; is_var y;
              let H := fresh "H" in
              destruct (lt x y) eqn:H; rewrite Hlt in H;
              [apply Z.ltb_lt in H | apply Z.ltb_ge in H]
          end; vm_compute in E);
  subst out;
  match goal with
  | |- exists out, ?L = _ ++ replicate (Z.to_nat (4 - ?c)) _ /\ _ =>
      exists (take (Z.to_nat c) L)
  end;
  (split; [reflexivity |]); simpl;
  (split; [repeat perm_step | repeat constructor; lia]).

Lemma sort_symbols_by_sorted (d : Z -> Z) (lt : Z -> Z -> bool) (count : Z)
    (a b c e : Z) :
  (forall x y, lt x y = (d x <? d y)) ->
  1 <= count <= 4 ->
  exists out,
    sort_symbols_by lt count
      (for_range 0 count (fun k symbols => vset symbols k (vget [a; b; c; e] k))
         [0; 0; 0; 0])
    = out ++ replicate (Z.to_nat (4 - count)) 0 /\
    Permutation out (take (Z.to_nat count) [a; b; c; e]) /\
    Sorted (fun x y => d x <= d y) out.
Proof.
  intros Hlt Hcount.
  assert (Hc : count = 1 \/ count = 2 \/ count = 3 \/ count = 4) by lia.
  destruct Hc as [->|[->|[->| ->]]].
  - sort_cases lt Hlt.
  - sort_cases lt Hlt.
  - sort_cases lt Hlt.
  - sort_cases lt Hlt.
Qed.

(** C4, as the code has it: for a code of 1 to 4 symbols over an
    alphabet of [A >= 1] symbols, [StoreHuffmanCode] writes a 1 bit, then
    [count - 1] in 2 bits, then the [count] symbols of [symbols_], each in
    [ceil(log2 A)] bits, in an order of ascending depth, and for
    [count = 4] one more bit, which is 0 exactly when all four depths are
    2.  Which of two symbols of equal depth comes first is not fixed by
    their order in [symbols_]. *)
Theorem StoreHuffmanCode_simple `{Collaborators}
    (code : EntropyCode) (A : Z) (s : BitSink) :
  1 <= count_ code <= 4 ->
  1 <= A ->
  length (symbols_ code) = 4%nat ->
  exists symbols : list Z,
    Permutation symbols (take (Z.to_nat (count_ code)) (symbols_ code)) /\
    Sorted (fun x y => vget (depth_ code) x <= vget (depth_ code) y) symbols /\
    StoreHuffmanCode code A s = emit (simple_code_bits code A symbols) s.
Proof.
  intros Hcount HA Hlen.
  destruct code as [dl bits count syms]. cbn [count_ depth_ symbols_] in *.
  destruct syms as [|a [|b [|c [|e [|]]]]]; try discriminate Hlen.
  destruct (sort_symbols_by_sorted (vget dl)
              (fun x y => vget dl x <? vget dl y) count a b c e
              ltac:(reflexivity) Hcount) as (out & Hsort & Hperm & Hsorted).
  exists out. split; [exact Hperm |]. split; [exact Hsorted |].
  assert (Hout : length out = Z.to_nat count).
  { rewrite (Permutation_length Hperm), length_take. simpl. lia. }
  unfold StoreHuffmanCode, simple_code_bits. cbn [count_ depth_ symbols_].
  destruct (Z.eqb_spec count 0) as [|_]; [lia |].
  destruct (Z.leb_spec count 4) as [_|]; [| lia].
  rewrite max_bits_of_log2_up by exact HA.
  change (sort_symbols dl count ?init)
    with (sort_symbols_by (fun u v => vget dl u <? vget dl v) count init).
  rewrite Hsort.
  rewrite (for_range_fold (out ++ replicate (Z.to_nat (4 - count)) 0) 0 count
             (fun x s => WriteBits (Z.log2_up A) x s))
    by (rewrite ?length_app, ?length_replicate; lia).
  rewrite <- Hout, take_app_length. cbn [drop Z.to_nat].
  rewrite (fold_left_emit out (fun _ => Z.log2_up A) (fun x => x)).
  rewrite !emit_app. cbn [emit fold_left fst snd].
  destruct (Z.eqb_spec count 4) as [->|_]; [| reflexivity].
  destruct out as [|w [|x [|y [|z [|]]]]]; try discriminate Hout.
  change (Z.to_nat (4 - 4)) with 0%nat. cbn [replicate app forallb].
  change (vget [w; x; y; z] 0) with w. change (vget [w; x; y; z] 1) with x.
  change (vget [w; x; y; z] 2) with y. change (vget [w; x; y; z] 3) with z.
  destruct (vget dl w =? 2), (vget dl x =? 2), (vget dl y =? 2),
    (vget dl z =? 2); reflexivity.
Qed.

Lemma StoreHuffmanCode_simple_witness :
  1 <= count_ example_simple_code <= 4 /\
  1 <= 3 /\
  length (symbols_ example_simple_code) = 4%nat /\
  exists symbols : list Z,
    Permutation symbols
      (take (Z.to_nat (count_ example_simple_code))
         (symbols_ example_simple_code)) /\
    Sorted
      (fun x y => vget (depth_ example_simple_code) x
                  <= vget (depth_ example_simple_code) y) symbols /\
    StoreHuffmanCode (H := example_collaborators) example_simple_code 3
      empty_sink
    = emit (simple_code_bits example_simple_code 3 symbols) empty_sink.
Proof.
  assert (Hcount : 1 <= count_ example_simple_code <= 4) by (simpl; lia).
  assert (HA : 1 <= 3) by lia.
  assert (Hlen : length (symbols_ example_simple_code) = 4%nat) by reflexivity.
  split; [exact Hcount |]. split; [exact HA |]. split; [exact Hlen |].
  exact (StoreHuffmanCode_simple (H := example_collaborators)
           example_simple_code 3 empty_sink Hcount HA Hlen).
Defined.

(** C4 as stated fails: symbols 0 and 1 have the same depth and come in
    this order in [symbols_], so a stable sort writes 2, 0, 1; the code
    writes 2, 1, 0. *)
Lemma StoreHuffmanCode_stable_counterexample :
  simple_code_bits_stable example_simple_code 3
  = [(1, 1); (2, 2); (2, 2); (2, 0); (2, 1)] /\
  StoreHuffmanCode (H := example_collaborators) example_simple_code 3 empty_sink
  = emit [(1, 1); (2, 2); (2, 2); (2, 1); (2, 0)] empty_sink /\
  StoreHuffmanCode (H := example_collaborators) example_simple_code 3 empty_sink
  <> emit (simple_code_bits_stable example_simple_code 3) empty_sink.
Proof.
  split; [reflexivity |]. split; [reflexivity |].
  intros E. apply (f_equal (fun s => storage s 0)) in E.
  vm_compute in E. discriminate.
Qed.

(** ** The optional length of the code-length sequence *)

Lemma nbitpairs_of_ceil (size : Z) : nbitpairs_of size = nbitpairs_ceil size.
Proof.
  unfold nbitpairs_of, nbitpairs_ceil, ceil_div, Log2Ceiling.
  pose proof (Z.log2_up_nonneg (size - 1)) as Hnn.
  destruct (Z.eqb_spec (Z.log2_up (size - 1)) 0) as [->|Hne]; [reflexivity |].
  rewrite Z.quot_div_nonneg by lia.
  replace (Z.log2_up (size - 1) + 2 - 1) with (Z.log2_up (size - 1) + 1) by lia.
  assert (1 <= (Z.log2_up (size - 1) + 1) / 2)
    by (apply Z.div_le_lower_bound; lia).
  lia.
Qed.

Lemma trim_tail_total (huffman_tree : list Z) (fuel : nat) :
  forall (last_code : Z) (h : Histogram),
    trim_tail fuel huffman_tree last_code h = h \/
    total_count_ (trim_tail fuel huffman_tree last_code h) < total_count_ h.
Proof.
  induction fuel as [|fuel IH]; intros last_code h; [left; reflexivity |].
  cbn [trim_tail].
  destruct ((vget huffman_tree last_code =? 0) ||
            (17 <=? vget huffman_tree last_code)); [| left; reflexivity].
  right.
  destruct (IH (last_code - 1)
              (Histogram_Remove (vget huffman_tree last_code) h)) as [->|Hlt].
  - simpl. lia.
  - simpl in Hlt |- *. lia.
Qed.

Lemma tokens_histogram_total (huffman_tree : list Z) (size : Z) :
  0 <= size -> total_count_ (tokens_histogram huffman_tree size) = size.
Proof.
  intros Hsize. unfold tokens_histogram.
  rewrite <- (Z2Nat.id size) by exact Hsize.
  induction (Z.to_nat size) as [|n IH].
  - reflexivity.
  - rewrite Nat2Z.inj_succ, <- Z.add_1_r, for_range_last by lia.
    cbn [Histogram_Add total_count_]. rewrite IH. reflexivity.
Qed.

(** When nothing is trimmed the two histograms are the same. *)
Lemma trimmed_tokens_histogram_same (huffman_tree : list Z) (size : Z) :
  size <= total_count_ (trimmed_tokens_histogram huffman_tree size) ->
  trimmed_tokens_histogram huffman_tree size = tokens_histogram huffman_tree size.
Proof.
  unfold trimmed_tokens_histogram. intros Hge.
  destruct (Z.lt_ge_cases size 0) as [Hneg|Hnn].
  - replace (Z.to_nat size) with 0%nat by lia. reflexivity.
  - destruct (trim_tail_total huffman_tree (Z.to_nat size) (size - 1)
                (tokens_histogram huffman_tree size)) as [Heq|Hlt];
      [exact Heq |].
    rewrite tokens_histogram_total in Hlt by exact Hnn. lia.
Qed.

(** C6, as the code has it: for a code of more than four symbols whose
    trimmed token sequence has more than one token, the trailing tokens
    0, 17 and 18 are dropped exactly when
    [trimmed_bit_cost + 3 + 2 * nbitpairs < untrimmed_bit_cost], with
    [nbitpairs = max(1, ceil(ceil(log2(trimmed_size - 1)) / 2))]; then a 1
    bit, [nbitpairs - 1] in 3 bits and [trimmed_size - 2] in
    [2 * nbitpairs] bits are written between the code-length code and the
    tokens.  Otherwise, and whenever the trimmed sequence has at most one
    token, a single 0 bit is written there. *)
Theorem StoreHuffmanCode_trim `{Collaborators}
    (code : EntropyCode) (alphabet_size : Z) (s : BitSink) :
  4 < count_ code ->
  let trimmed_size :=
    total_count_
      (trimmed_tokens_histogram
         (WriteHuffmanTree (depth_ code) alphabet_size).1.1
         (WriteHuffmanTree (depth_ code) alphabet_size).2) in
  (1 < trimmed_size ->
   StoreHuffmanCode code alphabet_size s =
   store_complex_code nbitpairs_ceil code alphabet_size s) /\
  (trimmed_size <= 1 ->
   StoreHuffmanCode code alphabet_size s =
   let '(huffman_tree, huffman_tree_extra_bits, huffman_tree_size) :=
     WriteHuffmanTree (depth_ code) alphabet_size in
   let untrimmed_code :=
     BuildEntropyCode (tokens_histogram huffman_tree huffman_tree_size) 5
       kCodeLengthCodes in
   StoreHuffmanTreeToBitMask huffman_tree huffman_tree_extra_bits
     huffman_tree_size untrimmed_code
     (emit [(1, 0)]
        (StoreHuffmanTreeOfHuffmanTreeToBitMask (depth_ untrimmed_code)
           (WriteBits 1 0 s)))).
Proof.
  intros Hcount trimmed_size. subst trimmed_size.
  unfold StoreHuffmanCode, store_complex_code, choose_trim.
  destruct (Z.eqb_spec (count_ code) 0) as [|_]; [lia |].
  destruct (Z.leb_spec (count_ code) 4) as [|_]; [lia |].
  destruct (WriteHuffmanTree (depth_ code) alphabet_size)
    as [[huffman_tree huffman_tree_extra_bits] huffman_tree_size].
  cbn [fst snd].
  set (trimmed := trimmed_tokens_histogram huffman_tree huffman_tree_size).
  set (untrimmed := tokens_histogram huffman_tree huffman_tree_size).
  rewrite <- nbitpairs_of_ceil.
  split; intros Hsize.
  - destruct (Z.ltb_spec 1 (total_count_ trimmed)) as [_|]; [| lia].
    destruct (Z.ltb_spec (total_count_ trimmed) huffman_tree_size)
      as [Hlt|Hge]; cbn [andb].
    + destruct (HuffmanTreeBitCost trimmed _ + 3 + _ <? _); reflexivity.
    + assert (Hsame : trimmed = untrimmed)
        by (apply trimmed_tokens_histogram_same; exact Hge).
      rewrite Hsame.
      assert (Hpairs : 1 <= nbitpairs_of (total_count_ untrimmed))
        by (rewrite nbitpairs_of_ceil; unfold nbitpairs_ceil; lia).
      destruct (Z.ltb_spec
                  (HuffmanTreeBitCost untrimmed
                     (BuildEntropyCode untrimmed 5 kCodeLengthCodes) + 3 +
                   2 * nbitpairs_of (total_count_ untrimmed))
                  (HuffmanTreeBitCost untrimmed
                     (BuildEntropyCode untrimmed 5 kCodeLengthCodes)));
        [lia | reflexivity].
  - destruct (Z.ltb_spec 1 (total_count_ trimmed)) as [|_]; [lia |].
    reflexivity.
Qed.

Lemma StoreHuffmanCode_trim_witness :
  4 < count_ example_complex_code /\
  StoreHuffmanCode (H := example_collaborators) example_complex_code 8 empty_sink
  = store_complex_code (H := example_collaborators) nbitpairs_ceil
      example_complex_code 8 empty_sink.
Proof.
  assert (Hcount : 4 < count_ example_complex_code) by (simpl; lia).
  split; [exact Hcount |].
  apply (StoreHuffmanCode_trim (H := example_collaborators)
           example_complex_code 8 empty_sink Hcount).
  simpl. lia.
Defined.

(** C6 as stated fails: with five tokens left after the trim,
    [ceil(log2 4) = 2], so the stated [nbitpairs] is
    [ceil((2 + 1) / 2) = 2] and the length field would take 3 + 4 bits;
    the code computes [(2 + 1) / 2 = 1] and writes 3 + 2 bits. *)
Lemma StoreHuffmanCode_nbitpairs_counterexample :
  (WriteHuffmanTree (Collaborators := example_collaborators)
     (depth_ example_complex_code) 8).1.1 = [2; 2; 2; 3; 3; 17] /\
  total_count_ (trimmed_tokens_histogram [2; 2; 2; 3; 3; 17] 6) = 5 /\
  nbitpairs_of 5 = 1 /\
  nbitpairs_plus_one 5 = 2 /\
  storage_ix
    (StoreHuffmanCode (H := example_collaborators) example_complex_code 8
       empty_sink) = 16 /\
  storage_ix
    (store_complex_code (H := example_collaborators) nbitpairs_plus_one
       example_complex_code 8 empty_sink) = 18 /\
  StoreHuffmanCode (H := example_collaborators) example_complex_code 8 empty_sink
  <> store_complex_code (H := example_collaborators) nbitpairs_plus_one
       example_complex_code 8 empty_sink.
Proof.
  repeat (split; [reflexivity |]).
  intros E. apply (f_equal storage_ix) in E. vm_compute in E. discriminate.
Qed.

(** ** The position after a meta-block *)

Lemma size_t_add_l (a b : Z) : size_t (size_t a + b) = size_t (a + b).
Proof. unfold size_t. apply Zplus_mod_idemp_l. Qed.

Lemma size_t_add_r (a b : Z) : size_t (a + size_t b) = size_t (a + b).
Proof. unfold size_t. apply Zplus_mod_idemp_r. Qed.

Lemma size_t_small (a : Z) : 0 <= a < 2 ^ 64 -> size_t a = a.
Proof. unfold size_t. apply Z.mod_small. Qed.

Lemma total_length_app (l1 l2 : list Command) :
  total_length (l1 ++ l2) = total_length l1 + total_length l2.
Proof.
  unfold total_length. induction l1 as [|cmd l1 IH]; simpl; [reflexivity |].
  rewrite IH. lia.
Qed.

Lemma MetaBlockLength_total (cmds : list Command) :
  MetaBlockLength cmds = size_t (total_length cmds).
Proof.
  unfold MetaBlockLength.
  rewrite (for_range_fold_all cmds
             (fun cmd n => size_t (n + (insert_length_ cmd + copy_length_ cmd)))).
  change 0 with (size_t 0) at 1.
  replace (total_length cmds) with (0 + total_length cmds) by lia.
  generalize 0. induction cmds as [|cmd cmds IH]; intros acc.
  - simpl. f_equal. lia.
  - cbn [fold_left]. rewrite size_t_add_l, IH.
    f_equal. unfold total_length. simpl. lia.
Qed.

Section Position.
Context `{Collaborators}.
Variables (mb : MetaBlock) (ringbuffer : mem) (mask end_pos : Z).
Variables (literal_split_code command_split_code distance_split_code
           : BlockSplitCode).
Variables (literal_codes command_codes distance_codes : list EntropyCode).

Lemma StoreMetaBlock_literal_pos (st : BodyState) :
  body_pos
    (StoreMetaBlock_literal mb ringbuffer mask literal_split_code literal_codes st)
  = size_t (body_pos st + 1).
Proof.
  unfold StoreMetaBlock_literal.
  destruct (MoveAndEncode literal_split_code (body_literal_it st) (body_sink st)).
  reflexivity.
Qed.

Lemma StoreMetaBlock_literals_pos (insert_length : Z) (st : BodyState) :
  body_pos st = size_t (body_pos st) ->
  0 <= insert_length ->
  body_pos
    (for_range 0 insert_length
       (fun _ st =>
          StoreMetaBlock_literal mb ringbuffer mask literal_split_code
            literal_codes st)
       st)
  = size_t (body_pos st + insert_length).
Proof.
  intros Hpos Hnn. rewrite <- (Z2Nat.id insert_length) by exact Hnn.
  induction (Z.to_nat insert_length) as [|n IH].
  - rewrite for_range_done by lia. rewrite Z.add_0_r. exact Hpos.
  - rewrite Nat2Z.inj_succ, <- Z.add_1_r, for_range_last by lia.
    rewrite StoreMetaBlock_literal_pos, IH, size_t_add_l. f_equal. lia.
Qed.

Lemma StoreMetaBlock_command_pos (i : Z) (st : BodyState) :
  body_pos st = size_t (body_pos st) ->
  0 <= insert_length_ (vget (cmds mb) i) ->
  body_pos
    (StoreMetaBlock_command mb ringbuffer mask end_pos
       literal_split_code command_split_code distance_split_code
       literal_codes command_codes distance_codes i st)
  = size_t (body_pos st +
            (insert_length_ (vget (cmds mb) i) + copy_length_ (vget (cmds mb) i))).
Proof.
  intros Hpos Hins. unfold StoreMetaBlock_command.
  destruct (MoveAndEncode command_split_code (body_command_it st) (body_sink st))
    as [command_it s].
  set (cmd := vget (cmds mb) i) in *.
  set (st1 := for_range 0 _ _ _).
  assert (Hst1 : body_pos st1 = size_t (body_pos st + insert_length_ cmd))
    by (apply (StoreMetaBlock_literals_pos _
                 (mkBodyState (body_pos st) (body_literal_it st) command_it
                    (body_distance_it st) _)); assumption).
  destruct ((body_pos st1 <? end_pos) && negb (distance_prefix_ cmd =? 65535)).
  - destruct (MoveAndEncode distance_split_code _ _). cbn [body_pos].
    rewrite Hst1, size_t_add_l. f_equal. lia.
  - cbn [body_pos]. rewrite Hst1, size_t_add_l. f_equal. lia.
Qed.

Lemma StoreMetaBlock_commands_pos (n : nat) (st : BodyState) :
  body_pos st = size_t (body_pos st) ->
  Forall (fun cmd => 0 <= insert_length_ cmd) (cmds mb) ->
  (n <= length (cmds mb))%nat ->
  body_pos
    (for_range 0 (Z.of_nat n)
       (StoreMetaBlock_command mb ringbuffer mask end_pos
          literal_split_code command_split_code distance_split_code
          literal_codes command_codes distance_codes)
       st)
  = size_t (body_pos st + total_length (take n (cmds mb))).
Proof.
  intros Hpos Hins. induction n as [|n IH]; intros Hn.
  - rewrite for_range_done by lia. simpl. rewrite Z.add_0_r. exact Hpos.
  - rewrite Nat2Z.inj_succ, <- Z.add_1_r, for_range_last by lia.
    assert (Hlook : cmds mb !! n = Some (vget (cmds mb) (Z.of_nat n))).
    { rewrite <- (Nat2Z.id n) at 1. apply lookup_vget. lia. }
    rewrite StoreMetaBlock_command_pos.
    + rewrite IH by lia. rewrite size_t_add_l.
      rewrite (take_S_r _ _ _ Hlook), total_length_app.
      change (total_length [vget (cmds mb) (Z.of_nat n)])
        with (insert_length_ (vget (cmds mb) (Z.of_nat n)) +
              copy_length_ (vget (cmds mb) (Z.of_nat n)) + 0).
      f_equal. lia.
    + rewrite IH by lia. unfold size_t. rewrite Z.mod_mod by lia. reflexivity.
    + rewrite Forall_forall in Hins. apply Hins.
      eapply list_elem_of_lookup_2, Hlook.
Qed.

End Position.

(** C8: when [StoreMetaBlock] returns, the position is the one it
    started from plus the meta-block length, the sum over all commands of
    [insert_length + copy_length].  Positions and the length are [size_t]
    values, so the sums are taken modulo 2^64; they are the plain sums
    whenever the end position is below 2^64. *)
Theorem StoreMetaBlock_position `{Collaborators}
    (mb : MetaBlock) (ringbuffer : mem) (mask pos : Z) (s : BitSink) :
  0 <= pos < 2 ^ 64 ->
  Forall (fun cmd => 0 <= insert_length_ cmd) (cmds mb) ->
  (StoreMetaBlock mb ringbuffer mask pos s).1
  = size_t (pos + MetaBlockLength (cmds mb)) /\
  MetaBlockLength (cmds mb) = size_t (total_length (cmds mb)) /\
  (Forall (fun cmd => 0 <= copy_length_ cmd) (cmds mb) ->
   pos + total_length (cmds mb) < 2 ^ 64 ->
   MetaBlockLength (cmds mb) = total_length (cmds mb) /\
   (StoreMetaBlock mb ringbuffer mask pos s).1 = pos + total_length (cmds mb)).
Proof.
  intros Hpos Hins.
  assert (Hend : (StoreMetaBlock mb ringbuffer mask pos s).1
                 = size_t (pos + total_length (cmds mb))).
  { unfold StoreMetaBlock.
    destruct (BuildAndEncodeBlockSplitCode (literal_split mb) _ _)
      as [literal_split_code s1].
    destruct (BuildAndEncodeBlockSplitCode (command_split mb) _ _)
      as [command_split_code s2].
    destruct (BuildAndEncodeBlockSplitCode (distance_split mb) _ _)
      as [distance_split_code s3].
    cbn [fst].
    rewrite StoreMetaBlock_commands_pos.
    - cbn [body_pos]. rewrite firstn_all. reflexivity.
    - cbn [body_pos]. symmetry. apply size_t_small, Hpos.
    - exact Hins.
    - lia. }
  rewrite MetaBlockLength_total, size_t_add_r.
  split; [exact Hend |]. split; [reflexivity |].
  intros Hcopy Hfit.
  assert (Hnn : 0 <= total_length (cmds mb)).
  { clear - Hins Hcopy. induction (cmds mb) as [|cmd l IH]; [simpl; lia |].
    inversion Hins; inversion Hcopy; subst.
    unfold total_length in *. simpl. specialize (IH ltac:(assumption)
      ltac:(assumption)). lia. }
  rewrite Hend, !size_t_small by lia. split; reflexivity.
Qed.

Lemma StoreMetaBlock_position_witness :
  0 <= 100 < 2 ^ 64 /\
  Forall (fun cmd => 0 <= insert_length_ cmd) (cmds example_meta_block) /\
  MetaBlockLength (cmds example_meta_block) = 10 /\
  (StoreMetaBlock (H := example_collaborators) example_meta_block
     (fun _ => 65) kRingBufferMask 100 empty_sink).1 = 110.
Proof.
  assert (Hpos : 0 <= 100 < 2 ^ 64) by lia.
  assert (Hins : Forall (fun cmd => 0 <= insert_length_ cmd)
                   (cmds example_meta_block))
    by (repeat constructor; simpl; lia).
  split; [exact Hpos |]. split; [exact Hins |].
  destruct (StoreMetaBlock_position (H := example_collaborators)
              example_meta_block (fun _ => 65) kRingBufferMask 100 empty_sink
              Hpos Hins) as (_ & _ & Hexact).
  apply Hexact.
  - repeat constructor; simpl; lia.
  - vm_compute. reflexivity.
Defined.

(** ** Move to front *)

Lemma vset_of_nat {A} (l : list A) (n : nat) (x : A) :
  vset l (Z.of_nat n) x = <[n := x]> l.
Proof.
  unfold vset. destruct (Z.ltb_spec (Z.of_nat n) 0); [lia |].
  rewrite Nat2Z.id. reflexivity.
Qed.

Lemma MoveToFront_shift_spec (fuel : nat) :
  forall (v : list Z) (n : nat),
    (n <= fuel)%nat -> (n < length v)%nat ->
    MoveToFront_shift fuel v (Z.of_nat n) = take 1 v ++ take n v ++ drop (S n) v.
Proof.
  induction fuel as [|fuel IH]; intros v n Hfuel Hn.
  - replace n with 0%nat by lia. simpl MoveToFront_shift.
    rewrite take_0, app_nil_l. symmetry. apply take_drop.
  - cbn [MoveToFront_shift].
    destruct n as [|n].
    + simpl (0 <? Z.of_nat 0). cbv iota.
      rewrite take_0, app_nil_l. symmetry. apply take_drop.
    + destruct (Z.ltb_spec 0 (Z.of_nat (S n))); [| lia].
      replace (Z.of_nat (S n) - 1) with (Z.of_nat n) by lia.
      rewrite vget_of_nat, vset_of_nat.
      destruct (lookup_lt_is_Some_2 v n ltac:(lia)) as [x Hx].
      rewrite (list_lookup_total_correct _ _ _ Hx).
      rewrite IH by (rewrite ?length_insert; lia).
      rewrite !take_insert_ge by lia.
      rewrite drop_insert_ge by lia. rewrite Nat.sub_diag.
      destruct (lookup_lt_is_Some_2 v (S n) ltac:(lia)) as [y Hy].
      rewrite (drop_S _ _ _ Hy). cbn [insert list_insert].
      rewrite (take_S_r _ _ _ Hx), <- !app_assoc. reflexivity.
Qed.

Lemma MoveToFront_spec (v : list Z) (n : nat) (x : Z) :
  v !! n = Some x ->
  MoveToFront v (Z.of_nat n) = x :: take n v ++ drop (S n) v.
Proof.
  intros Hx. pose proof (lookup_lt_Some _ _ _ Hx) as Hn.
  unfold MoveToFront. rewrite Nat2Z.id.
  rewrite MoveToFront_shift_spec by lia.
  rewrite vget_of_nat, (list_lookup_total_correct _ _ _ Hx).
  destruct v as [|y v]; [simpl in Hn; lia |].
  reflexivity.
Qed.

Lemma IndexOf_from_spec (v : list Z) (value : Z) :
  forall i : Z,
    value ∈ v ->
    exists n : nat,
      IndexOf_from v i value = i + Z.of_nat n /\ v !! n = Some value.
Proof.
  induction v as [|x v IH]; intros i Hin.
  - inversion Hin.
  - cbn [IndexOf_from]. destruct (Z.eqb_spec x value) as [->|Hne].
    + exists 0%nat. split; [lia | reflexivity].
    + apply elem_of_cons in Hin as [Heq|Hin]; [congruence |].
      destruct (IH (i + 1) Hin) as (n & Hidx & Hlook).
      exists (S n). split; [lia | exact Hlook].
Qed.

Lemma IndexOf_spec (v : list Z) (value : Z) :
  value ∈ v ->
  exists n : nat, IndexOf v value = Z.of_nat n /\ v !! n = Some value.
Proof.
  intros Hin. destruct (IndexOf_from_spec v value 0 Hin) as (n & Hidx & Hlook).
  exists n. split; [unfold IndexOf; lia | exact Hlook].
Qed.

Lemma elem_of_moved (v : list Z) (n : nat) (x y : Z) :
  v !! n = Some x -> y ∈ v -> y ∈ x :: take n v ++ drop (S n) v.
Proof.
  intros Hx Hy. rewrite <- (take_drop_middle _ _ _ Hx) in Hy.
  rewrite !elem_of_app, elem_of_cons in Hy.
  rewrite elem_of_cons, elem_of_app. tauto.
Qed.

(** The initial move-to-front list is [0, 1, ..., size - 1]. *)
Lemma initial_mtf (size : nat) :
  for_range 0 (Z.of_nat size) (fun i mtf => vset mtf i i)
    (replicate size 0)
  = seqZ 0 (Z.of_nat size).
Proof.
  assert (Hgen : forall k : nat, (k <= size)%nat ->
            for_range 0 (Z.of_nat k) (fun i mtf => vset mtf i i)
              (replicate size 0)
            = seqZ 0 (Z.of_nat k) ++ replicate (size - k) 0).
  { induction k as [|k IH]; intros Hk.
    - rewrite for_range_done by lia. rewrite Nat.sub_0_r. reflexivity.
    - rewrite Nat2Z.inj_succ, <- Z.add_1_r, for_range_last by lia.
      rewrite IH by lia. rewrite vset_of_nat.
      replace (size - k)%nat with (S (size - S k)) by lia.
      rewrite replicate_S.
      replace k with (length (seqZ 0 (Z.of_nat k)) + 0)%nat at 1
        by (rewrite length_seqZ; lia).
      rewrite insert_app_r. cbn [insert list_insert].
      rewrite seqZ_app by lia. rewrite (seqZ_cons _ 1) by lia.
      rewrite (seqZ_nil _ (Z.pred 1)) by lia.
      rewrite <- app_assoc. reflexivity. }
  rewrite Hgen by lia. rewrite Nat.sub_diag. apply app_nil_r.
Qed.

(** The loop of [MoveToFrontTransform] computes [move_to_front_indices]. *)
Lemma MoveToFrontTransform_loop (v : list Z) (k : nat) :
  forall (lo : nat) (mtf done : list Z),
    length done = lo ->
    (lo + k)%nat = length v ->
    snd (for_range (Z.of_nat lo) (Z.of_nat (length v))
           (fun i '(mtf, result) =>
              let index := IndexOf mtf (vget v i) in
              (MoveToFront mtf index, vset result i index))
           (mtf, done ++ replicate k 0))
    = done ++ move_to_front_indices mtf (drop lo v).
Proof.
  induction k as [|k IH]; intros lo mtf done Hdone Hlen.
  - rewrite for_range_done by lia.
    rewrite drop_ge by lia. reflexivity.
  - rewrite for_range_step by lia. cbv beta iota zeta.
    destruct (lookup_lt_is_Some_2 v lo ltac:(lia)) as [x Hx].
    rewrite (drop_S _ _ _ Hx). cbn [move_to_front_indices].
    rewrite vget_of_nat, (list_lookup_total_correct _ _ _ Hx).
    rewrite vset_of_nat.
    rewrite insert_app_r_alt by lia.
    replace (lo - length done)%nat with 0%nat by lia.
    cbn [insert list_insert replicate].
    replace (Z.of_nat lo + 1) with (Z.of_nat (S lo)) by lia.
    rewrite (cons_middle (IndexOf mtf x) done), app_assoc.
    rewrite IH by (rewrite ?length_app; simpl; lia).
    rewrite <- app_assoc. reflexivity.
Qed.

Lemma max_element_ge (v : list Z) (x : Z) : x ∈ v -> x <= max_element v.
Proof.
  destruct v as [|y v]; [intros Hin; inversion Hin |].
  unfold max_element.
  assert (Hfold : forall (l : list Z) (a : Z),
            a <= fold_left Z.max l a /\
            forall z, z ∈ l -> z <= fold_left Z.max l a).
  { induction l as [|b l IH]; intros a; simpl.
    - split; [lia |]. intros z Hz. inversion Hz.
    - destruct (IH (Z.max a b)) as [Ha Hl]. split; [lia |].
      intros z Hz. apply elem_of_cons in Hz as [->|Hz]; [lia | auto]. }
  intros Hin. destruct (Hfold v y) as [Hy Hv].
  apply elem_of_cons in Hin as [->|Hin]; [exact Hy | auto].
Qed.

Lemma MoveToFrontTransform_indices (v : list Z) :
  Forall (fun x => 0 <= x) v ->
  MoveToFrontTransform v
  = move_to_front_indices (seqZ 0 (max_element v + 1)) v.
Proof.
  intros Hnn. destruct v as [|x v]; [reflexivity |].
  unfold MoveToFrontTransform.
  assert (Hmax : 0 <= max_element (x :: v)).
  { pose proof (max_element_ge (x :: v) x ltac:(left)).
    inversion Hnn; subst. lia. }
  rewrite <- (Z2Nat.id (max_element (x :: v) + 1)) at 1 by lia.
  rewrite initial_mtf, Z2Nat.id by lia.
  rewrite <- (app_nil_l (replicate _ 0)).
  change 0 with (Z.of_nat 0) at 1.
  rewrite (MoveToFrontTransform_loop (x :: v) (length (x :: v)) 0)
    by reflexivity.
  reflexivity.
Qed.

(** Decoding the indices gives back the input, also when the decoder's
    list is longer than the encoder's. *)
Lemma move_to_front_roundtrip (v : list Z) :
  forall mtf tail : list Z,
    Forall (fun x => x ∈ mtf) v ->
    inverse_move_to_front (mtf ++ tail) (move_to_front_indices mtf v) = v /\
    Forall (fun x => 0 <= x) (move_to_front_indices mtf v).
Proof.
  induction v as [|x v IH]; intros mtf tail Hin.
  - split; [reflexivity | constructor].
  - inversion Hin as [|? ? Hx Hv]; subst.
    destruct (IndexOf_spec mtf x Hx) as (n & Hidx & Hlook).
    cbn [move_to_front_indices inverse_move_to_front]. rewrite Hidx.
    assert (Hlook' : (mtf ++ tail) !! n = Some x)
      by (apply lookup_app_l_Some; exact Hlook).
    pose proof (lookup_lt_Some _ _ _ Hlook) as Hn.
    rewrite vget_of_nat, (list_lookup_total_correct _ _ _ Hlook').
    rewrite (MoveToFront_spec _ _ _ Hlook), (MoveToFront_spec _ _ _ Hlook').
    rewrite take_app_le, drop_app_le by lia.
    destruct (IH (x :: take n mtf ++ drop (S n) mtf) tail) as [Hrt Hpos].
    { eapply Forall_impl; [exact Hv |]. intros y Hy.
      apply elem_of_moved; assumption. }
    split.
    + f_equal. rewrite <- Hrt at 2.
      simpl. rewrite <- app_assoc. reflexivity.
    + constructor; [lia | exact Hpos].
Qed.

(** ** Zero run lengths *)

Lemma InverseRunLengthCodeZeros_app (m : Z) (symbols1 : list Z) :
  forall extra1 symbols2 extra2 : list Z,
    length symbols1 = length extra1 ->
    InverseRunLengthCodeZeros m (symbols1 ++ symbols2) (extra1 ++ extra2)
    = InverseRunLengthCodeZeros m symbols1 extra1
      ++ InverseRunLengthCodeZeros m symbols2 extra2.
Proof.
  induction symbols1 as [|sym symbols1 IH];
    intros [|extra extra1] symbols2 extra2 Hlen; try discriminate Hlen.
  - reflexivity.
  - cbn [app InverseRunLengthCodeZeros]. rewrite IH by (simpl in Hlen; lia).
    apply app_assoc.
Qed.

Lemma shiftl_2 (m : Z) : 0 <= m -> 2 ≪ m = 2 ^ (m + 1).
Proof.
  intros Hm. rewrite Z.shiftl_mul_pow2, Z.pow_add_r by lia. lia.
Qed.

(** The tokens of a run decode to the run. *)
Lemma code_run_spec (m : Z) (fuel : nat) :
  0 <= m ->
  forall (reps : Z) (v_out extra_bits : list Z),
    0 <= reps <= Z.of_nat fuel ->
    exists tokens extras : list Z,
      code_run fuel reps m v_out extra_bits
      = (v_out ++ tokens, extra_bits ++ extras) /\
      length tokens = length extras /\
      InverseRunLengthCodeZeros m tokens extras = replicate (Z.to_nat reps) 0.
Proof.
  intros Hm. induction fuel as [|fuel IH]; intros reps v_out extra_bits Hreps.
  - exists [], []. replace reps with 0 by lia.
    rewrite !app_nil_r. repeat split.
  - cbn [code_run]. destruct (Z.eqb_spec reps 0) as [->|Hne].
    + exists [], []. rewrite !app_nil_r. repeat split.
    + pose proof (Z.pow_pos_nonneg 2 m ltac:(lia) Hm) as Hpow.
      destruct (Z.ltb_spec reps (2 ≪ m)) as [Hsmall|Hlarge].
      * exists [Log2Floor reps], [reps - (1 ≪ Log2Floor reps)].
        split; [reflexivity |]. split; [reflexivity |].
        unfold Log2Floor. destruct (Z.leb_spec reps 0); [lia |].
        cbn [InverseRunLengthCodeZeros].
        rewrite shiftl_2 in Hsmall by exact Hm.
        apply Z.log2_lt_pow2 in Hsmall; [| lia].
        destruct (Z.leb_spec (Z.log2 reps) m); [| lia].
        rewrite app_nil_r. f_equal. lia.
      * rewrite shiftl_2 in Hlarge |- * by exact Hm.
        rewrite Z.pow_add_r, Z.pow_1_r in Hlarge |- * by lia.
        destruct (IH (reps - (2 ^ m * 2 - 1)) (v_out ++ [m])
                    (extra_bits ++ [(1 ≪ m) - 1]) ltac:(lia))
          as (tokens & extras & Hrun & Hlen & Hdec).
        exists (m :: tokens), (((1 ≪ m) - 1) :: extras).
        split; [rewrite Hrun, <- !app_assoc; reflexivity |].
        split; [simpl; lia |].
        cbn [InverseRunLengthCodeZeros].
        destruct (Z.leb_spec m m); [| lia].
        rewrite Hdec, <- replicate_add. f_equal.
        rewrite Z.shiftl_1_l. lia.
Qed.

(** Counting zeros from position [k] finds a block of zeros there. *)
Lemma count_zero_spec (v_in : list Z) (fuel : nat) :
  forall (k : nat) (reps : Z),
    exists z : nat,
      count_zero fuel v_in (Z.of_nat k) reps
      = (Z.of_nat (k + z), reps + Z.of_nat z) /\
      drop k v_in = replicate z 0 ++ drop (k + z) v_in /\
      (k + z <= Nat.max k (length v_in))%nat.
Proof.
  induction fuel as [|fuel IH]; intros k reps.
  - exists 0%nat. rewrite !Nat.add_0_r, Z.add_0_r. repeat split. lia.
  - cbn [count_zero].
    destruct (Z.ltb_spec (Z.of_nat k) (Z.of_nat (length v_in))) as [Hlt|Hge];
      cbn [andb].
    + destruct (lookup_lt_is_Some_2 v_in k ltac:(lia)) as [x Hx].
      rewrite vget_of_nat, (list_lookup_total_correct _ _ _ Hx).
      destruct (Z.eqb_spec x 0) as [->|Hne].
      * replace (Z.of_nat k + 1) with (Z.of_nat (S k)) by lia.
        destruct (IH (S k) (reps + 1)) as (z & Hcount & Hdrop & Hbound).
        exists (S z). rewrite Hcount. split; [f_equal; lia |].
        split; [| lia].
        rewrite (drop_S _ _ _ Hx), Hdrop.
        replace (k + S z)%nat with (S k + z)%nat by lia. reflexivity.
      * exists 0%nat. rewrite !Nat.add_0_r, Z.add_0_r. repeat split. lia.
    + exists 0%nat. rewrite !Nat.add_0_r, Z.add_0_r. repeat split. lia.
Qed.

Lemma code_zeros_loop_spec (v_in : list Z) (m : Z) (fuel : nat) :
  0 <= m ->
  Forall (fun x => 0 <= x) v_in ->
  forall (i : nat) (v_out extra_bits : list Z),
    length v_out = length extra_bits ->
    (i <= length v_in)%nat ->
    (length v_in - i <= fuel)%nat ->
    InverseRunLengthCodeZeros m
      (code_zeros_loop fuel v_in (Z.of_nat i) m v_out extra_bits).1
      (code_zeros_loop fuel v_in (Z.of_nat i) m v_out extra_bits).2
    = InverseRunLengthCodeZeros m v_out extra_bits ++ drop i v_in.
Proof.
  intros Hm Hnn.
  induction fuel as [|fuel IH]; intros i v_out extra_bits Hlen Hi Hfuel.
  - cbn [code_zeros_loop fst snd]. rewrite drop_ge by lia.
    rewrite app_nil_r. reflexivity.
  - cbn [code_zeros_loop].
    destruct (Z.ltb_spec (Z.of_nat i) (Z.of_nat (length v_in))) as [Hlt|Hge].
    + destruct (lookup_lt_is_Some_2 v_in i ltac:(lia)) as [x Hx].
      rewrite vget_of_nat, (list_lookup_total_correct _ _ _ Hx).
      rewrite (drop_S _ _ _ Hx).
      destruct (Z.eqb_spec x 0) as [->|Hne]; cbn [negb].
      * replace (Z.of_nat i + 1) with (Z.of_nat (S i)) by lia.
        destruct (count_zero_spec v_in (length v_in) (S i) 1)
          as (z & Hcount & Hdrop & Hbound).
        rewrite Hcount. cbn [snd].
        destruct (code_run_spec m (Z.to_nat (1 + Z.of_nat z)) Hm
                    (1 + Z.of_nat z) v_out extra_bits ltac:(lia))
          as (tokens & extras & Hrun & Hlen' & Hdec).
        rewrite Hrun.
        replace (Z.of_nat i + (1 + Z.of_nat z)) with (Z.of_nat (S i + z))
          by lia.
        rewrite IH by (rewrite ?length_app; lia).
        rewrite InverseRunLengthCodeZeros_app by exact Hlen.
        rewrite Hdec, Hdrop, <- app_assoc.
        replace (Z.to_nat (1 + Z.of_nat z)) with (S z) by lia.
        reflexivity.
      * replace (Z.of_nat i + 1) with (Z.of_nat (S i)) by lia.
        rewrite IH by (rewrite ?length_app; simpl; lia).
        rewrite InverseRunLengthCodeZeros_app by exact Hlen.
        cbn [InverseRunLengthCodeZeros].
        assert (0 <= x).
        { rewrite Forall_forall in Hnn. apply Hnn.
          eapply list_elem_of_lookup_2, Hx. }
        destruct (Z.leb_spec (x + m) m); [lia |].
        rewrite <- app_assoc. cbn [app]. do 3 f_equal. lia.
    + cbn [fst snd]. rewrite drop_ge by lia. rewrite app_nil_r. reflexivity.
Qed.

Lemma RunLengthCodeZeros_roundtrip (v_in : list Z) (max_run_length_prefix : Z) :
  0 <= max_run_length_prefix ->
  Forall (fun x => 0 <= x) v_in ->
  InverseRunLengthCodeZeros
    (RunLengthCodeZeros v_in max_run_length_prefix [] []).1.1
    (RunLengthCodeZeros v_in max_run_length_prefix [] []).1.2
    (RunLengthCodeZeros v_in max_run_length_prefix [] []).2
  = v_in.
Proof.
  intros Hm Hnn. unfold RunLengthCodeZeros.
  set (max_reps := max_reps_loop _ _ _ _).
  set (m := Z.min _ _).
  assert (Hm' : 0 <= m).
  { unfold m, Log2Floor. destruct (Z.ltb_spec 0 max_reps); [| lia].
    destruct (Z.leb_spec max_reps 0); [lia |].
    pose proof (Z.log2_nonneg max_reps). lia. }
  pose proof (code_zeros_loop_spec v_in m (length v_in) Hm' Hnn 0 [] []
                ltac:(reflexivity) ltac:(lia) ltac:(lia)) as Hloop.
  change (Z.of_nat 0) with 0 in Hloop.
  destruct (code_zeros_loop (length v_in) v_in 0 m [] []) as [v_out extra_bits].
  exact Hloop.
Qed.

(** C9: for a vector [v] of non-negative integers, the move-to-front
    transform followed by [RunLengthCodeZeros] (for any
    [max_run_length_prefix >= 0]) is undone by the inverse run-length
    decoding, with the prefix that [RunLengthCodeZeros] settled on,
    followed by the inverse move-to-front transform over a list
    [0 .. size - 1] that holds every entry of [v]. *)
Theorem move_to_front_run_length_roundtrip
    (v : list Z) (max_run_length_prefix size : Z) :
  Forall (fun x => 0 <= x) v ->
  0 <= max_run_length_prefix ->
  max_element v < size ->
  let coded :=
    RunLengthCodeZeros (MoveToFrontTransform v) max_run_length_prefix [] [] in
  InverseMoveToFrontTransform size
    (InverseRunLengthCodeZeros coded.1.1 coded.1.2 coded.2)
  = v.
Proof.
  intros Hnn Hm Hsize coded. subst coded.
  assert (Hmax : 0 <= max_element v + 1).
  { destruct v as [|x v]; [simpl; lia |].
    pose proof (max_element_ge (x :: v) x ltac:(left)).
    inversion Hnn; subst. lia. }
  destruct (move_to_front_roundtrip v (seqZ 0 (max_element v + 1))
              (seqZ (max_element v + 1) (size - (max_element v + 1))))
    as [Hrt Hpos].
  { rewrite Forall_forall in Hnn |- *. intros x Hx.
    apply elem_of_seqZ. pose proof (max_element_ge v x Hx).
    specialize (Hnn x Hx). lia. }
  rewrite MoveToFrontTransform_indices by exact Hnn.
  rewrite RunLengthCodeZeros_roundtrip by assumption.
  unfold InverseMoveToFrontTransform.
  replace size with ((max_element v + 1) + (size - (max_element v + 1))) at 1
    by lia.
  rewrite seqZ_app by lia. exact Hrt.
Qed.

Lemma move_to_front_run_length_roundtrip_witness :
  Forall (fun x => 0 <= x) [2; 2; 2; 2; 2; 2; 0; 1; 1; 1] /\
  0 <= 1 /\
  max_element [2; 2; 2; 2; 2; 2; 0; 1; 1; 1] < 4 /\
  MoveToFrontTransform [2; 2; 2; 2; 2; 2; 0; 1; 1; 1]
  = [2; 0; 0; 0; 0; 0; 1; 2; 0; 0] /\
  RunLengthCodeZeros [2; 0; 0; 0; 0; 0; 1; 2; 0; 0] 1 [] []
  = (1, [3; 1; 1; 2; 3; 1], [0; 1; 0; 0; 0; 0]) /\
  InverseMoveToFrontTransform 4
    (InverseRunLengthCodeZeros 1 [3; 1; 1; 2; 3; 1] [0; 1; 0; 0; 0; 0])
  = [2; 2; 2; 2; 2; 2; 0; 1; 1; 1].
Proof.
  assert (Hnn : Forall (fun x => 0 <= x) [2; 2; 2; 2; 2; 2; 0; 1; 1; 1])
    by (repeat constructor; lia).
  assert (Hm : 0 <= 1) by lia.
  assert (Hsize : max_element [2; 2; 2; 2; 2; 2; 0; 1; 1; 1] < 4)
    by (vm_compute; reflexivity).
  split; [exact Hnn |]. split; [exact Hm |]. split; [exact Hsize |].
  split; [reflexivity |]. split; [reflexivity |].
  exact (move_to_front_run_length_roundtrip
           [2; 2; 2; 2; 2; 2; 0; 1; 1; 1] 1 4 Hnn Hm Hsize).
Defined.

(** ** Loops that are given fuel

    The bounded loops above never stop for lack of fuel: more fuel does
    not change what they return. *)

Lemma skip_nonzero_bounds (v_in : list Z) (fuel : nat) :
  forall i : Z,
    i <= skip_nonzero fuel v_in i /\
    (i < Z.of_nat (length v_in) -> vget v_in i <> 0 -> (0 < fuel)%nat ->
     i < skip_nonzero fuel v_in i).
Proof.
  induction fuel as [|fuel IH]; intros i.
  - simpl. split; [lia |]. intros _ _ Hfuel. lia.
  - cbn [skip_nonzero].
    destruct (Z.ltb_spec i (Z.of_nat (length v_in))) as [Hlt|Hge]; cbn [andb].
    + destruct (Z.eqb_spec (vget v_in i) 0) as [Hz|Hnz]; cbn [negb].
      * split; [lia |]. intros _ Hne. contradiction.
      * destruct (IH (i + 1)) as [Hle _]. split; [lia |]. intros _ _ _. lia.
    + split; [lia |]. intros Hlt. lia.
Qed.

Lemma count_zero_bounds (v_in : list Z) (fuel : nat) :
  forall k reps : Z,
    k <= (count_zero fuel v_in k reps).1 /\
    (k < Z.of_nat (length v_in) -> vget v_in k = 0 -> (0 < fuel)%nat ->
     k < (count_zero fuel v_in k reps).1).
Proof.
  induction fuel as [|fuel IH]; intros k reps.
  - simpl. split; [lia |]. intros _ _ Hfuel. lia.
  - cbn [count_zero].
    destruct (Z.ltb_spec k (Z.of_nat (length v_in))) as [Hlt|Hge]; cbn [andb].
    + destruct (Z.eqb_spec (vget v_in k) 0) as [Hz|Hnz].
      * destruct (IH (k + 1) (reps + 1)) as [Hle _].
        split; [lia |]. intros _ _ _. lia.
      * cbn [fst]. split; [lia |]. intros _ Hz. contradiction.
    + cbn [fst]. split; [lia |]. intros Hlt. lia.
Qed.

Lemma max_reps_loop_fuel (v_in : list Z) (fuel : nat) :
  forall (extra : nat) (i max_reps : Z),
    0 <= i ->
    Z.of_nat (length v_in) - i <= Z.of_nat fuel ->
    max_reps_loop (fuel + extra) v_in i max_reps
    = max_reps_loop fuel v_in i max_reps.
Proof.
  induction fuel as [|fuel IH]; intros extra i max_reps Hi Hfuel.
  - destruct extra as [|extra]; [reflexivity |]. cbn [Nat.add max_reps_loop].
    destruct (Z.ltb_spec i (Z.of_nat (length v_in))); [lia | reflexivity].
  - cbn [Nat.add max_reps_loop].
    destruct (Z.ltb_spec i (Z.of_nat (length v_in))) as [Hlt|]; [| reflexivity].
    assert (Hlen : (0 < length v_in)%nat) by lia.
    destruct (skip_nonzero_bounds v_in (length v_in) i) as [Hskip Hskip'].
    set (j := skip_nonzero (length v_in) v_in i) in *.
    destruct (count_zero_bounds v_in (length v_in) j 0) as [Hcount Hcount'].
    assert (Hadv : i < (count_zero (length v_in) v_in j 0).1).
    { destruct (Z.eq_dec (vget v_in i) 0) as [Hz|Hnz].
      - assert (j = i) as Hj.
        { unfold j. destruct (length v_in) as [|n]; [lia |].
          cbn [skip_nonzero]. rewrite Hz.
          rewrite andb_false_r. reflexivity. }
        rewrite Hj in *. apply Hcount'; assumption.
      - specialize (Hskip' Hlt Hnz Hlen). lia. }
    destruct (count_zero (length v_in) v_in j 0) as [i' reps].
    cbn [fst] in Hadv. apply IH; lia.
Qed.

Lemma compress_blocks_fuel `{Collaborators} (input : mem) (input_end : Z)
    (fuel : nat) :
  forall (extra : nat) (input_buffer max_output_size encoded_size : Z)
         (encoded_buffer : mem) (c : BrotliCompressor),
    input_end - input_buffer <= Z.of_nat fuel ->
    compress_blocks (fuel + extra) input input_buffer input_end
      max_output_size encoded_size encoded_buffer c
    = compress_blocks fuel input input_buffer input_end
        max_output_size encoded_size encoded_buffer c.
Proof.
  induction fuel as [|fuel IH];
    intros extra input_buffer max_output_size encoded_size encoded_buffer c
      Hfuel.
  - destruct extra as [|extra]; [reflexivity |]. cbn [Nat.add compress_blocks].
    destruct (Z.ltb_spec input_buffer input_end); [lia | reflexivity].
  - cbn [Nat.add compress_blocks].
    destruct (Z.ltb_spec input_buffer input_end) as [Hlt|]; [| reflexivity].
    change (1 ≪ kMetaBlockSizeBits) with 2097152.
    set (block_size :=
           if 2097152 >=? input_end - input_buffer
           then input_end - input_buffer else 2097152).
    assert (Hblock : 1 <= block_size).
    { unfold block_size.
      destruct (2097152 >=? input_end - input_buffer); lia. }
    destruct (WriteMetaBlock block_size (mem_offset input input_buffer)
                encoded_buffer encoded_size c) as [[c' output_size] buffer'].
    apply IH. lia.
Qed.

(** For a non-empty input a compressor is built. *)
Lemma BrotliCompressBuffer_builds_compressor `{Collaborators}
    (input_size : Z) (input_buffer : mem) (encoded_size : Z)
    (encoded_buffer : mem) :
  input_size <> 0 ->
  exists c,
    result_compressor
      (BrotliCompressBuffer input_size input_buffer encoded_size encoded_buffer)
    = Some c.
Proof.
  intros Hne. unfold BrotliCompressBuffer.
  destruct (Z.eqb_spec input_size 0) as [|_]; [contradiction |].
  destruct (compress_blocks _ _ _ _ _ _ _ _) as [[[c max_output] size] buffer].
  destruct (FinishStream buffer size c) as [[c' output_size] buffer'].
  eexists. reflexivity.
Qed.

(** * Properties of the other functions *)

(** ** The size field *)

Lemma EncodeSize_bytes_S (fuel : nat) (len : Z) (len_bytes : list Z) :
  EncodeSize_bytes (S fuel) len len_bytes =
  if 0 <? len ≫ 8
  then EncodeSize_bytes fuel (len ≫ 8) (len_bytes ++ [Z.land len 255])
  else len_bytes ++ [Z.land len 255].
Proof. reflexivity. Qed.

Lemma EncodeSize_bytes_spec (fuel : nat) :
  forall (len : Z) (len_bytes : list Z),
    0 <= len < 256 ^ Z.of_nat (S fuel) ->
    exists bytes : list Z,
      EncodeSize_bytes (S fuel) len len_bytes = len_bytes ++ bytes /\
      (1 <= length bytes <= S fuel)%nat /\
      Forall (fun b => 0 <= b < 256) bytes /\
      bytes_value bytes = len /\
      (0 < len -> 256 ^ (Z.of_nat (length bytes) - 1) <= len).
Proof.
  induction fuel as [|fuel IH]; intros len len_bytes Hlen.
  - exists [len]. rewrite EncodeSize_bytes_S.
    change (256 ^ Z.of_nat 1) with 256 in Hlen.
    assert (Hhi : len ≫ 8 = 0).
    { rewrite Z.shiftr_div_pow2 by lia. apply Z.div_small. simpl. lia. }
    rewrite Hhi. simpl (0 <? 0). cbv iota.
    change 255 with (Z.ones 8). rewrite Z.land_ones by lia.
    rewrite Z.mod_small by (simpl; lia).
    split; [reflexivity |]. split; [simpl; lia |].
    split; [repeat constructor; lia |].
    split; [unfold bytes_value; simpl; lia |]. intros ?. simpl. lia.
  - rewrite (EncodeSize_bytes_S (S fuel)).
    assert (Hdiv : len ≫ 8 = len / 256)
      by (rewrite Z.shiftr_div_pow2 by lia; reflexivity).
    assert (Hmod : Z.land len 255 = len mod 256)
      by (change 255 with (Z.ones 8); rewrite Z.land_ones by lia; reflexivity).
    pose proof (Z.div_mod len 256 ltac:(lia)) as Hsplit.
    pose proof (Z.mod_pos_bound len 256 ltac:(lia)) as Hbyte.
    rewrite Hdiv, Hmod.
    destruct (Z.ltb_spec 0 (len / 256)) as [Hmore|Hlast].
    + destruct (IH (len / 256) (len_bytes ++ [len mod 256])) as
        (bytes & Hrun & Hn & Hrange & Hvalue & Hmin).
      { split; [lia |]. apply Z.div_lt_upper_bound; [lia |].
        rewrite <- Z.pow_succ_r by lia. rewrite <- Nat2Z.inj_succ. lia. }
      exists (len mod 256 :: bytes).
      split; [rewrite Hrun, <- app_assoc; reflexivity |].
      split; [simpl; lia |].
      split; [constructor; assumption |].
      split; [unfold bytes_value in *; simpl; lia |].
      intros _. specialize (Hmin Hmore).
      replace (Z.of_nat (length (len mod 256 :: bytes)) - 1)
        with (Z.succ (Z.of_nat (length bytes) - 1)) by (simpl; lia).
      rewrite Z.pow_succ_r by lia. lia.
    + exists [len mod 256].
      assert (len / 256 = 0) by (pose proof (Z.div_pos len 256); lia).
      split; [reflexivity |]. split; [simpl; lia |].
      split; [repeat constructor; lia |].
      split; [unfold bytes_value; simpl; lia |]. intros ?. simpl. lia.
Qed.

(** X1: [EncodeSize len] writes the number [n] of bytes of [len] in 3
    bits and then these [n] bytes, least significant first, 8 bits each.
    There is at least one byte, also for [len = 0]; the bytes hold [len]
    exactly and none is spent on leading zeros; and [n] fits the 3-bit
    field as long as [len < 2^56]. *)
Theorem EncodeSize_bytes_hold_len (len : Z) (s : BitSink) :
  0 <= len < 2 ^ 64 ->
  exists bytes : list Z,
    EncodeSize len s =
    emit ((3, Z.of_nat (length bytes)) :: ((fun b => (8, b)) <$> bytes)) s /\
    (1 <= length bytes <= 8)%nat /\
    Forall (fun b => 0 <= b < 256) bytes /\
    bytes_value bytes = len /\
    (0 < len -> 256 ^ (Z.of_nat (length bytes) - 1) <= len) /\
    (len < 2 ^ 56 -> (length bytes <= 7)%nat).
Proof.
  intros Hlen. unfold EncodeSize.
  destruct (EncodeSize_bytes_spec 7 len [] ltac:(simpl; lia))
    as (bytes & Hrun & Hn & Hrange & Hvalue & Hmin).
  rewrite Hrun, app_nil_l. exists bytes.
  split.
  { rewrite emit_cons.
    rewrite (for_range_fold_all bytes (fun b s => WriteBits 8 b s)).
    rewrite (fold_left_emit bytes (fun _ => 8) (fun b => b)). reflexivity. }
  split; [exact Hn |]. split; [exact Hrange |]. split; [exact Hvalue |].
  split; [exact Hmin |].
  intros Hsmall.
  destruct (Z.eq_dec len 0) as [->|Hpos].
  - vm_compute in Hrun. subst bytes. simpl. lia.
  - specialize (Hmin ltac:(lia)).
    destruct (Nat.le_gt_cases (length bytes) 7) as [|Hlong]; [assumption |].
    exfalso.
    assert (256 ^ 7 <= 256 ^ (Z.of_nat (length bytes) - 1))
      by (apply Z.pow_le_mono_r; lia).
    change (256 ^ 7) with (2 ^ 56) in *. lia.
Qed.

Lemma EncodeSize_bytes_hold_len_witness :
  0 <= 70000 < 2 ^ 64 /\
  exists bytes : list Z,
    EncodeSize 70000 empty_sink =
    emit ((3, Z.of_nat (length bytes)) :: ((fun b => (8, b)) <$> bytes))
      empty_sink /\
    (1 <= length bytes <= 8)%nat /\
    Forall (fun b => 0 <= b < 256) bytes /\
    bytes_value bytes = 70000 /\
    (0 < 70000 -> 256 ^ (Z.of_nat (length bytes) - 1) <= 70000) /\
    (70000 < 2 ^ 56 -> (length bytes <= 7)%nat).
Proof.
  assert (Hlen : 0 <= 70000 < 2 ^ 64) by lia.
  split; [exact Hlen |].
  exact (EncodeSize_bytes_hold_len 70000 empty_sink Hlen).
Defined.

(** ** The length field of a meta-block *)

Lemma nibbles_of_length (n : nat) :
  forall L : Z, length (nibbles_of n L) = n.
Proof. induction n as [|n IH]; intros L; simpl; [| rewrite IH]; reflexivity. Qed.

Lemma nibbles_of_range (n : nat) :
  forall L : Z, Forall (fun w => w.1 = 4 /\ 0 <= w.2 < 16) (nibbles_of n L).
Proof.
  induction n as [|n IH]; intros L; simpl; constructor; [| apply IH].
  simpl. split; [reflexivity |].
  change 15 with (Z.ones 4). rewrite Z.land_ones by lia.
  apply Z.mod_pos_bound. reflexivity.
Qed.

Lemma nibbles_of_value (n : nat) :
  forall L : Z, nibbles_value (nibbles_of n L) = L mod 16 ^ Z.of_nat n.
Proof.
  induction n as [|n IH]; intros L.
  - simpl. rewrite Z.mod_1_r. reflexivity.
  - cbn [nibbles_of]. unfold nibbles_value in *. cbn [foldr snd]. rewrite IH.
    change 15 with (Z.ones 4). rewrite Z.land_ones by lia.
    rewrite Z.shiftr_div_pow2 by lia.
    rewrite Nat2Z.inj_succ, Z.pow_succ_r by lia.
    rewrite Z.rem_mul_r by lia. reflexivity.
Qed.

(** X2: for every [L] with [0 <= L < 2^32], the length field that
    [EncodeMetaBlockLength] writes can be read back: after the 0 bit comes
    the number of nibbles in 3 bits and then that many 4-bit groups which,
    least significant first, hold exactly [L].  [L = 0] is written with no
    nibble at all, and the count fits its 3 bits as long as [L < 2^28]. *)
Theorem EncodeMetaBlockLength_holds_length (L : Z) (s : BitSink) :
  0 <= L < 2 ^ 32 ->
  exists nibbles : list (Z * Z),
    EncodeMetaBlockLength L s =
    emit ([(1, 0); (3, Z.of_nat (length nibbles))] ++ nibbles) s /\
    Forall (fun w => w.1 = 4 /\ 0 <= w.2 < 16) nibbles /\
    nibbles_value nibbles = L /\
    (L = 0 -> nibbles = []) /\
    (L < 2 ^ 28 -> (length nibbles <= 7)%nat).
Proof.
  intros [HL _].
  set (num_bits := Log2Floor L + 1).
  assert (Hnum : 0 <= num_bits /\ L < 2 ^ num_bits /\
                 (L = 0 -> num_bits = 0) /\ (L < 2 ^ 28 -> num_bits <= 28)).
  { unfold num_bits, Log2Floor.
    destruct (Z.leb_spec L 0) as [Hzero|Hpos].
    - assert (L = 0) by lia. subst L. simpl. lia.
    - pose proof (Z.log2_nonneg L). pose proof (Z.log2_spec L Hpos) as Hlog.
      split; [lia |]. split; [unfold Z.succ in Hlog; lia |].
      split; [lia |]. intros Hsmall.
      apply (Z.log2_lt_pow2 L 28) in Hsmall; lia. }
  destruct Hnum as (Hnn & Hlt & Hzero & Hfit).
  set (n := Z.to_nat (ceil_div num_bits 4)).
  assert (Hn : Z.of_nat n = (num_bits + 3) ≫ 2 /\
               num_bits <= 4 * Z.of_nat n < num_bits + 4).
  { unfold n, ceil_div. rewrite Z.shiftr_div_pow2 by lia.
    change (2 ^ 2) with 4. replace (num_bits + 4 - 1) with (num_bits + 3) by lia.
    assert (0 <= (num_bits + 3) / 4) by (apply Z.div_pos; lia).
    rewrite Z2Nat.id by lia. split; [reflexivity |].
    pose proof (Z.div_mod (num_bits + 3) 4 ltac:(lia)).
    pose proof (Z.mod_pos_bound (num_bits + 3) 4 ltac:(lia)). lia. }
  destruct Hn as (Hcount & Hlo & Hhi).
  exists (nibbles_of n L).
  split.
  { unfold EncodeMetaBlockLength. fold num_bits.
    rewrite EncodeMetaBlockLength_nibbles_spec by lia. fold n.
    destruct (Z.ltb_spec 0 (num_bits - 4 * Z.of_nat n)); [lia |].
    rewrite emit_app, nibbles_of_length, Hcount. reflexivity. }
  split; [apply nibbles_of_range |].
  split.
  { rewrite nibbles_of_value. apply Z.mod_small. split; [exact HL |].
    replace (16 ^ Z.of_nat n) with (2 ^ (4 * Z.of_nat n))
      by (rewrite Z.pow_mul_r by lia; reflexivity).
    eapply Z.lt_le_trans; [exact Hlt |]. apply Z.pow_le_mono_r; lia. }
  split.
  { intros HL0. specialize (Hzero HL0).
    assert (n = 0%nat) as -> by lia. reflexivity. }
  intros Hsmall. specialize (Hfit Hsmall). rewrite nibbles_of_length. lia.
Qed.

Lemma EncodeMetaBlockLength_holds_length_witness :
  0 <= 300 < 2 ^ 32 /\
  exists nibbles : list (Z * Z),
    EncodeMetaBlockLength 300 empty_sink =
    emit ([(1, 0); (3, Z.of_nat (length nibbles))] ++ nibbles) empty_sink /\
    Forall (fun w => w.1 = 4 /\ 0 <= w.2 < 16) nibbles /\
    nibbles_value nibbles = 300 /\
    (300 = 0 -> nibbles = []) /\
    (300 < 2 ^ 28 -> (length nibbles <= 7)%nat).
Proof.
  assert (H300 : 0 <= 300 < 2 ^ 32) by lia.
  split; [exact H300 |].
  exact (EncodeMetaBlockLength_holds_length 300 empty_sink H300).
Defined.

(** ** The empty Huffman code *)

(** Writing [a + b] bits at once is writing the low [a] bits and then the
    next [b] bits. *)
Lemma WriteBits_split (a b v : Z) (s : BitSink) :
  0 <= a -> 0 <= b ->
  WriteBits (a + b) v s = WriteBits b (v ≫ a) (WriteBits a v s).
Proof.
  intros Ha Hb. unfold WriteBits. cbn [storage_ix storage].
  f_equal; [lia |].
  revert b Hb. apply natlike_ind.
  - rewrite Z.add_0_r. rewrite (for_range_done 0 0) by lia. reflexivity.
  - intros b Hb IH.
    replace (a + Z.succ b) with ((a + b) + 1) by lia.
    replace (Z.succ b) with (b + 1) by lia.
    rewrite !for_range_last by lia. rewrite IH.
    rewrite Z.shiftr_spec by lia.
    replace (storage_ix s + a + b) with (storage_ix s + (a + b)) by lia.
    replace (b + a) with (a + b) by lia. reflexivity.
Qed.

Lemma max_bits_loop_ge (fuel : nat) :
  forall counter max_bits : Z, max_bits <= max_bits_loop fuel counter max_bits.
Proof.
  induction fuel as [|fuel IH]; intros counter max_bits; simpl; [lia |].
  destruct (counter =? 0); [lia |].
  specialize (IH (counter ≫ 1) (max_bits + 1)). lia.
Qed.

(** X3: a code without symbols ([count_ = 0]) is stored by one
    [WriteBits] of [3 + max_bits] bits with value 1.  In the stream this
    is the simple-code form: the bit 1, the symbol count minus one (0) in
    2 bits, and the symbol 0 in [max_bits] bits; it is bit for bit what
    [StoreHuffmanCode] writes for a code whose only symbol is 0. *)
Theorem StoreHuffmanCode_empty_code `{Collaborators}
    (code single : EntropyCode) (alphabet_size : Z) (s : BitSink) :
  count_ code = 0 ->
  count_ single = 1 ->
  vget (symbols_ single) 0 = 0 ->
  StoreHuffmanCode code alphabet_size s =
  emit [(1, 1); (2, 0); (max_bits_of alphabet_size, 0)] s /\
  StoreHuffmanCode code alphabet_size s =
  StoreHuffmanCode single alphabet_size s.
Proof.
  intros Hempty Hone Hsymbol.
  assert (Hbits : 0 <= max_bits_of alphabet_size)
    by apply max_bits_loop_ge.
  assert (Hcode : StoreHuffmanCode code alphabet_size s =
                  emit [(1, 1); (2, 0); (max_bits_of alphabet_size, 0)] s).
  { unfold StoreHuffmanCode. rewrite Hempty. cbn [Z.eqb].
    replace (3 + max_bits_of alphabet_size)
      with (1 + (2 + max_bits_of alphabet_size)) by lia.
    rewrite WriteBits_split by lia.
    rewrite (WriteBits_split 2) by lia. reflexivity. }
  split; [exact Hcode |]. rewrite Hcode.
  unfold StoreHuffmanCode. rewrite Hone.
  change (1 =? 0) with false. change (1 <=? 4) with true.
  change (1 =? 4) with false. cbv iota.
  unfold sort_symbols.
  rewrite !(for_range_step 0 1) by lia.
  rewrite !(for_range_done (0 + 1) 1) by lia.
  change (vget (vset [0; 0; 0; 0] 0 (vget (symbols_ single) 0)) 0)
    with (vget (symbols_ single) 0).
  rewrite Hsymbol. reflexivity.
Qed.

Lemma StoreHuffmanCode_empty_code_witness :
  StoreHuffmanCode (H := example_collaborators) example_empty_code 4
    empty_sink =
  emit [(1, 1); (2, 0); (max_bits_of 4, 0)] empty_sink /\
  StoreHuffmanCode (H := example_collaborators) example_empty_code 4
    empty_sink =
  StoreHuffmanCode (H := example_collaborators) example_single_code 4
    empty_sink.
Proof.
  apply (StoreHuffmanCode_empty_code (H := example_collaborators)
           example_empty_code example_single_code);
    reflexivity.
Defined.

(** ** Distance short codes *)

Lemma short_code_of_decodes (ring : list Z) (head dist code : Z) :
  0 < dist ->
  short_code_of ring head dist code ->
  distance_of_code ring head code = dist.
Proof.
  intros Hdist [(k & (Hk & _ & Hcand) & _ & ->) | (_ & ->)];
    unfold distance_of_code.
  - destruct (Z.leb_spec (k + 1) 16); [| lia].
    replace (k + 1 - 1) with k by lia. exact Hcand.
  - destruct (Z.leb_spec (dist + 16) 16); lia.
Qed.

(** X4: the distance codes that [ComputeDistanceShortCodes] assigns can
    be read back.  When every command has a positive copy distance, a
    reader that starts from the same ring and index, takes a code up to 16
    as the candidate it names and a larger one as the distance plus 16,
    and puts each distance with a code above 1 into its ring, gets the
    copy distances of the commands in order and ends with the ring and
    the index that the function leaves. *)
Theorem ComputeDistanceShortCodes_roundtrip (cmds : list Command) :
  forall (ring : list Z) (head : Z),
    Forall (fun cmd => 0 < copy_distance_ cmd) cmds ->
    InverseDistanceShortCodes
      (distance_code_ <$> (ComputeDistanceShortCodes cmds ring head).1.1)
      ring head
    = (copy_distance_ <$> cmds,
       (ComputeDistanceShortCodes cmds ring head).1.2,
       (ComputeDistanceShortCodes cmds ring head).2).
Proof.
  induction cmds as [|cmd rest IH]; intros ring head Hpos; [reflexivity |].
  inversion Hpos as [|? ? Hdist Hrest]; subst.
  cbn [ComputeDistanceShortCodes].
  destruct (Z.eqb_spec (copy_distance_ cmd) 0) as [|_]; [lia |].
  pose proof (short_code_loop_spec ring head (copy_distance_ cmd) 16 0
                ltac:(lia) ltac:(reflexivity)) as Hcode.
  specialize (Hcode ltac:(intros j Hj [Hr _]; lia)).
  apply short_code_of_decodes in Hcode; [| exact Hdist].
  set (code := short_code_loop 16 0 _ _ _ _) in *.
  destruct (Z.ltb_spec 1 code) as [Hgt|Hle].
  - specialize (IH (vset ring (Z.land head 3) (copy_distance_ cmd))
                  (size_t (head + 1)) Hrest).
    destruct (ComputeDistanceShortCodes rest _ _) as [[rest' ring'] head'].
    cbn [fst snd fmap list_fmap InverseDistanceShortCodes set_distance_code
         distance_code_] in *.
    rewrite Hcode. destruct (Z.ltb_spec 1 code); [| lia].
    rewrite IH. reflexivity.
  - specialize (IH ring head Hrest).
    destruct (ComputeDistanceShortCodes rest _ _) as [[rest' ring'] head'].
    cbn [fst snd fmap list_fmap InverseDistanceShortCodes set_distance_code
         distance_code_] in *.
    rewrite Hcode. destruct (Z.ltb_spec 1 code); [lia |].
    rewrite IH. reflexivity.
Qed.

Lemma ComputeDistanceShortCodes_roundtrip_witness :
  Forall (fun cmd => 0 < copy_distance_ cmd) example_copies /\
  InverseDistanceShortCodes
    (distance_code_ <$>
       (ComputeDistanceShortCodes example_copies [4; 11; 15; 16] 0).1.1)
    [4; 11; 15; 16] 0
  = (copy_distance_ <$> example_copies,
     (ComputeDistanceShortCodes example_copies [4; 11; 15; 16] 0).1.2,
     (ComputeDistanceShortCodes example_copies [4; 11; 15; 16] 0).2).
Proof.
  assert (Hpos : Forall (fun cmd => 0 < copy_distance_ cmd) example_copies)
    by (repeat constructor).
  split; [exact Hpos |].
  exact (ComputeDistanceShortCodes_roundtrip example_copies [4; 11; 15; 16] 0
           Hpos).
Defined.

(** X5: [ComputeDistanceShortCodes] changes nothing but the
    [distance_code_] fields: the vector keeps its length, every command
    keeps its other eight fields, the ring keeps its length, and from the
    first command without a copy distance on the commands are left
    exactly as they were. *)
Theorem ComputeDistanceShortCodes_frame (cmds : list Command) :
  forall (ring : list Z) (head : Z),
    Forall2 (fun cmd cmd' => cmd' = set_distance_code cmd (distance_code_ cmd'))
      cmds (ComputeDistanceShortCodes cmds ring head).1.1 /\
    length (ComputeDistanceShortCodes cmds ring head).1.2 = length ring /\
    (forall (before : list Command) (cmd : Command) (after : list Command),
        cmds = before ++ cmd :: after ->
        copy_distance_ cmd = 0 ->
        drop (length before) (ComputeDistanceShortCodes cmds ring head).1.1
        = cmd :: after).
Proof.
  assert (Hsame : forall cmd, cmd = set_distance_code cmd (distance_code_ cmd))
    by (intros []; reflexivity).
  assert (Hlen : forall (ring : list Z) (i x : Z),
             length (vset ring i x) = length ring).
  { intros ring i x. unfold vset. destruct (i <? 0); [reflexivity |].
    apply length_insert. }
  induction cmds as [|cmd rest IH]; intros ring head.
  - split; [constructor |]. split; [reflexivity |].
    intros [|? ?] ? ? E; discriminate.
  - cbn [ComputeDistanceShortCodes].
    destruct (Z.eqb_spec (copy_distance_ cmd) 0) as [Hzero|Hdist].
    + cbn [fst snd]. split.
      { apply Forall2_same_length_lookup_2; [reflexivity |].
        intros i x y Hx Hy. rewrite Hx in Hy. injection Hy as <-. apply Hsame. }
      split; [reflexivity |].
      intros before c after E _. rewrite E.
      rewrite drop_app_length. reflexivity.
    + set (code := short_code_loop 16 0 _ _ _ _).
      destruct (1 <? code).
      * specialize (IH (vset ring (Z.land head 3) (copy_distance_ cmd))
                      (size_t (head + 1))).
        destruct (ComputeDistanceShortCodes rest _ _) as [[rest' ring'] head'].
        cbn [fst snd] in *. destruct IH as (Hfields & Hring & Hstop).
        split; [constructor; [reflexivity | exact Hfields] |].
        split; [rewrite Hring; apply Hlen |].
        intros [|b before] c after E Hc.
        { injection E as -> ->. contradiction. }
        injection E as -> ->. cbn [length drop]. apply Hstop; trivial.
      * specialize (IH ring head).
        destruct (ComputeDistanceShortCodes rest _ _) as [[rest' ring'] head'].
        cbn [fst snd] in *. destruct IH as (Hfields & Hring & Hstop).
        split; [constructor; [reflexivity | exact Hfields] |].
        split; [exact Hring |].
        intros [|b before] c after E Hc.
        { injection E as -> ->. contradiction. }
        injection E as -> ->. cbn [length drop]. apply Hstop; trivial.
Qed.

(** ** Command prefixes *)

(** X6: after [ComputeCommandPrefixes], as long as [CommandPrefix] gives
    no negative prefix, every command carries its prefix in a form that
    [EncodeCommand] undoes: taking 128 off a [command_prefix_] of at least
    128 gives [CommandPrefix(insert_length_, copy_length_code_)] back.  A
    [command_prefix_] below 128 always comes with the mark [0xffff] in
    [distance_prefix_], and the lengths, the copy distance and the
    distance code of the command are not touched. *)
Theorem ComputeCommandPrefixes_marks `{Collaborators} (cmds : list Command)
    (num_direct_distance_codes distance_postfix_bits : Z) :
  (forall insert_length copy_length_code : Z,
      0 <= CommandPrefix insert_length copy_length_code) ->
  Forall2
    (fun cmd cmd' =>
       (if 128 <=? command_prefix_ cmd'
        then command_prefix_ cmd' - 128 else command_prefix_ cmd')
       = CommandPrefix (insert_length_ cmd) (copy_length_code_ cmd) /\
       (command_prefix_ cmd' < 128 -> distance_prefix_ cmd' = 65535) /\
       insert_length_ cmd' = insert_length_ cmd /\
       copy_length_ cmd' = copy_length_ cmd /\
       copy_length_code_ cmd' = copy_length_code_ cmd /\
       copy_distance_ cmd' = copy_distance_ cmd /\
       distance_code_ cmd' = distance_code_ cmd)
    cmds
    (ComputeCommandPrefixes cmds num_direct_distance_codes
       distance_postfix_bits).
Proof.
  intros Hprefix. unfold ComputeCommandPrefixes.
  induction cmds as [|cmd rest IH]; [constructor |].
  cbn [map]. constructor; [| exact IH].
  specialize (Hprefix (insert_length_ cmd) (copy_length_code_ cmd)).
  set (prefix := CommandPrefix _ _) in *.
  destruct (if 0 <? copy_length_code_ cmd
            then PrefixEncodeCopyDistance (distance_code_ cmd)
                   num_direct_distance_codes distance_postfix_bits
            else (distance_prefix_ cmd, distance_extra_bits_ cmd,
                  distance_extra_bits_value_ cmd))
    as [[distance_prefix extra_bits] extra_bits_value].
  destruct (Z.ltb_spec prefix 128) as [Hsmall|Hlarge];
    destruct (Z.eqb_spec distance_prefix 0) as [Hzero|Hnonzero];
    cbn [andb command_prefix_ distance_prefix_ insert_length_ copy_length_
         copy_length_code_ copy_distance_ distance_code_].
  - destruct (Z.leb_spec 128 prefix); [lia |]. repeat split; reflexivity || lia.
  - destruct (Z.leb_spec 128 (prefix + 128)); [| lia].
    repeat split; reflexivity || lia.
  - destruct (Z.leb_spec 128 (prefix + 128)); [| lia].
    repeat split; reflexivity || lia.
  - destruct (Z.leb_spec 128 (prefix + 128)); [| lia].
    repeat split; reflexivity || lia.
Qed.

Lemma ComputeCommandPrefixes_marks_witness :
  (forall insert_length copy_length_code : Z,
      0 <= @CommandPrefix example_collaborators
             insert_length copy_length_code) /\
  Forall2
    (fun cmd cmd' =>
       (if 128 <=? command_prefix_ cmd'
        then command_prefix_ cmd' - 128 else command_prefix_ cmd')
       = @CommandPrefix example_collaborators
           (insert_length_ cmd) (copy_length_code_ cmd) /\
       (command_prefix_ cmd' < 128 -> distance_prefix_ cmd' = 65535) /\
       insert_length_ cmd' = insert_length_ cmd /\
       copy_length_ cmd' = copy_length_ cmd /\
       copy_length_code_ cmd' = copy_length_code_ cmd /\
       copy_distance_ cmd' = copy_distance_ cmd /\
       distance_code_ cmd' = distance_code_ cmd)
    example_copies
    (ComputeCommandPrefixes (H := example_collaborators) example_copies 0 0).
Proof.
  assert (Hprefix : forall insert_length copy_length_code : Z,
             0 <= @CommandPrefix example_collaborators
                    insert_length copy_length_code)
    by (intros; simpl; lia).
  split; [exact Hprefix |].
  exact (ComputeCommandPrefixes_marks (H := example_collaborators)
           example_copies 0 0 Hprefix).
Defined.

(** ** Move to front *)

Lemma IndexOf_from_first (v : list Z) (value : Z) :
  forall i : Z,
    (IndexOf_from v i value = -1 /\ value ∉ v) \/
    (exists n : nat,
        IndexOf_from v i value = i + Z.of_nat n /\
        v !! n = Some value /\
        forall (j : nat) (x : Z), (j < n)%nat -> v !! j = Some x -> x <> value).
Proof.
  induction v as [|x v IH]; intros i.
  - left. split; [reflexivity | apply not_elem_of_nil].
  - cbn [IndexOf_from]. destruct (Z.eqb_spec x value) as [->|Hne].
    + right. exists 0%nat. split; [lia |]. split; [reflexivity |]. lia.
    + destruct (IH (i + 1)) as [[Hnone Hnot] | (n & Hidx & Hat & Hfirst)].
      * left. split; [exact Hnone |].
        intros [Heq|Hin]%elem_of_cons; [congruence | contradiction].
      * right. exists (S n). split; [lia |]. split; [exact Hat |].
        intros [|j] y Hj Hy.
        -- injection Hy as <-. exact Hne.
        -- apply (Hfirst j y); [lia | exact Hy].
Qed.

(** X7: [IndexOf v value] is -1 exactly when [value] does not occur in
    [v]; otherwise it is the position of the first occurrence. *)
Theorem IndexOf_first_occurrence (v : list Z) (value : Z) :
  (IndexOf v value = -1 /\ value ∉ v) \/
  (exists n : nat,
      IndexOf v value = Z.of_nat n /\
      v !! n = Some value /\
      forall (j : nat) (x : Z), (j < n)%nat -> v !! j = Some x -> x <> value).
Proof.
  unfold IndexOf.
  destruct (IndexOf_from_first v value 0) as [Hnone | (n & Hidx & Hrest)].
  - left. exact Hnone.
  - right. exists n. split; [lia | exact Hrest].
Qed.

Lemma moved_length (v : list Z) (n : nat) (x : Z) :
  v !! n = Some x -> length (x :: take n v ++ drop (S n) v) = length v.
Proof.
  intros Hx. apply lookup_lt_Some in Hx.
  cbn [length]. rewrite length_app, length_take, length_drop. lia.
Qed.

(** X8: for an index inside the vector, [MoveToFront] rearranges the
    entries and loses none: the result is a permutation of [v] of the same
    length, its first entry is [v[index]], the entries before [index]
    follow in their order and the entries after [index] stay where they
    are.  With index 0 the vector is unchanged. *)
Theorem MoveToFront_permutation (v : list Z) (index : Z) :
  0 <= index < Z.of_nat (length v) ->
  MoveToFront v index ≡ₚ v /\
  length (MoveToFront v index) = length v /\
  vget (MoveToFront v index) 0 = vget v index /\
  (forall j : Z, 0 <= j < index ->
     vget (MoveToFront v index) (j + 1) = vget v j) /\
  (forall j : Z, index < j -> vget (MoveToFront v index) j = vget v j) /\
  (index = 0 -> MoveToFront v index = v).
Proof.
  intros Hindex.
  pose proof (lookup_vget v index Hindex) as Hx.
  set (n := Z.to_nat index) in *. set (x := vget v index) in *.
  pose proof (lookup_lt_Some _ _ _ Hx) as Hn.
  replace index with (Z.of_nat n) by lia.
  rewrite (MoveToFront_spec v n x Hx).
  assert (Hsplit : v = take n v ++ x :: drop (S n) v)
    by (symmetry; apply take_drop_middle, Hx).
  split.
  { rewrite Hsplit at 3. apply Permutation_middle. }
  split; [apply moved_length, Hx |].
  split; [reflexivity |].
  split.
  { intros j Hj. unfold vget.
    destruct (Z.ltb_spec (j + 1) 0); [lia |]. destruct (Z.ltb_spec j 0); [lia |].
    replace (Z.to_nat (j + 1)) with (S (Z.to_nat j)) by lia.
    rewrite !list_lookup_total_alt.
    change ((x :: take n v ++ drop (S n) v) !! S (Z.to_nat j))
      with ((take n v ++ drop (S n) v) !! Z.to_nat j).
    rewrite lookup_app_l by (rewrite length_take; lia).
    rewrite lookup_take_lt by lia. reflexivity. }
  split.
  { intros j Hj. unfold vget.
    destruct (Z.ltb_spec j 0); [lia |].
    destruct (Z.to_nat j) as [|m] eqn:Em; [lia |].
    rewrite !list_lookup_total_alt.
    change ((x :: take n v ++ drop (S n) v) !! S m)
      with ((take n v ++ drop (S n) v) !! m).
    rewrite lookup_app_r by (rewrite length_take; lia).
    rewrite length_take, lookup_drop.
    replace (S n + (m - n `min` length v))%nat with (S m) by lia.
    reflexivity. }
  intros Hzero. assert (n = 0%nat) as Hn0 by lia.
  rewrite Hsplit at 3. rewrite Hn0. reflexivity.
Qed.

Lemma MoveToFront_permutation_witness :
  0 <= 2 < Z.of_nat (length [5; 6; 7; 8]) /\
  MoveToFront [5; 6; 7; 8] 2 ≡ₚ [5; 6; 7; 8] /\
  length (MoveToFront [5; 6; 7; 8] 2) = length [5; 6; 7; 8] /\
  vget (MoveToFront [5; 6; 7; 8] 2) 0 = vget [5; 6; 7; 8] 2 /\
  (forall j : Z, 0 <= j < 2 ->
     vget (MoveToFront [5; 6; 7; 8] 2) (j + 1) = vget [5; 6; 7; 8] j) /\
  (forall j : Z, 2 < j ->
     vget (MoveToFront [5; 6; 7; 8] 2) j = vget [5; 6; 7; 8] j) /\
  (2 = 0 -> MoveToFront [5; 6; 7; 8] 2 = [5; 6; 7; 8]).
Proof.
  assert (Hindex : 0 <= 2 < Z.of_nat (length [5; 6; 7; 8])) by (simpl; lia).
  split; [exact Hindex |].
  exact (MoveToFront_permutation [5; 6; 7; 8] 2 Hindex).
Defined.

Lemma move_to_front_indices_range (v : list Z) :
  forall mtf : list Z,
    Forall (fun x => x ∈ mtf) v ->
    length (move_to_front_indices mtf v) = length v /\
    Forall (fun index => 0 <= index < Z.of_nat (length mtf))
      (move_to_front_indices mtf v).
Proof.
  induction v as [|x v IH]; intros mtf Hin; [split; [reflexivity | constructor] |].
  inversion Hin as [|? ? Hx Hrest]; subst.
  destruct (IndexOf_spec mtf x Hx) as (n & Hidx & Hat).
  cbn [move_to_front_indices]. rewrite Hidx, (MoveToFront_spec mtf n x Hat).
  destruct (IH (x :: take n mtf ++ drop (S n) mtf)) as [Hlen Hrange].
  { eapply Forall_impl; [exact Hrest |].
    intros y Hy. apply elem_of_moved; assumption. }
  rewrite (moved_length mtf n x Hat) in Hrange.
  split; [cbn [length]; rewrite Hlen; reflexivity |].
  constructor; [| exact Hrange].
  apply lookup_lt_Some in Hat. lia.
Qed.

Lemma elem_of_initial_mtf (v : list Z) :
  Forall (fun x => 0 <= x) v ->
  Forall (fun x => x ∈ seqZ 0 (max_element v + 1)) v.
Proof.
  intros Hpos. apply Forall_forall. intros x Hx.
  apply elem_of_seqZ. split.
  - apply (proj1 (Forall_forall _ _) Hpos x Hx).
  - pose proof (max_element_ge v x Hx). lia.
Qed.

(** X9: on a vector of non-negative values, [MoveToFrontTransform] gives
    a vector of the same length whose entries are positions in the
    move-to-front list: each lies in [0, max], where [max] is the largest
    value of the input. *)
Theorem MoveToFrontTransform_range (v : list Z) :
  Forall (fun x => 0 <= x) v ->
  length (MoveToFrontTransform v) = length v /\
  Forall (fun index => 0 <= index <= max_element v) (MoveToFrontTransform v).
Proof.
  intros Hpos. rewrite (MoveToFrontTransform_indices v Hpos).
  destruct (move_to_front_indices_range v (seqZ 0 (max_element v + 1))
              (elem_of_initial_mtf v Hpos)) as [Hlen Hrange].
  split; [exact Hlen |].
  eapply Forall_impl; [exact Hrange |].
  intros index. cbn beta. rewrite length_seqZ.
  destruct v as [|x v]; [inversion Hrange; lia |].
  inversion Hpos as [|? ? Hx _]; subst.
  pose proof (max_element_ge (x :: v) x ltac:(left)). lia.
Qed.

Lemma MoveToFrontTransform_range_witness :
  Forall (fun x => 0 <= x) [2; 2; 0; 1; 1] /\
  length (MoveToFrontTransform [2; 2; 0; 1; 1]) = length [2; 2; 0; 1; 1] /\
  Forall (fun index => 0 <= index <= max_element [2; 2; 0; 1; 1])
    (MoveToFrontTransform [2; 2; 0; 1; 1]).
Proof.
  assert (Hpos : Forall (fun x => 0 <= x) [2; 2; 0; 1; 1])
    by (repeat constructor; lia).
  split; [exact Hpos |].
  exact (MoveToFrontTransform_range [2; 2; 0; 1; 1] Hpos).
Defined.

Lemma move_to_front_indices_repeat (v : list Z) :
  forall (mtf : list Z) (i : nat) (x : Z),
    Forall (fun y => y ∈ mtf) v ->
    v !! i = Some x -> v !! S i = Some x ->
    move_to_front_indices mtf v !! S i = Some 0.
Proof.
  induction v as [|y v IH]; intros mtf i x Hin Hi Hnext; [discriminate |].
  inversion Hin as [|? ? Hy Hrest]; subst.
  destruct (IndexOf_spec mtf y Hy) as (n & Hidx & Hat).
  cbn [move_to_front_indices]. rewrite Hidx, (MoveToFront_spec mtf n y Hat).
  change ((Z.of_nat n
           :: move_to_front_indices (y :: take n mtf ++ drop (S n) mtf) v)
          !! S i)
    with (move_to_front_indices (y :: take n mtf ++ drop (S n) mtf) v !! i).
  destruct i as [|i].
  - injection Hi as ->. destruct v as [|z v]; [discriminate |].
    injection Hnext as ->.
    cbn [move_to_front_indices]. unfold IndexOf. cbn [IndexOf_from].
    rewrite Z.eqb_refl. reflexivity.
  - apply (IH _ i x); [| exact Hi | exact Hnext].
    eapply Forall_impl; [exact Hrest |].
    intros z Hz. apply elem_of_moved; assumption.
Qed.

(** X10: where the input of [MoveToFrontTransform] repeats its previous
    value, the output is 0: the value was moved to the front one step
    before.  These are the zeros that [RunLengthCodeZeros] then collects
    into runs. *)
Theorem MoveToFrontTransform_repeat (v : list Z) (i : nat) (x : Z) :
  Forall (fun y => 0 <= y) v ->
  v !! i = Some x ->
  v !! S i = Some x ->
  MoveToFrontTransform v !! S i = Some 0.
Proof.
  intros Hpos Hi Hnext. rewrite (MoveToFrontTransform_indices v Hpos).
  apply (move_to_front_indices_repeat v _ i x);
    [apply elem_of_initial_mtf, Hpos | exact Hi | exact Hnext].
Qed.

Lemma MoveToFrontTransform_repeat_witness :
  Forall (fun y => 0 <= y) [2; 2; 0; 1; 1] /\
  [2; 2; 0; 1; 1] !! 3%nat = Some 1 /\
  [2; 2; 0; 1; 1] !! 4%nat = Some 1 /\
  MoveToFrontTransform [2; 2; 0; 1; 1] !! 4%nat = Some 0.
Proof.
  assert (Hpos : Forall (fun x => 0 <= x) [2; 2; 0; 1; 1])
    by (repeat constructor; lia).
  split; [exact Hpos |]. split; [reflexivity |]. split; [reflexivity |].
  exact (MoveToFrontTransform_repeat [2; 2; 0; 1; 1] 3 1 Hpos eq_refl eq_refl).
Defined.

(** ** The tokens of the zero run lengths *)

Lemma code_run_tokens (m : Z) (fuel : nat) :
  0 <= m ->
  forall (reps : Z) (v_out extra_bits : list Z),
    0 <= reps ->
    exists tokens extras : list Z,
      code_run fuel reps m v_out extra_bits
      = (v_out ++ tokens, extra_bits ++ extras) /\
      Forall2 (rle_token m) tokens extras.
Proof.
  intros Hm. induction fuel as [|fuel IH]; intros reps v_out extra_bits Hreps.
  - exists [], []. rewrite !app_nil_r. split; [reflexivity | constructor].
  - cbn [code_run]. destruct (Z.eqb_spec reps 0) as [->|Hne].
    + exists [], []. rewrite !app_nil_r. split; [reflexivity | constructor].
    + pose proof (Z.pow_pos_nonneg 2 m ltac:(lia) Hm) as Hpow.
      destruct (Z.ltb_spec reps (2 ≪ m)) as [Hsmall|Hlarge].
      * exists [Log2Floor reps], [reps - (1 ≪ Log2Floor reps)].
        split; [reflexivity |]. constructor; [| constructor].
        unfold Log2Floor. destruct (Z.leb_spec reps 0); [lia |].
        rewrite shiftl_2 in Hsmall by exact Hm.
        apply Z.log2_lt_pow2 in Hsmall; [| lia].
        pose proof (Z.log2_nonneg reps).
        pose proof (Z.log2_spec reps ltac:(lia)) as Hlog.
        rewrite Z.pow_succ_r in Hlog by lia.
        rewrite Z.shiftl_1_l. left. lia.
      * rewrite shiftl_2 in Hlarge |- * by exact Hm.
        rewrite Z.pow_add_r, Z.pow_1_r in Hlarge |- * by lia.
        destruct (IH (reps - (2 ^ m * 2 - 1)) (v_out ++ [m])
                    (extra_bits ++ [(1 ≪ m) - 1]) ltac:(lia))
          as (tokens & extras & Hrun & Htokens).
        exists (m :: tokens), (((1 ≪ m) - 1) :: extras).
        split; [rewrite Hrun, <- !app_assoc; reflexivity |].
        constructor; [| exact Htokens].
        rewrite Z.shiftl_1_l. left. lia.
Qed.

Lemma count_zero_reps (v_in : list Z) (fuel : nat) :
  forall k reps : Z, reps <= (count_zero fuel v_in k reps).2.
Proof.
  induction fuel as [|fuel IH]; intros k reps; cbn [count_zero]; [simpl; lia |].
  destruct ((k <? Z.of_nat (length v_in)) && (vget v_in k =? 0));
    [| simpl; lia].
  specialize (IH (k + 1) (reps + 1)). lia.
Qed.

Lemma code_zeros_loop_tokens (v_in : list Z) (m : Z) (fuel : nat) :
  0 <= m ->
  Forall (fun x => 0 <= x) v_in ->
  forall (i : Z) (v_out extra_bits : list Z),
    0 <= i ->
    Forall2 (rle_token m) v_out extra_bits ->
    Forall2 (rle_token m)
      (code_zeros_loop fuel v_in i m v_out extra_bits).1
      (code_zeros_loop fuel v_in i m v_out extra_bits).2.
Proof.
  intros Hm Hnn.
  induction fuel as [|fuel IH]; intros i v_out extra_bits Hi Hout;
    cbn [code_zeros_loop]; [exact Hout |].
  destruct (Z.ltb_spec i (Z.of_nat (length v_in))) as [Hlt|Hge];
    [| exact Hout].
  pose proof (lookup_vget v_in i ltac:(lia)) as Hx.
  pose proof (proj1 (Forall_lookup _ _) Hnn _ _ Hx) as Hx0. cbn beta in Hx0.
  destruct (Z.eqb_spec (vget v_in i) 0) as [Hzero|Hne]; cbn [negb].
  - pose proof (count_zero_reps v_in (length v_in) (i + 1) 1) as Hreps.
    set (reps := (count_zero (length v_in) v_in (i + 1) 1).2) in *.
    destruct (code_run_tokens m (Z.to_nat reps) Hm reps v_out extra_bits
                ltac:(lia)) as (tokens & extras & Hrun & Htokens).
    rewrite Hrun. apply IH; [lia |].
    apply Forall2_app; assumption.
  - apply IH; [lia |].
    apply Forall2_app; [exact Hout |].
    constructor; [| constructor]. right. lia.
Qed.

(** X11: the output of [RunLengthCodeZeros] on non-negative values is
    well formed.  The prefix bound it leaves lies between 0 and the one
    asked for; there are as many extra-bit values as symbols; and every
    symbol is either a run token between 0 and the bound, whose extra
    value fits into as many bits as the token says, or a value above the
    bound with no extra bits. *)
Theorem RunLengthCodeZeros_tokens (v_in : list Z) (max_run_length_prefix : Z) :
  0 <= max_run_length_prefix ->
  Forall (fun x => 0 <= x) v_in ->
  0 <= (RunLengthCodeZeros v_in max_run_length_prefix [] []).1.1
    <= max_run_length_prefix /\
  Forall2
    (rle_token (RunLengthCodeZeros v_in max_run_length_prefix [] []).1.1)
    (RunLengthCodeZeros v_in max_run_length_prefix [] []).1.2
    (RunLengthCodeZeros v_in max_run_length_prefix [] []).2.
Proof.
  intros Hm Hnn. unfold RunLengthCodeZeros.
  set (max_reps := max_reps_loop _ _ _ _).
  set (max_prefix := if 0 <? max_reps then Log2Floor max_reps else 0).
  assert (Hprefix : 0 <= max_prefix).
  { unfold max_prefix, Log2Floor.
    destruct (Z.ltb_spec 0 max_reps); [| lia].
    destruct (Z.leb_spec max_reps 0); [lia | apply Z.log2_nonneg]. }
  pose proof (code_zeros_loop_tokens v_in (Z.min max_prefix max_run_length_prefix)
                (length v_in) ltac:(lia) Hnn 0 [] [] ltac:(lia)
                ltac:(constructor)) as Htokens.
  destruct (code_zeros_loop _ _ _ _ _ _) as [v_out extra_bits].
  cbn [fst snd] in *. split; [lia | exact Htokens].
Qed.

Lemma RunLengthCodeZeros_tokens_witness :
  0 <= 2 /\
  Forall (fun x => 0 <= x) [0; 0; 0; 0; 0; 3; 0; 1] /\
  0 <= (RunLengthCodeZeros [0; 0; 0; 0; 0; 3; 0; 1] 2 [] []).1.1 <= 2 /\
  Forall2
    (rle_token (RunLengthCodeZeros [0; 0; 0; 0; 0; 3; 0; 1] 2 [] []).1.1)
    (RunLengthCodeZeros [0; 0; 0; 0; 0; 3; 0; 1] 2 [] []).1.2
    (RunLengthCodeZeros [0; 0; 0; 0; 0; 3; 0; 1] 2 [] []).2.
Proof.
  assert (Hm : 0 <= 2) by lia.
  assert (Hnn : Forall (fun x => 0 <= x) [0; 0; 0; 0; 0; 3; 0; 1])
    by (repeat constructor; lia).
  split; [exact Hm |]. split; [exact Hnn |].
  exact (RunLengthCodeZeros_tokens [0; 0; 0; 0; 0; 3; 0; 1] 2 Hm Hnn).
Defined.

(** ** The choice of the run-length prefix bound *)

Lemma RunLengthCodeZeros_prefix (v_in : list Z) :
  exists max_prefix : Z,
    0 <= max_prefix /\
    forall max_run_length_prefix : Z,
      (RunLengthCodeZeros v_in max_run_length_prefix [] []).1.1
      = Z.min max_prefix max_run_length_prefix.
Proof.
  set (max_reps := max_reps_loop (length v_in) v_in 0 0).
  exists (if 0 <? max_reps then Log2Floor max_reps else 0). split.
  - unfold Log2Floor. destruct (Z.ltb_spec 0 max_reps); [| lia].
    destruct (Z.leb_spec max_reps 0); [lia | apply Z.log2_nonneg].
  - intros p. unfold RunLengthCodeZeros. fold max_reps.
    destruct (code_zeros_loop _ _ _ _ _ _). reflexivity.
Qed.

Lemma best_prefix_loop_kept `{Collaborators} (v : list Z) (fuel : nat) :
  forall max_prefix min_cost best_max_prefix : Z,
    0 <= max_prefix ->
    0 <= best_max_prefix <= 16 /\
    (RunLengthCodeZeros v best_max_prefix [] []).1.1 = best_max_prefix ->
    0 <= best_prefix_loop fuel v max_prefix min_cost best_max_prefix <= 16 /\
    (RunLengthCodeZeros v
       (best_prefix_loop fuel v max_prefix min_cost best_max_prefix) [] []).1.1
    = best_prefix_loop fuel v max_prefix min_cost best_max_prefix.
Proof.
  destruct (RunLengthCodeZeros_prefix v) as (bound & Hbound & Hmin).
  induction fuel as [|fuel IH]; intros max_prefix min_cost best Hprefix Hbest;
    cbn [best_prefix_loop]; [exact Hbest |].
  destruct (Z.leb_spec max_prefix 16) as [Hle|]; [| exact Hbest].
  pose proof (Hmin max_prefix) as Hrun.
  destruct (RunLengthCodeZeros v max_prefix [] [])
    as [[max_run_length_prefix rle_symbols] extra_bits] eqn:Erun.
  cbn [fst] in Hrun.
  destruct (Z.ltb_spec max_run_length_prefix max_prefix) as [|Hkept];
    [exact Hbest |].
  match goal with
  | |- context [if ?cost <? min_cost then _ else _] =>
      destruct (cost <? min_cost)
  end.
  - apply IH; [lia |]. split; [lia |]. rewrite Erun. cbn [fst]. lia.
  - apply IH; [lia | exact Hbest].
Qed.

(** X12: the bound that [BestMaxZeroRunLengthPrefix] picks lies in
    [0, 16], and it is one that [RunLengthCodeZeros] does not lower: the
    call that codes the vector with this bound leaves it as it is,
    whatever the cost estimates are. *)
Theorem BestMaxZeroRunLengthPrefix_kept `{Collaborators} (v : list Z) :
  0 <= BestMaxZeroRunLengthPrefix v <= 16 /\
  (RunLengthCodeZeros v (BestMaxZeroRunLengthPrefix v) [] []).1.1
  = BestMaxZeroRunLengthPrefix v.
Proof.
  unfold BestMaxZeroRunLengthPrefix.
  apply best_prefix_loop_kept; [lia |]. split; [lia |].
  destruct (RunLengthCodeZeros_prefix v) as (bound & Hbound & Hmin).
  rewrite Hmin. lia.
Qed.

(** ** Block-type codes *)

Lemma land_1_mod (x : Z) : Z.land x 1 = x mod 2.
Proof.
  change 1 with (Z.ones 1). rewrite Z.land_ones by lia. reflexivity.
Qed.

Lemma land_1_cases (x : Z) : Z.land x 1 = 0 \/ Z.land x 1 = 1.
Proof.
  rewrite land_1_mod. pose proof (Z.mod_pos_bound x 2 ltac:(lia)). lia.
Qed.

Lemma land_1_size_t_next (x d : Z) :
  d = 1 \/ d = -1 ->
  Z.land (size_t (x + d)) 1 = 1 - Z.land x 1.
Proof.
  intros Hd. rewrite !land_1_mod. unfold size_t.
  rewrite Z.mod_mod_divide by (exists (2 ^ 63); reflexivity).
  pose proof (Z.div_mod x 2 ltac:(lia)) as Hx.
  pose proof (Z.mod_pos_bound x 2 ltac:(lia)) as Hr.
  assert (Hcase : x mod 2 = 0 \/ x mod 2 = 1) by lia.
  destruct Hd as [-> | ->], Hcase as [Hr0 | Hr1].
  - rewrite Hr0. symmetry. apply (Z.mod_unique_pos _ _ (x / 2)); lia.
  - rewrite Hr1. symmetry. apply (Z.mod_unique_pos _ _ (x / 2 + 1)); lia.
  - rewrite Hr0. symmetry. apply (Z.mod_unique_pos _ _ (x / 2 - 1)); lia.
  - rewrite Hr1. symmetry. apply (Z.mod_unique_pos _ _ (x / 2)); lia.
Qed.

Lemma block_type_steps (num_types : Z) (types : list Z) :
  forall (ringbuffer : list Z) (index : Z) (type_codes : list Z)
         (second_last last : Z),
    ringbuffer = (if Z.land index 1 =? 0
                  then [second_last; last] else [last; second_last]) ->
    Forall (fun type => 0 <= type < num_types) types ->
    exists codes : list Z,
      (fold_left (fun st type => block_type_step type st) types
         (ringbuffer, index, type_codes)).2 = type_codes ++ codes /\
      InverseBlockTypeCodes codes second_last last = types /\
      Forall (fun code => 0 <= code < num_types + 2) codes.
Proof.
  induction types as [|type types IH];
    intros ringbuffer index type_codes second_last last Hring Htypes.
  - exists []. rewrite app_nil_r. repeat split. constructor.
  - apply Forall_cons in Htypes as [Htype Hrest].
    cbn [fold_left block_type_step].
    pose proof (land_1_size_t_next index 1 ltac:(lia)) as Hnext.
    pose proof (land_1_size_t_next index (-1) ltac:(lia)) as Hprev.
    replace (index + -1) with (index - 1) in Hprev by lia.
    set (code := if type =? vget ringbuffer (Z.land index 1) then 0
                 else if type =? vget ringbuffer
                                   (Z.land (size_t (index - 1)) 1) + 1
                      then 1 else type + 2).
    destruct (IH (vset ringbuffer (Z.land index 1) type) (size_t (index + 1))
                (type_codes ++ [code]) last type) as (codes & Hrun & Hinv & Hrange).
    { rewrite Hnext, Hring.
      destruct (land_1_cases index) as [-> | ->]; reflexivity. }
    { exact Hrest. }
    exists (code :: codes).
    split; [rewrite Hrun, <- app_assoc; reflexivity |].
    assert (Hcode : block_type_of_code second_last last code = type /\
                    0 <= code < num_types + 2).
    { unfold code, block_type_of_code. rewrite Hprev, Hring.
      destruct (land_1_cases index) as [Hbit | Hbit]; rewrite Hbit.
      - change (0 =? 0) with true. cbv iota.
        change (vget [second_last; last] 0) with second_last.
        change (vget [second_last; last] (1 - 0)) with last.
        repeat match goal with
               | |- context [?a =? ?b] => destruct (Z.eqb_spec a b)
               end; lia.
      - change (1 =? 0) with false. cbv iota.
        change (vget [last; second_last] 1) with second_last.
        change (vget [last; second_last] (1 - 1)) with last.
        repeat match goal with
               | |- context [?a =? ?b] => destruct (Z.eqb_spec a b)
               end; lia. }
    destruct Hcode as [Hdecode Hcode].
    split; [| constructor; assumption].
    cbn [InverseBlockTypeCodes]. rewrite Hdecode, Hinv. reflexivity.
Qed.

(** X13: with more than one block type and every type in
    [0, num_types_), [ComputeBlockTypeShortCodes] appends one code per
    block to [type_codes_] and changes nothing else.  Each code lies in
    [0, num_types_ + 2), and the codes can be read back: a reader that
    starts with the last two types 0 and 1 and takes code 0 as the type
    before the last one, code 1 as the last type plus one and a larger
    code as the type plus 2 gets the block types in order. *)
Theorem ComputeBlockTypeShortCodes_roundtrip (split : BlockSplit) :
  1 < num_types_ split ->
  Forall (fun type => 0 <= type < num_types_ split) (types_ split) ->
  exists codes : list Z,
    ComputeBlockTypeShortCodes split =
    mkBlockSplit (num_types_ split) (types_ split)
      (type_codes_ split ++ codes) (lengths_ split) /\
    InverseBlockTypeCodes codes 0 1 = types_ split /\
    Forall (fun code => 0 <= code < num_types_ split + 2) codes.
Proof.
  intros Hmany Htypes.
  destruct (block_type_steps (num_types_ split) (types_ split) [0; 1] 0
              (type_codes_ split) 0 1 eq_refl Htypes)
    as (codes & Hrun & Hinv & Hrange).
  exists codes. split; [| split; assumption].
  unfold ComputeBlockTypeShortCodes.
  destruct (Z.leb_spec (num_types_ split) 1); [lia |].
  change (for_range 0 (Z.of_nat (length (types_ split))) _ _)
    with (for_range 0 (Z.of_nat (length (types_ split)))
            (fun i st => block_type_step (vget (types_ split) i) st)
            ([0; 1], 0, type_codes_ split)).
  rewrite (for_range_fold_all (types_ split) block_type_step).
  destruct (fold_left _ _ _) as [[ringbuffer index] type_codes].
  cbn [snd] in Hrun. rewrite Hrun. reflexivity.
Qed.

Lemma ComputeBlockTypeShortCodes_roundtrip_witness :
  1 < num_types_ example_block_split /\
  Forall (fun type => 0 <= type < num_types_ example_block_split)
    (types_ example_block_split) /\
  exists codes : list Z,
    ComputeBlockTypeShortCodes example_block_split =
    mkBlockSplit (num_types_ example_block_split) (types_ example_block_split)
      (type_codes_ example_block_split ++ codes)
      (lengths_ example_block_split) /\
    InverseBlockTypeCodes codes 0 1 = types_ example_block_split /\
    Forall (fun code => 0 <= code < num_types_ example_block_split + 2) codes.
Proof.
  assert (Hmany : 1 < num_types_ example_block_split) by (simpl; lia).
  assert (Htypes : Forall (fun type => 0 <= type < num_types_ example_block_split)
                     (types_ example_block_split))
    by (repeat constructor; simpl; lia).
  split; [exact Hmany |]. split; [exact Htypes |].
  exact (ComputeBlockTypeShortCodes_roundtrip example_block_split Hmany Htypes).
Defined.

(** ** Entropy codes per histogram *)

Lemma resize_length {A} (v : list A) (n : Z) (x : A) :
  length (resize v n x) = Z.to_nat n.
Proof.
  unfold resize. rewrite length_take, length_app, length_replicate. lia.
Qed.

Lemma fill_loop {A B} `{Inhabited A} (f : A -> B) (src : list A) (k : nat) :
  forall dst : list B,
    length dst = length src ->
    (k <= length src)%nat ->
    for_range 0 (Z.of_nat k) (fun i dst => vset dst i (f (vget src i))) dst
    = (f <$> take k src) ++ drop k dst.
Proof.
  induction k as [|k IH]; intros dst Hlen Hk.
  - rewrite for_range_done by lia. rewrite take_0, drop_0. reflexivity.
  - replace (Z.of_nat (S k)) with (Z.of_nat k + 1) by lia.
    rewrite for_range_last by lia. rewrite IH by lia.
    destruct (lookup_lt_is_Some_2 src k ltac:(lia)) as [a Ha].
    destruct (lookup_lt_is_Some_2 dst k ltac:(lia)) as [b Hb].
    rewrite vset_of_nat, vget_of_nat, (list_lookup_total_correct _ _ _ Ha).
    rewrite (take_S_r _ _ _ Ha), fmap_app, <- app_assoc.
    rewrite (drop_S _ _ _ Hb).
    rewrite insert_app_r_alt by (rewrite length_fmap, length_take; lia).
    rewrite length_fmap, length_take.
    replace (k - k `min` length src)%nat with 0%nat by lia.
    reflexivity.
Qed.

(** X14: whatever the output vector holds and however long it is,
    [BuildEntropyCodes] leaves exactly one code per histogram, in the
    order of the histograms: the one that [BuildEntropyCode] gives for
    that histogram with the depth limit 15 and the alphabet size. *)
Theorem BuildEntropyCodes_map `{Collaborators} (histograms : list Histogram)
    (alphabet_size : Z) (entropy_codes : list EntropyCode) :
  BuildEntropyCodes histograms alphabet_size entropy_codes
  = (fun histogram => BuildEntropyCode histogram 15 alphabet_size)
      <$> histograms.
Proof.
  unfold BuildEntropyCodes.
  rewrite (fill_loop (fun histogram => BuildEntropyCode histogram 15 alphabet_size)
             histograms (length histograms))
    by (rewrite ?resize_length; lia).
  rewrite firstn_all, drop_ge by (rewrite resize_length; lia).
  apply app_nil_r.
Qed.

(** ** The shape of a meta-block *)

Lemma ComputeBlockTypeShortCodes_num_types (split : BlockSplit) :
  1 <= num_types_ (ComputeBlockTypeShortCodes split) /\
  (1 <= num_types_ split ->
   num_types_ (ComputeBlockTypeShortCodes split) = num_types_ split).
Proof.
  unfold ComputeBlockTypeShortCodes.
  destruct (Z.leb_spec (num_types_ split) 1) as [Hle|Hgt].
  - cbn [num_types_]. lia.
  - destruct (for_range _ _ _ _) as [[ringbuffer index] type_codes].
    cbn [num_types_]. lia.
Qed.

(** X15: the meta-block that [BuildMetaBlock] leaves has the given
    parameters and the given commands with their prefixes computed; each
    of its three block splits has at least one block type; and there is
    exactly one literal context mode per literal block type, which for a
    fresh meta-block is the mode of the parameters throughout. *)
Theorem BuildMetaBlock_shape `{Collaborators} (params' : EncodingParams)
    (cmds' : list Command) (ringbuffer : mem) (pos mask : Z) (mb : MetaBlock) :
  let built := BuildMetaBlock params' cmds' ringbuffer pos mask mb in
  params built = params' /\
  cmds built =
    ComputeCommandPrefixes cmds' (num_direct_distance_codes params')
      (distance_postfix_bits params') /\
  1 <= num_types_ (literal_split built) /\
  1 <= num_types_ (command_split built) /\
  1 <= num_types_ (distance_split built) /\
  Z.of_nat (length (literal_context_modes built))
  = num_types_ (literal_split built) /\
  (literal_context_modes mb = [] ->
   Forall (fun mode => mode = literal_context_mode params')
     (literal_context_modes built)).
Proof.
  unfold BuildMetaBlock.
  destruct (SplitBlock _ _ _ _ _) as [[literal command] distance].
  destruct (BuildHistograms _ _ _ _ _ _ _ _ _ _ _) as [[lh ch] dh].
  destruct (ClusterHistograms _ _ _ _ lh _) as [lh' lmap].
  destruct (ClusterHistograms _ _ _ _ dh _) as [dh' dmap].
  cbn zeta.
  cbn [params cmds literal_split command_split distance_split
       literal_context_modes].
  pose proof (ComputeBlockTypeShortCodes_num_types literal) as [Hl _].
  pose proof (ComputeBlockTypeShortCodes_num_types command) as [Hc _].
  pose proof (ComputeBlockTypeShortCodes_num_types distance) as [Hd _].
  split; [reflexivity |]. split; [reflexivity |].
  split; [exact Hl |]. split; [exact Hc |]. split; [exact Hd |].
  split; [rewrite resize_length; lia |].
  intros Hfresh. rewrite Hfresh. unfold resize. rewrite app_nil_l.
  apply Forall_take, Forall_replicate. reflexivity.
Qed.

(** ** The stream driver *)

Lemma flush_cursor (storage_ix' : Z) :
  storage_ix' - ((storage_ix' ≫ 3) ≪ 3) = storage_ix' mod 8.
Proof.
  rewrite Z.shiftr_div_pow2, Z.shiftl_mul_pow2 by lia.
  change (2 ^ 3) with 8.
  pose proof (Z.div_mod storage_ix' 8 ltac:(lia)). lia.
Qed.

Lemma WriteMetaBlock_cursor `{Collaborators} (input_size : Z)
    (input_buffer encoded_buffer : mem) (encoded_offset : Z)
    (c : BrotliCompressor) :
  0 <= storage_ix_
         (WriteMetaBlock input_size input_buffer encoded_buffer encoded_offset
            c).1.1 < 8.
Proof.
  unfold WriteMetaBlock.
  destruct (CreateBackwardReferences _ _ _ _ _ _ _ _) as [hasher commands].
  destruct (ComputeDistanceShortCodes _ _ _) as [[commands' ring] idx].
  destruct (StoreMetaBlock _ _ _ _ _) as [input_pos s].
  cbn [fst snd storage_ix_]. rewrite flush_cursor.
  apply Z.mod_pos_bound. lia.
Qed.

(** X16: [WriteMetaBlock] hands over every whole byte it has and keeps
    the rest: when it returns, fewer than 8 bits are pending
    ([0 <= storage_ix_ < 8]); the window size is what it was; and the
    output buffer is changed only in the [*encoded_size] bytes from its
    start. *)
Theorem WriteMetaBlock_flush `{Collaborators} (input_size : Z)
    (input_buffer encoded_buffer : mem) (encoded_offset : Z)
    (c : BrotliCompressor) :
  let written :=
    WriteMetaBlock input_size input_buffer encoded_buffer encoded_offset c in
  0 <= storage_ix_ written.1.1 < 8 /\
  window_bits_ written.1.1 = window_bits_ c /\
  forall j : Z,
    j < encoded_offset \/ encoded_offset + written.1.2 <= j ->
    written.2 j = encoded_buffer j.
Proof.
  intros written. split; [apply WriteMetaBlock_cursor |].
  unfold written, WriteMetaBlock.
  destruct (CreateBackwardReferences _ _ _ _ _ _ _ _) as [hasher commands].
  destruct (ComputeDistanceShortCodes _ _ _) as [[commands' ring] idx].
  destruct (StoreMetaBlock _ _ _ _ _) as [input_pos s].
  cbn [fst snd window_bits_]. split; [reflexivity |].
  intros j Hj. unfold memcpy_at.
  destruct (Z.leb_spec encoded_offset j); [| reflexivity].
  destruct (Z.ltb_spec j (encoded_offset + storage_ix s ≫ 3)); [lia |].
  reflexivity.
Qed.

Lemma FinishStream_one_byte `{Collaborators} (encoded_buffer : mem)
    (encoded_offset : Z) (c : BrotliCompressor) :
  0 <= storage_ix_ c < 8 ->
  let finished := FinishStream encoded_buffer encoded_offset c in
  finished.1.2 = 1 /\
  storage_ix_ finished.1.1 = storage_ix_ c + 1 /\
  Z.testbit (finished.2 encoded_offset) (storage_ix_ c) = true /\
  (forall j : Z, 0 <= j < storage_ix_ c ->
     Z.testbit (finished.2 encoded_offset) j = Z.testbit (storage_ c 0) j) /\
  (forall j : Z, j <> encoded_offset -> finished.2 j = encoded_buffer j).
Proof.
  intros Hix finished. unfold finished, FinishStream, sink_of, WriteBits.
  cbn [fst snd storage_ix storage storage_ix_ with_storage].
  assert (Hsize : (storage_ix_ c + 1 + 7) ≫ 3 = 1).
  { rewrite Z.shiftr_div_pow2 by lia. change (2 ^ 3) with 8.
    symmetry. apply (Z.div_unique _ _ _ (storage_ix_ c)); lia. }
  rewrite Hsize. split; [reflexivity |]. split; [reflexivity |].
  rewrite (for_range_step 0 1) by lia.
  rewrite (for_range_done (0 + 1) 1) by lia.
  rewrite Z.add_0_r. change (Z.testbit 1 0) with true.
  unfold put_bit, mem_set, memcpy_at.
  assert (Hbyte : storage_ix_ c ≫ 3 = 0).
  { rewrite Z.shiftr_div_pow2 by lia. apply Z.div_small. simpl. lia. }
  assert (Hbit : Z.land (storage_ix_ c) 7 = storage_ix_ c).
  { change 7 with (Z.ones 3). rewrite Z.land_ones by lia.
    apply Z.mod_small. simpl. lia. }
  rewrite Hbyte, Hbit.
  split; [| split].
  - destruct (Z.leb_spec encoded_offset encoded_offset); [| lia].
    destruct (Z.ltb_spec encoded_offset (encoded_offset + 1)); [| lia].
    cbn [andb]. rewrite Z.sub_diag. cbn [Z.eqb].
    apply Z.setbit_eq. lia.
  - intros j Hj.
    destruct (Z.leb_spec encoded_offset encoded_offset); [| lia].
    destruct (Z.ltb_spec encoded_offset (encoded_offset + 1)); [| lia].
    cbn [andb]. rewrite Z.sub_diag. cbn [Z.eqb].
    apply Z.setbit_neq; lia.
  - intros j Hj.
    destruct (Z.leb_spec encoded_offset j); [| reflexivity].
    destruct (Z.ltb_spec j (encoded_offset + 1)); [lia | reflexivity].
Qed.

(** X17: [FinishStream] after [WriteMetaBlock] always gives exactly one
    byte.  It is the pending byte with one more bit, a 1, at the cursor:
    the bits below the cursor are the pending bits of [storage_[0]], and
    no other byte of the output buffer changes. *)
Theorem FinishStream_after_WriteMetaBlock `{Collaborators} (input_size : Z)
    (input_buffer encoded_buffer : mem) (encoded_offset final_offset : Z)
    (c : BrotliCompressor) :
  let written :=
    WriteMetaBlock input_size input_buffer encoded_buffer encoded_offset c in
  let finished := FinishStream written.2 final_offset written.1.1 in
  finished.1.2 = 1 /\
  storage_ix_ finished.1.1 = storage_ix_ written.1.1 + 1 /\
  Z.testbit (finished.2 final_offset) (storage_ix_ written.1.1) = true /\
  (forall j : Z, 0 <= j < storage_ix_ written.1.1 ->
     Z.testbit (finished.2 final_offset) j
     = Z.testbit (storage_ written.1.1 0) j) /\
  (forall j : Z, j <> final_offset -> finished.2 j = written.2 j).
Proof.
  intros written finished.
  apply FinishStream_one_byte, WriteMetaBlock_cursor.
Qed.

Lemma compress_blocks_capacity `{Collaborators} (input : mem) (input_end : Z)
    (fuel : nat) :
  forall (input_buffer capacity capacity' encoded_size : Z)
         (encoded_buffer : mem) (c : BrotliCompressor),
    let run :=
      compress_blocks fuel input input_buffer input_end capacity encoded_size
        encoded_buffer c in
    let run' :=
      compress_blocks fuel input input_buffer input_end capacity' encoded_size
        encoded_buffer c in
    run.1.1.1 = run'.1.1.1 /\ run.1.2 = run'.1.2 /\ run.2 = run'.2.
Proof.
  induction fuel as [|fuel IH];
    intros input_buffer capacity capacity' encoded_size encoded_buffer c;
    cbn [compress_blocks]; [repeat split |].
  destruct (input_buffer <? input_end); [| repeat split].
  destruct (WriteMetaBlock _ _ _ _ _) as [[c' output_size] encoded_buffer'].
  apply IH.
Qed.

(** X18: [BrotliCompressBuffer] never looks at the capacity that the
    caller passes in [*encoded_size].  The loop keeps [max_output_size] up
    to date, but [WriteMetaBlock] and [FinishStream] only overwrite the
    size they are handed; so the return value, the size reported, the
    bytes written and the compressor left behind are the same for every
    capacity. *)
Theorem BrotliCompressBuffer_ignores_capacity `{Collaborators}
    (input_size : Z) (input_buffer : mem) (capacity capacity' : Z)
    (encoded_buffer : mem) :
  BrotliCompressBuffer input_size input_buffer capacity encoded_buffer
  = BrotliCompressBuffer input_size input_buffer capacity' encoded_buffer.
Proof.
  unfold BrotliCompressBuffer.
  destruct (input_size =? 0); [reflexivity |].
  pose proof (compress_blocks_capacity input_buffer input_size
                (Z.to_nat input_size) 0 capacity capacity' 0 encoded_buffer
                (WriteStreamHeader BrotliCompressor_new)) as Hsame.
  cbn zeta in Hsame.
  destruct (compress_blocks _ _ _ _ capacity _ _ _)
    as [[[c1 m1] n1] buf1].
  destruct (compress_blocks _ _ _ _ capacity' _ _ _)
    as [[[c2 m2] n2] buf2].
  cbn [fst snd] in Hsame. destruct Hsame as (-> & -> & ->). reflexivity.
Qed.

Lemma block_sizes_step (input_size : Z) :
  0 < input_size ->
  block_sizes input_size
  = Z.min input_size (2 ^ 21)
    :: block_sizes (input_size - Z.min input_size (2 ^ 21)).
Proof.
  intros Hpos. unfold block_sizes.
  pose proof (Z.div_mod input_size (2 ^ 21) ltac:(lia)) as Hsplit.
  pose proof (Z.mod_pos_bound input_size (2 ^ 21) ltac:(lia)) as Hrest.
  destruct (Z.le_gt_cases input_size (2 ^ 21)) as [Hle|Hgt].
  - rewrite Z.min_l by lia. rewrite Z.sub_diag.
    change (0 / 2 ^ 21) with 0. change (0 mod 2 ^ 21) with 0.
    destruct (Z.eq_dec input_size (2 ^ 21)) as [->|Hlt]; [reflexivity |].
    rewrite Z.div_small, Z.mod_small by lia.
    destruct (Z.eqb_spec input_size 0); [lia | reflexivity].
  - rewrite Z.min_r by lia.
    assert (Hq : 1 <= input_size / 2 ^ 21)
      by (apply Z.div_le_lower_bound; lia).
    replace (input_size - 2 ^ 21) with (input_size + (-1) * 2 ^ 21) by lia.
    rewrite Z.div_add, Z.mod_add by lia.
    replace (Z.to_nat (input_size / 2 ^ 21))
      with (S (Z.to_nat (input_size / 2 ^ 21 + -1))) by lia.
    reflexivity.
Qed.

Lemma compress_blocks_chunks `{Collaborators} (input : mem) (input_end : Z)
    (fuel : nat) :
  forall (input_buffer capacity encoded_size : Z) (encoded_buffer : mem)
         (c : BrotliCompressor),
    0 <= input_end - input_buffer <= Z.of_nat fuel ->
    let run :=
      compress_blocks fuel input input_buffer input_end capacity encoded_size
        encoded_buffer c in
    (run.1.1.1, run.1.2, run.2)
    = write_blocks (block_sizes (input_end - input_buffer)) input input_buffer
        encoded_size encoded_buffer c.
Proof.
  induction fuel as [|fuel IH];
    intros input_buffer capacity encoded_size encoded_buffer c Hleft.
  - replace (input_end - input_buffer) with 0 by lia. reflexivity.
  - cbn [compress_blocks].
    destruct (Z.ltb_spec input_buffer input_end) as [Hmore|Hdone].
    + rewrite block_sizes_step by lia. cbn [write_blocks].
      change (1 ≪ kMetaBlockSizeBits) with (2 ^ 21).
      assert (Hblock :
        (if 2 ^ 21 >=? input_end - input_buffer
         then input_end - input_buffer else 2 ^ 21)
        = Z.min (input_end - input_buffer) (2 ^ 21)).
      { destruct (Z.geb_spec (2 ^ 21) (input_end - input_buffer)); lia. }
      rewrite Hblock.
      set (block_size := Z.min (input_end - input_buffer) (2 ^ 21)).
      assert (0 < block_size <= input_end - input_buffer)
        by (unfold block_size; lia).
      destruct (WriteMetaBlock _ _ _ _ _) as [[c' output_size] encoded_buffer'].
      replace (input_end - input_buffer - block_size)
        with (input_end - (input_buffer + block_size)) by lia.
      apply IH. lia.
    + replace (input_end - input_buffer) with 0 by lia. reflexivity.
Qed.

Lemma write_blocks_cursor `{Collaborators} (sizes : list Z) (input : mem) :
  forall (input_buffer encoded_size : Z) (encoded_buffer : mem)
         (c : BrotliCompressor),
    sizes <> [] ->
    0 <= storage_ix_
           (write_blocks sizes input input_buffer encoded_size encoded_buffer
              c).1.1 < 8.
Proof.
  induction sizes as [|block_size rest IH];
    intros input_buffer encoded_size encoded_buffer c Hsome; [congruence |].
  cbn [write_blocks].
  pose proof (WriteMetaBlock_cursor block_size (mem_offset input input_buffer)
                encoded_buffer encoded_size c) as Hcursor.
  destruct (WriteMetaBlock _ _ _ _ _) as [[c' output_size] encoded_buffer'].
  destruct rest as [|next rest]; [exact Hcursor |].
  apply IH. congruence.
Qed.

(** X19: [BrotliCompressBuffer] on a non-empty input is the stream
    header, one [WriteMetaBlock] call per block of the input, each
    writing behind the output of the one before, and [FinishStream]
    behind the last.  The blocks take the input in order, [2^21] bytes
    each and what is left over in a shorter last one, so an input of at
    most [2^21] bytes is a single meta-block.  [FinishStream] adds one
    byte: the size reported is the size of the meta-blocks plus one, and
    the return value is 1. *)
Theorem BrotliCompressBuffer_blocks `{Collaborators}
    (input_size : Z) (input_buffer : mem) (capacity : Z)
    (encoded_buffer : mem) :
  0 < input_size ->
  let written :=
    write_blocks (block_sizes input_size) input_buffer 0 0 encoded_buffer
      (WriteStreamHeader BrotliCompressor_new) in
  let finished := FinishStream written.2 written.1.2 written.1.1 in
  BrotliCompressBuffer input_size input_buffer capacity encoded_buffer
  = mkCompressResult 1 (size_t (written.1.2 + 1)) finished.2
      (Some finished.1.1) /\
  (input_size <= 2 ^ 21 -> block_sizes input_size = [input_size]).
Proof.
  intros Hsize written finished. split.
  - assert (Hsome : block_sizes input_size <> [])
      by (rewrite block_sizes_step by lia; congruence).
    pose proof (FinishStream_one_byte written.2 written.1.2 written.1.1
                  (write_blocks_cursor _ _ _ _ _ _ Hsome)) as [Hone _].
    fold finished in Hone.
    unfold BrotliCompressBuffer.
    destruct (Z.eqb_spec input_size 0); [lia |].
    pose proof (compress_blocks_chunks input_buffer input_size
                  (Z.to_nat input_size) 0 capacity 0 encoded_buffer
                  (WriteStreamHeader BrotliCompressor_new) ltac:(lia))
      as Hrun.
    cbn zeta in Hrun. rewrite Z.sub_0_r in Hrun. fold written in Hrun.
    destruct (compress_blocks _ _ _ _ _ _ _ _) as [[[c1 m1] n1] buf1].
    cbn [fst snd] in Hrun.
    unfold finished in *. rewrite <- Hrun in *. cbn [fst snd] in *.
    destruct (FinishStream buf1 n1 c1) as [[c2 n2] buf2].
    cbn [fst snd] in *. rewrite Hone. reflexivity.
  - intros Hsmall. rewrite block_sizes_step by lia.
    rewrite Z.min_l by lia. rewrite Z.sub_diag. reflexivity.
Qed.

Lemma BrotliCompressBuffer_blocks_witness :
  0 < 3 /\
  BrotliCompressBuffer (H := example_collaborators) 3 (fun _ => 97) 0
    (fun _ => 0)
  = mkCompressResult (H := example_collaborators) 1
      (size_t
         ((write_blocks (H := example_collaborators) (block_sizes 3)
             (fun _ => 97) 0 0 (fun _ => 0)
             (WriteStreamHeader BrotliCompressor_new)).1.2 + 1))
      (FinishStream
         (write_blocks (H := example_collaborators) (block_sizes 3)
            (fun _ => 97) 0 0 (fun _ => 0)
            (WriteStreamHeader BrotliCompressor_new)).2
         (write_blocks (H := example_collaborators) (block_sizes 3)
            (fun _ => 97) 0 0 (fun _ => 0)
            (WriteStreamHeader BrotliCompressor_new)).1.2
         (write_blocks (H := example_collaborators) (block_sizes 3)
            (fun _ => 97) 0 0 (fun _ => 0)
            (WriteStreamHeader BrotliCompressor_new)).1.1).2
      (Some
         (FinishStream
            (write_blocks (H := example_collaborators) (block_sizes 3)
               (fun _ => 97) 0 0 (fun _ => 0)
               (WriteStreamHeader BrotliCompressor_new)).2
            (write_blocks (H := example_collaborators) (block_sizes 3)
               (fun _ => 97) 0 0 (fun _ => 0)
               (WriteStreamHeader BrotliCompressor_new)).1.2
            (write_blocks (H := example_collaborators) (block_sizes 3)
               (fun _ => 97) 0 0 (fun _ => 0)
               (WriteStreamHeader BrotliCompressor_new)).1.1).1.1).
Proof.
  assert (Hsize : 0 < 3) by lia.
  split; [exact Hsize |].
  exact (proj1 (BrotliCompressBuffer_blocks (H := example_collaborators) 3
                  (fun _ => 97) 0 (fun _ => 0) Hsize)).
Defined.

(** ** The size of a serialized Huffman tree *)

Lemma EntropyEncode_storage_ix (val : Z) (code : EntropyCode) (s : BitSink) :
  storage_ix (EntropyEncode val code s)
  = storage_ix s + (if count_ code <=? 1 then 0 else vget (depth_ code) val).
Proof.
  unfold EntropyEncode. destruct (count_ code <=? 1); [lia | reflexivity].
Qed.

(** X20: [StoreHuffmanTreeToBitMask] moves the bit cursor by the sum,
    over the first [huffman_tree_size] tokens, of the length of the
    token's code word plus 2, 3 or 7 extra bits for the tokens 16, 17 and
    18; the extra-bit values and the tokens behind [huffman_tree_size]
    have no part in it. *)
Theorem StoreHuffmanTreeToBitMask_bits
    (huffman_tree huffman_tree_extra_bits : list Z) (huffman_tree_size : Z)
    (entropy : EntropyCode) (s : BitSink) :
  0 <= huffman_tree_size <= Z.of_nat (length huffman_tree) ->
  storage_ix
    (StoreHuffmanTreeToBitMask huffman_tree huffman_tree_extra_bits
       huffman_tree_size entropy s)
  = storage_ix s +
    foldr Z.add 0
      (token_bits entropy <$> take (Z.to_nat huffman_tree_size) huffman_tree).
Proof.
  intros Hsize. unfold StoreHuffmanTreeToBitMask.
  rewrite <- (Z2Nat.id huffman_tree_size) at 1 by lia.
  assert (Hk : (Z.to_nat huffman_tree_size <= length huffman_tree)%nat) by lia.
  induction (Z.to_nat huffman_tree_size) as [|k IH].
  - rewrite for_range_done by lia. rewrite take_0. simpl. lia.
  - replace (Z.of_nat (S k)) with (Z.of_nat k + 1) by lia.
    rewrite for_range_last by lia.
    destruct (lookup_lt_is_Some_2 huffman_tree k ltac:(lia)) as [ix Hix].
    rewrite (take_S_r _ _ _ Hix), fmap_app, foldr_app.
    rewrite vget_of_nat, (list_lookup_total_correct _ _ _ Hix).
    assert (Hsum : forall (l : list Z) (a : Z),
               foldr Z.add a l = foldr Z.add 0 l + a).
    { induction l as [|x l IHl]; intros a; simpl; [lia | rewrite IHl; lia]. }
    rewrite Hsum. cbn [fmap list_fmap foldr]. unfold token_bits at 2.
    set (prev := for_range 0 (Z.of_nat k) _ s) in *.
    assert (Hprev : storage_ix prev
                    = storage_ix s +
                      foldr Z.add 0 (token_bits entropy <$> take k huffman_tree))
      by (apply IH; lia).
    destruct (ix =? 16); [| destruct (ix =? 17); [| destruct (ix =? 18)]];
      unfold WriteBits; cbn [storage_ix];
      rewrite ?EntropyEncode_storage_ix, Hprev; lia.
Qed.

Lemma StoreHuffmanTreeToBitMask_bits_witness :
  0 <= 5 <= Z.of_nat (length [2; 2; 2; 3; 3; 17]) /\
  storage_ix
    (StoreHuffmanTreeToBitMask [2; 2; 2; 3; 3; 17] [0; 0; 0; 0; 0; 5] 5
       example_simple_code empty_sink)
  = storage_ix empty_sink +
    foldr Z.add 0
      (token_bits example_simple_code
         <$> take (Z.to_nat 5) [2; 2; 2; 3; 3; 17]).
Proof.
  assert (Hsize : 0 <= 5 <= Z.of_nat (length [2; 2; 2; 3; 3; 17]))
    by (simpl; lia).
  split; [exact Hsize |].
  exact (StoreHuffmanTreeToBitMask_bits [2; 2; 2; 3; 3; 17] [0; 0; 0; 0; 0; 5] 5
           example_simple_code empty_sink Hsize).
Defined.

(** ** Block switches *)

(** X21: inside a block, [MoveAndEncode] writes nothing.  On a cursor
    with [length_ = n], the first [n] calls leave the sink as it is and
    only count the length down to 0; the block type and the index stay.
    A block switch is written only by the call that finds the length 0. *)
Theorem MoveAndEncode_within_block `{Collaborators} (code : BlockSplitCode)
    (s : BitSink) (n : nat) :
  forall (k : nat) (it : BlockSplitIterator),
    length_ it = Z.of_nat (n + k) ->
    Nat.iter n (fun st => MoveAndEncode code st.1 st.2) (it, s)
    = (mkBlockSplitIterator (split_ it) (idx_ it) (type_ it) (Z.of_nat k), s).
Proof.
  induction n as [|n IH]; intros k it Hlen.
  - cbn [Nat.iter]. destruct it as [split idx type len].
    cbn [length_ Nat.add] in Hlen. subst len. reflexivity.
  - rewrite Nat.iter_succ. rewrite (IH (S k) it) by (rewrite Hlen; lia).
    unfold MoveAndEncode. cbn [fst snd length_ split_ idx_ type_].
    destruct (Z.eqb_spec (Z.of_nat (S k)) 0); [lia |].
    cbn [length_ split_ idx_ type_]. do 2 f_equal. lia.
Qed.

Lemma MoveAndEncode_within_block_witness :
  length_ example_iterator = Z.of_nat (3 + 0) /\
  Nat.iter 3
    (fun st =>
       MoveAndEncode (H := example_collaborators)
         (mkBlockSplitCode example_simple_code example_simple_code) st.1 st.2)
    (example_iterator, empty_sink)
  = (mkBlockSplitIterator (split_ example_iterator) (idx_ example_iterator)
       (type_ example_iterator) (Z.of_nat 0), empty_sink).
Proof.
  assert (Hlen : length_ example_iterator = Z.of_nat (3 + 0)) by reflexivity.
  split; [exact Hlen |].
  exact (MoveAndEncode_within_block (H := example_collaborators)
           (mkBlockSplitCode example_simple_code example_simple_code)
           empty_sink 3 0 example_iterator Hlen).
Defined.

(** ** The stream header *)

Lemma put_bit_first_byte (m : mem) (pos : Z) (b : bool) :
  0 <= pos < 8 ->
  put_bit m pos b 0
  = if b then Z.setbit (m 0) pos else Z.clearbit (m 0) pos.
Proof.
  intros Hpos. unfold put_bit, mem_set.
  assert (Hbyte : pos ≫ 3 = 0).
  { rewrite Z.shiftr_div_pow2 by lia. apply Z.div_small. simpl. lia. }
  assert (Hbit : Z.land pos 7 = pos).
  { change 7 with (Z.ones 3). rewrite Z.land_ones by lia.
    apply Z.mod_small. simpl. lia. }
  rewrite Hbyte, Hbit. reflexivity.
Qed.

(** Bits written inside the first byte change that byte one bit at a
    time. *)
Lemma WriteBits_first_byte (n_bits bits : Z) (s : BitSink) :
  0 <= storage_ix s ->
  storage_ix s + n_bits <= 8 ->
  storage (WriteBits n_bits bits s) 0
  = fold_left
      (fun byte i =>
         if Z.testbit bits i then Z.setbit byte (storage_ix s + i)
         else Z.clearbit byte (storage_ix s + i))
      (seqZ 0 n_bits) (storage s 0).
Proof.
  intros Hix Hend. unfold WriteBits, for_range. cbn [storage].
  rewrite Z.sub_0_r.
  assert (Hin : Forall (fun i => 0 <= i < n_bits) (seqZ 0 n_bits)).
  { apply Forall_forall. intros i Hi. apply elem_of_seqZ in Hi. lia. }
  revert Hin. generalize (storage s). generalize (seqZ 0 n_bits).
  intros l. induction l as [|i l IH]; intros m Hin; [reflexivity |].
  apply Forall_cons in Hin as [Hi Hin].
  cbn [fold_left]. rewrite IH by exact Hin.
  rewrite put_bit_first_byte by lia. reflexivity.
Qed.

(** X22: on a compressor whose output is still empty ([storage_ix_ = 0]
    and [storage_[0] = 0], as the constructor leaves it) and whose window
    size is between 16 and 24, [WriteStreamHeader] leaves a first byte
    from which the window size can be read back.  The header takes 4 bits
    for the window size 16 and 7 bits otherwise; the byte is 0 for the
    size 16 and [8 + 16 * (window_bits_ - 17)] otherwise. *)
Theorem WriteStreamHeader_window_bits `{Collaborators} (c : BrotliCompressor) :
  storage_ix_ c = 0 ->
  storage_ c 0 = 0 ->
  16 <= window_bits_ c <= 24 ->
  let c' := WriteStreamHeader c in
  read_window_bits (storage_ c' 0) = window_bits_ c /\
  storage_ix_ c' = (if window_bits_ c =? 16 then 4 else 7) /\
  storage_ c' 0
  = (if window_bits_ c =? 16 then 0 else 8 + 16 * (window_bits_ c - 17)) /\
  window_bits_ c' = window_bits_ c.
Proof.
  intros Hix Hbyte Hwindow c'.
  assert (Hrun :
    storage_ix_ c' = (if window_bits_ c =? 16 then 4 else 7) /\
    storage_ c' 0
    = (if window_bits_ c =? 16 then 0 else 8 + 16 * (window_bits_ c - 17))).
  { unfold c', WriteStreamHeader, sink_of, with_storage. rewrite Hix.
    cbn [storage_ix_ storage_].
    assert (Hcases :
      window_bits_ c = 16 \/ window_bits_ c = 17 \/ window_bits_ c = 18 \/
      window_bits_ c = 19 \/ window_bits_ c = 20 \/ window_bits_ c = 21 \/
      window_bits_ c = 22 \/ window_bits_ c = 23 \/ window_bits_ c = 24)
      by lia.
    repeat (destruct Hcases as [Hw | Hcases]); try rename Hcases into Hw;
      rewrite Hw; cbn [Z.eqb Pos.eqb];
      (split; [reflexivity |]);
      rewrite !WriteBits_first_byte
        by (unfold WriteBits; cbn [storage_ix]; lia);
      cbn [storage]; rewrite Hbyte; vm_compute; reflexivity. }
  destruct Hrun as [Hcursor Hfirst].
  split; [| split; [exact Hcursor | split; [exact Hfirst | reflexivity]]].
  rewrite Hfirst. unfold read_window_bits.
  assert (Hcases :
    window_bits_ c = 16 \/ window_bits_ c = 17 \/ window_bits_ c = 18 \/
    window_bits_ c = 19 \/ window_bits_ c = 20 \/ window_bits_ c = 21 \/
    window_bits_ c = 22 \/ window_bits_ c = 23 \/ window_bits_ c = 24)
    by lia.
  repeat (destruct Hcases as [Hw | Hcases]); try rename Hcases into Hw;
    rewrite Hw; reflexivity.
Qed.

Lemma WriteStreamHeader_window_bits_witness :
  storage_ix_ (BrotliCompressor_new (H := example_collaborators)) = 0 /\
  storage_ (BrotliCompressor_new (H := example_collaborators)) 0 = 0 /\
  16 <= window_bits_ (BrotliCompressor_new (H := example_collaborators)) <= 24 /\
  read_window_bits
    (storage_
       (WriteStreamHeader (BrotliCompressor_new (H := example_collaborators)))
       0)
  = window_bits_ (BrotliCompressor_new (H := example_collaborators)).
Proof.
  assert (Hix : storage_ix_ (BrotliCompressor_new (H := example_collaborators))
                = 0) by reflexivity.
  assert (Hbyte : storage_ (BrotliCompressor_new (H := example_collaborators)) 0
                  = 0) by reflexivity.
  assert (Hwindow :
    16 <= window_bits_ (BrotliCompressor_new (H := example_collaborators))
       <= 24) by (simpl; unfold kWindowBits; lia).
  split; [exact Hix |]. split; [exact Hbyte |]. split; [exact Hwindow |].
  exact (proj1 (WriteStreamHeader_window_bits (H := example_collaborators)
                  BrotliCompressor_new Hix Hbyte Hwindow)).
Defined.

(** ** Vectors without zeros *)

Lemma skip_nonzero_all (v_in : list Z) (fuel : nat) :
  Forall (fun x => x <> 0) v_in ->
  forall i : nat,
    (i <= length v_in)%nat ->
    (length v_in - i <= fuel)%nat ->
    skip_nonzero fuel v_in (Z.of_nat i) = Z.of_nat (length v_in).
Proof.
  intros Hnz. induction fuel as [|fuel IH]; intros i Hi Hfuel.
  - cbn [skip_nonzero]. lia.
  - cbn [skip_nonzero].
    destruct (Z.ltb_spec (Z.of_nat i) (Z.of_nat (length v_in))) as [Hlt|Hge];
      [| cbn [andb]; lia].
    destruct (lookup_lt_is_Some_2 v_in i ltac:(lia)) as [x Hx].
    rewrite vget_of_nat, (list_lookup_total_correct _ _ _ Hx).
    pose proof (proj1 (Forall_lookup _ _) Hnz _ _ Hx) as Hx0. cbn beta in Hx0.
    destruct (Z.eqb_spec x 0); [contradiction |]. cbn [andb negb].
    replace (Z.of_nat i + 1) with (Z.of_nat (S i)) by lia.
    apply IH; lia.
Qed.

Lemma count_zero_at_end (v_in : list Z) (fuel : nat) (reps : Z) :
  count_zero fuel v_in (Z.of_nat (length v_in)) reps
  = (Z.of_nat (length v_in), reps).
Proof.
  destruct fuel as [|fuel]; [reflexivity |]. cbn [count_zero].
  destruct (Z.ltb_spec (Z.of_nat (length v_in)) (Z.of_nat (length v_in)));
    [lia | reflexivity].
Qed.

Lemma max_reps_loop_no_zeros (v_in : list Z) :
  Forall (fun x => x <> 0) v_in ->
  max_reps_loop (length v_in) v_in 0 0 = 0.
Proof.
  intros Hnz. destruct (length v_in) as [|fuel] eqn:Elen; [reflexivity |].
  cbn [max_reps_loop].
  destruct (Z.ltb_spec 0 (Z.of_nat (length v_in))); [| reflexivity].
  change (skip_nonzero (length v_in) v_in 0)
    with (skip_nonzero (length v_in) v_in (Z.of_nat 0)).
  rewrite (skip_nonzero_all v_in (length v_in) Hnz 0) by lia.
  rewrite count_zero_at_end. change (Z.max 0 0) with 0.
  destruct fuel as [|fuel']; [reflexivity |]. cbn [max_reps_loop].
  destruct (Z.ltb_spec (Z.of_nat (length v_in)) (Z.of_nat (length v_in)));
    [lia | reflexivity].
Qed.

Lemma code_zeros_loop_no_zeros (v_in : list Z) (fuel : nat) :
  Forall (fun x => x <> 0) v_in ->
  forall (i : nat) (v_out extra_bits : list Z),
    (i <= length v_in)%nat ->
    (length v_in - i <= fuel)%nat ->
    code_zeros_loop fuel v_in (Z.of_nat i) 0 v_out extra_bits
    = (v_out ++ drop i v_in, extra_bits ++ replicate (length v_in - i) 0).
Proof.
  intros Hnz.
  induction fuel as [|fuel IH]; intros i v_out extra_bits Hi Hfuel.
  - cbn [code_zeros_loop]. rewrite drop_ge by lia.
    replace (length v_in - i)%nat with 0%nat by lia.
    rewrite !app_nil_r. reflexivity.
  - cbn [code_zeros_loop].
    destruct (Z.ltb_spec (Z.of_nat i) (Z.of_nat (length v_in))) as [Hlt|Hge].
    + destruct (lookup_lt_is_Some_2 v_in i ltac:(lia)) as [x Hx].
      rewrite vget_of_nat, (list_lookup_total_correct _ _ _ Hx).
      pose proof (proj1 (Forall_lookup _ _) Hnz _ _ Hx) as Hx0.
      cbn beta in Hx0.
      destruct (Z.eqb_spec x 0); [contradiction |]. cbn [negb].
      replace (Z.of_nat i + 1) with (Z.of_nat (S i)) by lia.
      rewrite IH by lia. rewrite Z.add_0_r, <- !app_assoc.
      rewrite (drop_S _ _ _ Hx).
      replace (length v_in - i)%nat with (S (length v_in - S i)) by lia.
      reflexivity.
    + rewrite drop_ge by lia.
      replace (length v_in - i)%nat with 0%nat by lia.
      rewrite !app_nil_r. reflexivity.
Qed.

(** X23: on a vector without zeros, [RunLengthCodeZeros] finds no run:
    it lowers the prefix bound to 0 and appends the values as they are,
    each with the extra value 0, behind what the output vectors hold. *)
Theorem RunLengthCodeZeros_no_zeros (v_in : list Z) (max_run_length_prefix : Z)
    (v_out extra_bits : list Z) :
  0 <= max_run_length_prefix ->
  Forall (fun x => x <> 0) v_in ->
  RunLengthCodeZeros v_in max_run_length_prefix v_out extra_bits
  = (0, v_out ++ v_in, extra_bits ++ replicate (length v_in) 0).
Proof.
  intros Hm Hnz. unfold RunLengthCodeZeros.
  rewrite (max_reps_loop_no_zeros v_in Hnz).
  change (if 0 <? 0 then Log2Floor 0 else 0) with 0.
  rewrite Z.min_l by exact Hm.
  change (code_zeros_loop (length v_in) v_in 0 0 v_out extra_bits)
    with (code_zeros_loop (length v_in) v_in (Z.of_nat 0) 0 v_out extra_bits).
  rewrite (code_zeros_loop_no_zeros v_in (length v_in) Hnz 0) by lia.
  rewrite drop_0, Nat.sub_0_r. reflexivity.
Qed.

Lemma RunLengthCodeZeros_no_zeros_witness :
  0 <= 3 /\
  Forall (fun x => x <> 0) [2; 1; 1; 5] /\
  RunLengthCodeZeros [2; 1; 1; 5] 3 [] []
  = (0, [] ++ [2; 1; 1; 5], [] ++ replicate (length [2; 1; 1; 5]) 0).
Proof.
  assert (Hm : 0 <= 3) by lia.
  assert (Hnz : Forall (fun x => x <> 0) [2; 1; 1; 5])
    by (repeat constructor; lia).
  split; [exact Hm |]. split; [exact Hnz |].
  exact (RunLengthCodeZeros_no_zeros [2; 1; 1; 5] 3 [] [] Hm Hnz).
Defined.
